(** * ZerosAndPoles: gain/zero/pole transfer functions (PySimulator)

    A shallow embedding of
    [Plugins/Algorithms/Control/Internal/ZerosAndPoles.py]:
    the root-to-polynomial conversion [transformRootsToPoly2], the SISO
    entity [ZerosAndPolesSISO] and the MIMO matrix [ZerosAndPoles].

    Python floats are IEEE binary64 numbers.  The arithmetic the program
    performs is collected in the class [PyFloat]; the instance [Float64]
    interprets it with Rocq's primitive binary64 floats (every definition
    then runs, rounding included), the instance [Exact] with the real
    numbers (the arithmetic the program approximates).  Python exceptions
    are values of the type [exn], carried by the error monad [result]. *)

From Stdlib Require Import String.
From Stdlib Require Import ZArith List Bool Lia.
From Stdlib Require Import Floats.
From Stdlib Require Import Reals Lra.
Import ListNotations.

Set Implicit Arguments.

(* ===================================================================== *)
(** ** Python floats *)
(* ===================================================================== *)

(** The operations on [float] values the module uses.  [fcompare] is the
    IEEE comparison with its four outcomes; [fhypot] is C's [hypot], which
    [numpy.abs] calls on a complex number; [fepsilon] is
    [sys.float_info.epsilon]; [f100] and [f1em10] are the literals [100.0]
    and [1e-10]; [fnan] is [Py_NAN]. *)
Class PyFloat (F : Type) : Type := {
  fadd : F -> F -> F;
  fsub : F -> F -> F;
  fmul : F -> F -> F;
  fdiv : F -> F -> F;
  fopp : F -> F;
  fabs : F -> F;
  fhypot : F -> F -> F;
  fcompare : F -> F -> float_comparison;
  fzero : F;
  fone : F;
  f100 : F;
  f1em10 : F;
  fepsilon : F;
  fnan : F
}.

Declare Scope pyfloat_scope.
Delimit Scope pyfloat_scope with py.
Infix "+" := fadd : pyfloat_scope.
Infix "-" := fsub : pyfloat_scope.
Infix "*" := fmul : pyfloat_scope.
Infix "/" := fdiv : pyfloat_scope.
Notation "- x" := (fopp x) : pyfloat_scope.

Section Comparisons.
Context {F : Type} {arith : PyFloat F}.

(** Python's [a < b], [a > b], [a >= b], [a == b] and [a != b] on floats:
    each reads the one IEEE comparison of [a] with [b]. *)
Definition flt (a b : F) : bool :=
  match fcompare a b with FLt => true | _ => false end.
Definition fgt (a b : F) : bool :=
  match fcompare a b with FGt => true | _ => false end.
Definition fge (a b : F) : bool :=
  match fcompare a b with FGt | FEq => true | _ => false end.
Definition feq (a b : F) : bool :=
  match fcompare a b with FEq => true | _ => false end.
Definition fne (a b : F) : bool := negb (feq a b).

(** A NaN is the one value that does not equal itself; a finite value is
    one whose difference with itself is zero (infinities and NaN give
    NaN). *)
Definition fisnan (a : F) : bool := negb (feq a a).
Definition fisfinite (a : F) : bool := feq (a - a)%py fzero.

(** [numpy.maximum], which propagates NaN. *)
Definition npy_maximum (a b : F) : F :=
  if fge a b || fisnan a then a else b.

(** Python's builtin [min(a, b)] and [max(a, b)]: the second argument
    replaces the first when it compares strictly smaller (larger). *)
Definition py_min (a b : F) : F := if flt b a then b else a.
Definition py_max (a b : F) : F := if fgt b a then b else a.
End Comparisons.

(* ===================================================================== *)
(** ** Complex numbers *)
(* ===================================================================== *)

Record complex (F : Type) : Type := Complex { real : F; imag : F }.
Arguments Complex {F} real imag.
Arguments real {F} c.
Arguments imag {F} c.

Section ComplexArithmetic.
Context {F : Type} {arith : PyFloat F}.
Local Open Scope pyfloat_scope.

(** A float promoted to a complex number, as [complex(x)] and numpy's
    cast to [complex128] do. *)
Definition of_real (x : F) : complex F := Complex x fzero.

Definition c_sum (a b : complex F) : complex F :=
  Complex (real a + real b) (imag a + imag b).
Definition c_diff (a b : complex F) : complex F :=
  Complex (real a - real b) (imag a - imag b).
Definition c_neg (a : complex F) : complex F :=
  Complex (- real a) (- imag a).
Definition c_prod (a b : complex F) : complex F :=
  Complex (real a * real b - imag a * imag b)
          (real a * imag b + imag a * real b).
Definition conj (a : complex F) : complex F :=
  Complex (real a) (- imag a).

(** [numpy.abs] on a complex number. *)
Definition c_abs (a : complex F) : F := fhypot (real a) (imag a).

Definition c_isfinite (a : complex F) : bool :=
  fisfinite (real a) && fisfinite (imag a).
End ComplexArithmetic.

(* ===================================================================== *)
(** ** Exceptions *)
(* ===================================================================== *)

(** The exceptions the module raises or lets through.  A [ValueError]
    whose text ends in [str(value)] carries that value. *)
Inductive exn (F : Type) : Type :=
| ValueError (text : string) (value : option (list (complex F)))
| TypeError (text : string)
| IndexError (text : string)
| UnboundLocalError (text : string)
| ZeroDivisionError (text : string).
Arguments ValueError {F} text value.
Arguments TypeError {F} text.
Arguments IndexError {F} text.
Arguments UnboundLocalError {F} text.
Arguments ZeroDivisionError {F} text.

Inductive result (F A : Type) : Type :=
| Ok (a : A)
| Raise (e : exn F).
Arguments Ok {F A} a.
Arguments Raise {F A} e.

Definition bind {F A B} (m : result F A) (f : A -> result F B) : result F B :=
  match m with
  | Ok a => f a
  | Raise e => Raise e
  end.

Declare Scope py_scope.
Delimit Scope py_scope with result.
Notation "x <- m ;; k" := (bind m (fun x => k))
  (at level 61, m at next level, right associativity) : py_scope.
Notation "' pat <- m ;; k" := (bind m (fun x => match x with pat => k end))
  (at level 61, pat pattern, m at next level, right associativity) : py_scope.

(** The line feed of a message text. *)
Definition newline : string := String (Ascii.ascii_of_nat 10) EmptyString.

(** The failure classes of the specification. *)
Inductive failure : Type := InvalidArgument | OutOfRange.

Definition failure_of {F} (e : exn F) : option failure :=
  match e with
  | ValueError _ _ | TypeError _ => Some InvalidArgument
  | IndexError _ => Some OutOfRange
  | UnboundLocalError _ | ZeroDivisionError _ => None
  end.

Definition is_ok {F A} (m : result F A) : bool :=
  match m with Ok _ => true | Raise _ => false end.

Section PythonSequences.
Context {F : Type}.
Local Open Scope py_scope.

(** A list comprehension whose body may raise: the elements are
    evaluated in order and the first exception ends the evaluation. *)
Fixpoint comprehension {A B} (f : A -> result F B) (l : list A)
  : result F (list B) :=
  match l with
  | [] => Ok []
  | a :: l' => b <- f a ;; bs <- comprehension f l' ;; Ok (b :: bs)
  end.

(** A [for] loop over [l] that updates the loop state [s]. *)
Fixpoint for_each {A S} (l : list A) (body : S -> A -> result F S) (s : S)
  : result F S :=
  match l with
  | [] => Ok s
  | a :: l' => s' <- body s a ;; for_each l' body s'
  end.

(** [l[i]] on a Python list: a negative index counts from the end, an
    index outside the list raises [IndexError]. *)
Definition subscript {A} (l : list A) (i : Z) : result F A :=
  let n := Z.of_nat (length l) in
  let j := if (i <? 0)%Z then (i + n)%Z else i in
  if ((j <? 0) || (n <=? j))%Z
  then Raise (IndexError "list index out of range")
  else match nth_error l (Z.to_nat j) with
       | Some a => Ok a
       | None => Raise (IndexError "list index out of range")
       end.

(** [range(0, n)]. *)
Definition range (n : Z) : list Z := map Z.of_nat (seq 0 (Z.to_nat n)).

(** The slice [l[0:len(l):2]]; [l[1:len(l):2]] is [stride2 (tl l)]. *)
Fixpoint stride2 {A} (l : list A) : list A :=
  match l with
  | [] => []
  | a :: l' => a :: match l' with [] => [] | _ :: l'' => stride2 l'' end
  end.

(** Reading a local variable that no executed statement has assigned. *)
Definition local {A} (name : string) (v : option A) : result F A :=
  match v with
  | Some a => Ok a
  | None => Raise (UnboundLocalError
                     ("local variable '" ++ name ++ "' referenced before assignment")%string)
  end.
End PythonSequences.

(* ===================================================================== *)
(** ** Root-to-polynomial conversion *)
(* ===================================================================== *)

Section TransformRoots.
Context {F : Type} {arith : PyFloat F}.
Local Open Scope pyfloat_scope.

(** [eps = 100.0*sys.float_info.epsilon]. *)
Definition eps : F := f100 * fepsilon.

(** One entry of [isConj]:
    [abs(r1.conj() - r2) < eps*max(1, abs(r1.real))]. *)
Definition isConj (r1 r2 : complex F) : bool :=
  flt (c_abs (c_diff (conj r1) r2))
      (eps * npy_maximum fone (fabs (real r1))).

(** One row [(c[j,0], c[j,1])] of the coefficient matrix:
    [(r1*r2).real] and [(-(r1+r2)).real]. *)
Definition poly2_row (r1 r2 : complex F) : F * F :=
  (real (c_prod r1 r2), real (c_neg (c_sum r1 r2))).

Definition transformRootsToPoly2 (roots : list (complex F))
  : result F (list (F * F)) :=
  let nroots := length roots in
  if negb (nroots mod 2 =? 0)%nat
  then Raise (ValueError "Number of roots must be even." None)
  else
    let r1 := stride2 roots in
    let r2 := stride2 (tl roots) in
    if negb (forallb (fun '(a, b) => isConj a b) (combine r1 r2))
    then Raise (ValueError
                  ("Vector of roots are not all conjugate complex numbers:"
                     ++ newline ++ "roots = ")%string
                  (Some roots))
    else Ok (map (fun '(a, b) => poly2_row a b) (combine r1 r2)).
End TransformRoots.

(* ===================================================================== *)
(** ** Complex division *)
(* ===================================================================== *)

Section ComplexDivision.
Context {F : Type} {arith : PyFloat F}.
Local Open Scope pyfloat_scope.

(** Python's division of two [complex] objects: CPython's [c_quot]
    (Smith's algorithm), whose [errno = EDOM] on a zero divisor the
    interpreter turns into [ZeroDivisionError]. *)
Definition c_quot (a b : complex F) : result F (complex F) :=
  let abs_breal := if flt (real b) fzero then - real b else real b in
  let abs_bimag := if flt (imag b) fzero then - imag b else imag b in
  if fge abs_breal abs_bimag then
    if feq abs_breal fzero
    then Raise (ZeroDivisionError "complex division by zero")
    else
      let ratio := imag b / real b in
      let denom := real b + imag b * ratio in
      Ok (Complex ((real a + imag a * ratio) / denom)
                  ((imag a - real a * ratio) / denom))
  else if fge abs_bimag abs_breal then
    let ratio := real b / imag b in
    let denom := real b * ratio + imag b in
    Ok (Complex ((real a * ratio + imag a) / denom)
                ((imag a * ratio - real a) / denom))
  else Ok (Complex fnan fnan).

(** numpy's division of two [complex128] values (the [divide] loop):
    the same scaling, no exception; a zero divisor gives the IEEE
    quotients of the two components by zero. *)
Definition npy_divide (a b : complex F) : complex F :=
  let in2r_abs := fabs (real b) in
  let in2i_abs := fabs (imag b) in
  if fge in2r_abs in2i_abs then
    if feq in2r_abs fzero && feq in2i_abs fzero
    then Complex (real a / in2r_abs) (imag a / in2r_abs)
    else
      let rat := imag b / real b in
      let scl := fone / (real b + imag b * rat) in
      Complex ((real a + imag a * rat) * scl)
              ((imag a - real a * rat) * scl)
  else
    let rat := real b / imag b in
    let scl := fone / (imag b + real b * rat) in
    Complex ((real a * rat + imag a) * scl)
            ((imag a * rat - real a) * scl).
End ComplexDivision.

(* ===================================================================== *)
(** ** The two interpretations of the arithmetic *)
(* ===================================================================== *)

(** C's [hypot] on binary64: infinite when an argument is, NaN when one
    is NaN and none is infinite, and otherwise the square root of
    [x*x + y*y] without intermediate overflow or underflow.  A C library
    returns that root to within one unit in the last place; the value
    here is the correctly rounded one: the sum of the squares is taken
    exactly, on the integer mantissas, and [SFsqrt] rounds its root
    once, to nearest even. *)
Definition hypot64 (x y : float) : float :=
  match Prim2SF x, Prim2SF y with
  | S754_infinity _, _ | _, S754_infinity _ => infinity
  | S754_nan, _ | _, S754_nan => nan
  | S754_zero _, _ => PrimFloat.abs y
  | _, S754_zero _ => PrimFloat.abs x
  | S754_finite _ mx ex, S754_finite _ my ey =>
      let e := Z.min ex ey in
      let ax := (Z.pos mx * 2 ^ (ex - e))%Z in
      let ay := (Z.pos my * 2 ^ (ey - e))%Z in
      SF2Prim (SFsqrt prec emax
                 (S754_finite false (Z.to_pos (ax * ax + ay * ay)) (2 * e)))
  end.

(** Python floats as they are: IEEE binary64, round to nearest even. *)
#[export] Instance Float64 : PyFloat float := {|
  fadd := PrimFloat.add;
  fsub := PrimFloat.sub;
  fmul := PrimFloat.mul;
  fdiv := PrimFloat.div;
  fopp := PrimFloat.opp;
  fabs := PrimFloat.abs;
  fhypot := hypot64;
  fcompare := PrimFloat.compare;
  fzero := 0%float;
  fone := 1%float;
  f100 := 100%float;
  f1em10 := 0x1.b7cdfd9d7bdbbp-34%float;
  fepsilon := 0x1p-52%float;
  fnan := nan
|}.

(** The comparison of two real numbers, which are always ordered. *)
Definition Rcompare3 (x y : R) : float_comparison :=
  match total_order_T x y with
  | inleft (left _) => FLt
  | inleft (right _) => FEq
  | inright _ => FGt
  end.

(** The arithmetic without rounding: real numbers.  No real number is a
    NaN; [fnan] is only reached by comparisons that are unordered. *)
#[export] Instance Exact : PyFloat R := {|
  fadd := Rplus;
  fsub := Rminus;
  fmul := Rmult;
  fdiv := Rdiv;
  fopp := Ropp;
  fabs := Rabs;
  fhypot := fun x y => sqrt (x * x + y * y)%R;
  fcompare := Rcompare3;
  fzero := 0%R;
  fone := 1%R;
  f100 := 100%R;
  f1em10 := (/ 10000000000)%R;
  fepsilon := (/ 4503599627370496)%R;
  fnan := 0%R
|}.

(* ===================================================================== *)
(** ** External collaborators *)
(* ===================================================================== *)

(** Functions the module calls and does not define: [Misc.frequencyRange]
    and [Misc.from_Hz] of the package, [numpy.logspace], [numpy.linspace]
    and [math.log10].  Those that can raise return a [result]. *)
Class Collaborators (F : Type) : Type := {
  Misc_frequencyRange :
    list (complex F) -> list (complex F) -> option (F * F) -> result F (F * F);
  Misc_from_Hz : list F -> list F;
  numpy_logspace : F -> F -> Z -> result F (list F);
  numpy_linspace : F -> F -> Z -> result F (list F);
  math_log10 : F -> result F F
}.

(* ===================================================================== *)
(** ** The SISO entity *)
(* ===================================================================== *)

Module ZerosAndPolesSISO.
Section WithFloat.
Context {F : Type} {arith : PyFloat F}.
Local Open Scope pyfloat_scope.
Local Open Scope py_scope.

(** The attributes of an object of the class. *)
Record t : Type := {
  k : F;
  n1 : list F;
  n2 : list (F * F);
  d1 : list F;
  d2 : list (F * F);
  z : list (complex F);
  p : list (complex F)
}.

(** An argument that is one number or a sequence of numbers;
    [numpy.array(a, dtype=complex, ndmin=1)] makes a vector of either. *)
Inductive array_like : Type :=
| Single (c : complex F)
| Sequence (l : list (complex F)).

Definition ndmin1 (a : array_like) : list (complex F) :=
  match a with
  | Single c => [c]
  | Sequence l => l
  end.

(** [__init__] on a 3-tuple [(k, z, p)], the branch [len(zpk) == 3]. *)
Definition __init__ (zpk : F * array_like * array_like) : result F t :=
  let '(k0, z0, p0) := zpk in
  let z := ndmin1 z0 in
  let p := ndmin1 p0 in
  let n1 := map (fun c => - real c) (filter (fun c => feq (imag c) fzero) z) in
  let d1 := map (fun c => - real c) (filter (fun c => feq (imag c) fzero) p) in
  n2 <- transformRootsToPoly2 (filter (fun c => fne (imag c) fzero) z) ;;
  d2 <- transformRootsToPoly2 (filter (fun c => fne (imag c) fzero) p) ;;
  Ok {| k := k0; n1 := n1; n2 := n2; d1 := d1; d2 := d2; z := z; p := p |}.

(** [set_k]; [k_new] is a float, which [float(k_new)] returns as it is. *)
Definition set_k (self : t) (k_new : F) : t :=
  {| k := k_new; n1 := n1 self; n2 := n2 self; d1 := d1 self; d2 := d2 self;
     z := z self; p := p self |}.

Definition poles (self : t) : list (complex F) := p self.
Definition zeros (self : t) : list (complex F) := z self.

(** *** Evaluation *)

(** The argument [s]: a number, for which [isinstance(s, (int, float,
    complex))] holds and [complex(s)] is taken, or an array-like, here
    a vector. *)
Inductive points : Type :=
| Scalar (s : complex F)
| ArrayLike (s : list (complex F)).

(** A complex scalar is a Python [complex] or a [numpy.complex128];
    the two divide differently. *)
Inductive pyscalar : Type :=
| PyComplex (c : complex F)
| NpComplex128 (c : complex F).

Definition value (v : pyscalar) : complex F :=
  match v with
  | PyComplex c | NpComplex128 c => c
  end.

Inductive response : Type :=
| ScalarValue (v : pyscalar)
| ArrayValue (v : list (complex F)).

(** [ss + zj], with the float [zj] promoted. *)
Definition first_order (ss : complex F) (zj : F) : complex F :=
  c_sum ss (of_real zj).

(** [aj + (bj+ss)*ss], with the floats [aj] and [bj] promoted. *)
Definition second_order (ss : complex F) (ab : F * F) : complex F :=
  let '(aj, bj) := ab in
  c_sum (of_real aj) (c_prod (c_sum (of_real bj) ss) ss).

(** [a *= x] on scalars: the product of two Python complex numbers is
    one; as soon as one factor is a numpy scalar, numpy's multiplication
    runs ([numpy.complex128] is a subclass of [complex], so its reflected
    method has priority) and the product is a [numpy.complex128]. *)
Definition imul (a x : pyscalar) : pyscalar :=
  match a, x with
  | PyComplex a', PyComplex x' => PyComplex (c_prod a' x')
  | _, _ => NpComplex128 (c_prod (value a) (value x))
  end.

(** The two loops over first- and second-order factors, for a scalar
    [ss].  [zj] is a [numpy.float64], a subclass of [float]: in
    [ss + zj] the left operand's [complex.__add__] (CPython 2.7 and
    later) accepts it and returns a Python complex.  In [bj+ss] the left
    operand is the numpy scalar, so the sum and what is built from it
    are [numpy.complex128] values. *)
Definition scalar_product (ss : complex F) (r1 : list F) (r2 : list (F * F))
           (start : pyscalar) : pyscalar :=
  let acc := fold_left (fun acc zj => imul acc (PyComplex (first_order ss zj)))
                       r1 start in
  fold_left (fun acc ab => imul acc (NpComplex128 (second_order ss ab))) r2 acc.

(** The same loops for an array [ss]: every operation is elementwise. *)
Definition elementwise (f : complex F -> complex F -> complex F)
           (a b : list (complex F)) : list (complex F) :=
  map (fun '(x, y) => f x y) (combine a b).

Definition array_product (ss : list (complex F)) (r1 : list F)
           (r2 : list (F * F)) (start : list (complex F)) : list (complex F) :=
  let acc := fold_left
               (fun acc zj =>
                  elementwise c_prod acc (map (fun s => first_order s zj) ss))
               r1 start in
  fold_left
    (fun acc ab =>
       elementwise c_prod acc (map (fun s => second_order s ab) ss))
    r2 acc.

(** The divisor [den2] of the scalar branch: [den] or the float
    [den_min]. *)
Inductive divisor : Type :=
| ByScalar (den : pyscalar)
| ByFloat (den_min : F).

(** [num/den2] on scalars: Python's division when [num] is a Python
    complex and [den2] a Python complex or a float, numpy's otherwise. *)
Definition truediv (num : pyscalar) (den2 : divisor) : result F pyscalar :=
  match num, den2 with
  | PyComplex a, ByScalar (PyComplex b) =>
      q <- c_quot a b ;; Ok (PyComplex q)
  | PyComplex a, ByFloat x =>
      q <- c_quot a (of_real x) ;; Ok (PyComplex q)
  | _, ByScalar b => Ok (NpComplex128 (npy_divide (value num) (value b)))
  | _, ByFloat x => Ok (NpComplex128 (npy_divide (value num) (of_real x)))
  end.

(** [num] and [den] of the scalar branch, before the division. *)
Definition scalar_num (self : t) (ss : complex F) : pyscalar :=
  scalar_product ss (n1 self) (n2 self) (PyComplex (of_real (k self))).
Definition scalar_den (self : t) (ss : complex F) : pyscalar :=
  scalar_product ss (d1 self) (d2 self) (PyComplex (Complex fone fzero)).

(** [num] and [den] of the array branch. *)
Definition array_num (self : t) (ss : list (complex F)) : list (complex F) :=
  array_product ss (n1 self) (n2 self)
    (map (fun _ => c_prod (of_real (k self)) (Complex fone fzero)) ss).
Definition array_den (self : t) (ss : list (complex F)) : list (complex F) :=
  array_product ss (d1 self) (d2 self) (map (fun _ => Complex fone fzero) ss).

(** One entry of [numpy.select([abs_den >= den_min*ones], [den], den_min)]. *)
Definition select_den (den_min : F) (den : complex F) : complex F :=
  if fge (c_abs den) (den_min * fone) then den else of_real den_min.

Definition evaluate_at_s (self : t) (s : points) (den_min : F)
  : result F response :=
  match s with
  | Scalar ss =>
      let num := scalar_num self ss in
      let den := scalar_den self ss in
      let abs_den := c_abs (value den) in
      let den2 := if fge abs_den den_min then ByScalar den else ByFloat den_min in
      y <- truediv num den2 ;; Ok (ScalarValue y)
  | ArrayLike ss =>
      let num := array_num self ss in
      let den := array_den self ss in
      let den2 := map (select_den den_min) den in
      Ok (ArrayValue (elementwise npy_divide num den2))
  end.

(** *** Frequency range and response *)

Context {ext : Collaborators F}.

Definition frequencyRange (self : t) (f_range : option (F * F))
  : result F (F * F) :=
  Misc_frequencyRange (z self) (p self) f_range.

(** The vector [f] of frequency points. *)
Definition frequency_points (f_logspace : bool) (f_min f_max : F) (n : Z)
  : result F (list F) :=
  if f_logspace
  then lo <- math_log10 f_min ;; hi <- math_log10 f_max ;;
       numpy_logspace lo hi (n + 1)
  else numpy_linspace f_min f_max (n + 1).

(** [w = numpy.zeros(len(f), dtype=complex); w.imag = Misc.from_Hz(f)]:
    the assignment broadcasts a vector of one element and refuses any
    other vector of another length. *)
Definition imaginary_axis (f : list F) : result F (list (complex F)) :=
  let w := map (fun _ => Complex fzero fzero) f in
  match Misc_from_Hz f with
  | [x] => Ok (map (fun c => Complex (real c) x) w)
  | v =>
      if (length v =? length w)%nat
      then Ok (map (fun '(c, x) => Complex (real c) x) (combine w v))
      else Raise (ValueError "could not broadcast input array" None)
  end.

Definition frequencyResponse (self : t) (n : Z) (f_range : option (F * F))
           (f_logspace : bool) : result F (list F * response) :=
  '(f_min, f_max) <- frequencyRange self f_range ;;
  f <- frequency_points f_logspace f_min f_max n ;;
  w <- imaginary_axis f ;;
  y <- evaluate_at_s self (ArrayLike w) f1em10 ;;
  Ok (f, y).
End WithFloat.
End ZerosAndPolesSISO.

(* ===================================================================== *)
(** ** The MIMO matrix *)
(* ===================================================================== *)

Module ZerosAndPoles.
Section WithFloat.
Context {F : Type} {arith : PyFloat F} {ext : Collaborators F}.
Local Open Scope py_scope.

(** The attributes of an object of the class: the rows of cells, the
    number [nu] of inputs (columns) and [ny] of outputs (rows). *)
Record t : Type := {
  zpk : list (list (ZerosAndPolesSISO.t (F:=F)));
  nu : Z;
  ny : Z
}.

(** What [__init__] establishes on a rectangular argument. *)
Definition well_formed (self : t) : Prop :=
  ny self = Z.of_nat (length (zpk self)) /\
  Forall (fun row => Z.of_nat (length row) = nu self) (zpk self).

(** [self.zpk[i][j]]. *)
Definition cell (self : t) (i j : Z) : result F (ZerosAndPolesSISO.t (F:=F)) :=
  row <- subscript (zpk self) i ;; subscript row j.

(** [__getitem__]; [key] is the tuple of integers between the brackets. *)
Definition __getitem__ (self : t) (key : list Z)
  : result F (ZerosAndPolesSISO.t (F:=F)) :=
  if negb (length key =? 2)%nat
  then Raise (TypeError "Item must have two elements, e.g. [1,2]")
  else
    key0 <- subscript key 0 ;;
    if ((key0 <? 0) || (ny self <=? key0))%Z
    then Raise (IndexError "Index is not in the allowed range")
    else
      key1 <- subscript key 1 ;;
      if ((key1 <? 0) || (nu self <=? key1))%Z
      then Raise (IndexError "Index is not in the allowed range")
      else cell self key0 key1.

(** The indices a call selects: all of them when the argument is
    [None]. *)
Definition selected (n : Z) (indices : option (list Z)) : list Z :=
  match indices with
  | None => range n
  | Some l => l
  end.

Definition evaluate_at_s (self : t) (s : ZerosAndPolesSISO.points (F:=F))
           (den_min : F) (u_indices y_indices : option (list Z))
  : result F (list (list (ZerosAndPolesSISO.response (F:=F)))) :=
  let ui := selected (nu self) u_indices in
  let yi := selected (ny self) y_indices in
  comprehension
    (fun j =>
       comprehension
         (fun i =>
            c <- cell self i j ;;
            ZerosAndPolesSISO.evaluate_at_s c s den_min)
         yi)
    ui.

(** The local variables of [frequencyResponse] once the frequency
    range is determined; [ui] and [yi] are bound only on the path that
    assigns them. *)
Record locals : Type := {
  f_min : F;
  f_max : F;
  ui : option (list Z);
  yi : option (list Z)
}.

(** The statement [if f_range != None: ... else: ...]. *)
Definition determine_range (self : t) (f_range : option (F * F))
           (u_indices y_indices : option (list Z)) : result F locals :=
  match f_range with
  | Some (lo, hi) =>
      Ok {| f_min := lo; f_max := hi; ui := None; yi := None |}
  | None =>
      let ui := selected (nu self) u_indices in
      let yi := selected (ny self) y_indices in
      i0 <- subscript yi 0 ;;
      row <- subscript (zpk self) i0 ;;
      j0 <- subscript ui 0 ;;
      first <- subscript row j0 ;;
      r0 <- ZerosAndPolesSISO.frequencyRange first None ;;
      r <- for_each yi
             (fun r i =>
                for_each ui
                  (fun r j =>
                     c <- cell self i j ;;
                     '(f_min_ij, f_max_ij) <-
                        ZerosAndPolesSISO.frequencyRange c None ;;
                     Ok (py_min (fst r) f_min_ij, py_max (snd r) f_max_ij))
                  r)
             r0 ;;
      Ok {| f_min := fst r; f_max := snd r; ui := Some ui; yi := Some yi |}
  end.

Definition frequencyResponse (self : t) (n : Z) (f_range : option (F * F))
           (f_logspace : bool) (u_indices y_indices : option (list Z))
  : result F (list F * list (list (ZerosAndPolesSISO.response (F:=F)))) :=
  vars <- determine_range self f_range u_indices y_indices ;;
  f <- ZerosAndPolesSISO.frequency_points f_logspace (f_min vars) (f_max vars) n ;;
  w <- ZerosAndPolesSISO.imaginary_axis f ;;
  ui <- local "ui" (ui vars) ;;
  yi <- local "yi" (yi vars) ;;
  Y <- evaluate_at_s self (ZerosAndPolesSISO.ArrayLike w) f1em10
         (Some ui) (Some yi) ;;
  Ok (f, Y).
End WithFloat.
End ZerosAndPoles.

(** The pairs [(l[0], l[1]), (l[2], l[3]), ...] the conversion zips
    from its two slices. *)
Definition pairs {A : Type} (l : list A) : list (A * A) :=
  combine (stride2 l) (stride2 (tl l)).

(* ===================================================================== *)
(** ** Reference values and sample data *)
(* ===================================================================== *)

Section Reference.
Context {F : Type} {arith : PyFloat F}.
Local Open Scope py_scope.

(** What the specification calls conjugate-valid: every consecutive
    pair [(roots[2j], roots[2j+1])] passes the test. *)
Definition conjugate_valid (roots : list (complex F)) : Prop :=
  forall j r1 r2,
    nth_error roots (2 * j) = Some r1 ->
    nth_error roots (2 * j + 1) = Some r2 ->
    isConj r1 r2 = true.

(** Exact conjugate pairs: [roots[2j+1]] is [roots[2j].conj()]. *)
Inductive conjugate_pairs : list (complex F) -> Prop :=
| pairs_nil : conjugate_pairs []
| pairs_cons r l : conjugate_pairs l -> conjugate_pairs (r :: conj r :: l).

(** The roots with a nonzero imaginary part, [z[z.imag <> 0.0]], and
    those with imaginary part zero, [z[z.imag == 0]]. *)
Definition strictly_complex (roots : list (complex F)) : list (complex F) :=
  filter (fun c => fne (imag c) fzero) roots.
Definition purely_real (roots : list (complex F)) : list (complex F) :=
  filter (fun c => feq (imag c) fzero) roots.

(** The partition of the specification, one pass over the input: an
    entry with imaginary part zero is negated and appended to the
    first-order coefficients, any other entry is appended to the
    sequence that is paired. *)
Fixpoint partition_roots (roots : list (complex F))
  : list F * list (complex F) :=
  match roots with
  | [] => ([], [])
  | c :: rest =>
      let '(firsts, paired) := partition_roots rest in
      if feq (imag c) fzero
      then (fopp (real c) :: firsts, paired)
      else (firsts, c :: paired)
  end.

(** The product [start * (s - r_1) * ... * (s - r_n)]. *)
Definition root_product (s : complex F) (roots : list (complex F))
           (start : complex F) : complex F :=
  fold_left (fun acc r => c_prod acc (c_diff s r)) roots start.

(** Direct substitution into [k * prod(s - z[i]) / prod(s - p[i])],
    with Python's complex arithmetic. *)
Definition direct_substitution (k : F) (z p : list (complex F))
           (s : complex F) : result F (complex F) :=
  c_quot (root_product s z (of_real k))
         (root_product s p (Complex fone fzero)).

(** [|a - b| <= tol * |b|]. *)
Definition within_relative (tol : F) (a b : complex F) : bool :=
  fge (fmul tol (c_abs b)) (c_abs (c_diff a b)).

(** The value of the transfer function at one point, from the factors:
    [start * prod(s + r1[i]) * prod(a_j + (b_j + s)*s)]. *)
Definition point_product (s : complex F) (r1 : list F) (r2 : list (F * F))
           (start : complex F) : complex F :=
  fold_left (fun acc ab => c_prod acc (ZerosAndPolesSISO.second_order s ab)) r2
    (fold_left (fun acc zj => c_prod acc (ZerosAndPolesSISO.first_order s zj))
               r1 start).
End Reference.

(** Binary64 complex numbers and the entity of the module's self-test:
    gain 3.1, zeros [4.0, 2-3j, 2+3j], poles
    [1+2j, 1-2j, 5.0, 6.0, 4-3j, 4+3j, 7]. *)
Definition C64 (re im : float) : complex float := Complex re im.

Definition sample_zeros : list (complex float) :=
  [C64 4 0; C64 2 (-3); C64 2 3].
Definition sample_poles : list (complex float) :=
  [C64 1 2; C64 1 (-2); C64 5 0; C64 6 0; C64 4 (-3); C64 4 3; C64 7 0].
Definition sample_gain : float := 0x1.8cccccccccccdp+1%float.

(** The literal [1e-9]. *)
Definition tol_1em9 : float := 0x1.12e0be826d695p-30%float.

(** A cell with the zero [-1], the pole [-2] and the gain [g], as
    [__init__] builds it from [(g, [-1], [-2])], and a 2x3 matrix of six
    such cells with six gains. *)
Definition gain_cell (g : float) : ZerosAndPolesSISO.t :=
  {| ZerosAndPolesSISO.k := g;
     ZerosAndPolesSISO.n1 := [1%float];
     ZerosAndPolesSISO.n2 := [];
     ZerosAndPolesSISO.d1 := [2%float];
     ZerosAndPolesSISO.d2 := [];
     ZerosAndPolesSISO.z := [C64 (-1) 0];
     ZerosAndPolesSISO.p := [C64 (-2) 0] |}.

Definition sample_matrix : ZerosAndPoles.t :=
  {| ZerosAndPoles.zpk :=
       [[gain_cell 1; gain_cell 2; gain_cell 3];
        [gain_cell 4; gain_cell 5; gain_cell 6]];
     ZerosAndPoles.nu := 3;
     ZerosAndPoles.ny := 2 |}.

(** The entity [__init__] builds from [(3.1, [1.0], [0.0])]: one zero at
    1 and one pole at the origin. *)
Definition pole_at_origin : ZerosAndPolesSISO.t :=
  {| ZerosAndPolesSISO.k := sample_gain;
     ZerosAndPolesSISO.n1 := [(-1)%float];
     ZerosAndPolesSISO.n2 := [];
     ZerosAndPolesSISO.d1 := [(-0)%float];
     ZerosAndPolesSISO.d2 := [];
     ZerosAndPolesSISO.z := [C64 1 0];
     ZerosAndPolesSISO.p := [C64 0 0] |}.

(** A complex number both of whose components compare equal to zero. *)
Definition is_zero {F} {arith : PyFloat F} (c : complex F) : bool :=
  feq (real c) fzero && feq (imag c) fzero.

(** A binary64 value, as [Prim2SF] describes it, that is a zero, a NaN
    or has a clear sign bit. *)
Definition sf_nonneg (x : spec_float) : bool :=
  match x with
  | S754_zero _ | S754_nan => true
  | S754_infinity s | S754_finite s _ _ => negb s
  end.

(** The entity [__init__] builds from [(1.0, [], [2.0])]: one pole at 2. *)
Definition pole_at_two : ZerosAndPolesSISO.t :=
  {| ZerosAndPolesSISO.k := 1%float;
     ZerosAndPolesSISO.n1 := [];
     ZerosAndPolesSISO.n2 := [];
     ZerosAndPolesSISO.d1 := [(-2)%float];
     ZerosAndPolesSISO.d2 := [];
     ZerosAndPolesSISO.z := [];
     ZerosAndPolesSISO.p := [C64 2 0] |}.

(** The literal [1e200], and the entity [__init__] builds from
    [(1.0, [], [1e200, 1e200, 1.0, 1.0])], whose denominator overflows
    at [s = 0]. *)
Definition huge : float := 0x1.4e718d7d7625ap+664%float.

Definition huge_poles : ZerosAndPolesSISO.t :=
  {| ZerosAndPolesSISO.k := 1%float;
     ZerosAndPolesSISO.n1 := [];
     ZerosAndPolesSISO.n2 := [];
     ZerosAndPolesSISO.d1 := [- huge; - huge; -1; -1]%float;
     ZerosAndPolesSISO.d2 := [];
     ZerosAndPolesSISO.z := [];
     ZerosAndPolesSISO.p := [C64 huge 0; C64 huge 0; C64 1 0; C64 1 0] |}.

Section UnionRange.
Context {F : Type} {arith : PyFloat F} {ext : Collaborators F}.


End UnionRange.

(** Stand-ins for the external collaborators, to run the frequency
    response on an example: the range is the supplied one or, from the
    first pole [p], [(|p|/2, |p|*8)]; the frequency points are the two
    ends of the range; [from_Hz] multiplies by [2*pi]. *)
Definition sample_collaborators : Collaborators float := {|
  Misc_frequencyRange := fun z p f_range =>
    match f_range, p with
    | Some r, _ => Ok r
    | None, c :: _ => Ok (c_abs c / 2, c_abs c * 8)%float
    | None, [] => Ok (1, 10)%float
    end;
  Misc_from_Hz := map (fun f => 0x1.921fb54442d18p+2 * f)%float;
  numpy_logspace := fun lo hi n => Ok [lo; hi];
  numpy_linspace := fun lo hi n => Ok [lo; hi];
  math_log10 := fun x => Ok x
|}.

(* ===================================================================== *)
(** ** Construction of the MIMO matrix *)
(* ===================================================================== *)

(** [l[i] = x] on a Python list, for an index [0 <= i < len(l)]. *)
Fixpoint set_item {A : Type} (l : list A) (i : nat) (x : A) : list A :=
  match l, i with
  | [], _ => []
  | _ :: l', O => x :: l'
  | a :: l', S i' => a :: set_item l' i' x
  end.

(** [l[j]] on a list or on a tuple; the two differ in the text of the
    exception. *)
Definition sequence_item {F A : Type} (is_list : bool) (l : list A) (j : Z)
  : result F A :=
  if is_list then subscript l j
  else match subscript (F:=F) l j with
       | Ok a => Ok a
       | Raise _ => Raise (IndexError "tuple index out of range")
       end.

(** What [ZerosAndPolesSISO(x)] does on an argument [x] that is not a
    tuple [(k, z, p)]: a tuple [(k, n1, n2, d1, d2)] of the factor form,
    whose roots [numpy.polynomial.polynomial.polyroots] computes, or an
    argument the constructor refuses.  The constructor of the matrix
    passes such a cell on and keeps what it gets. *)
Class OtherArguments (F X : Type) : Type := {
  ZerosAndPolesSISO_other : X -> result F (ZerosAndPolesSISO.t (F:=F))
}.

Module ZerosAndPolesConstructor.
Section WithFloat.
Context {F : Type} {arith : PyFloat F}.
Context {X : Type} {other : OtherArguments F X}.
Local Open Scope py_scope.

(** A cell of the argument: an object of the class [ZerosAndPolesSISO],
    a tuple [(k, z, p)], or any other argument of the SISO
    constructor. *)
Inductive cell : Type :=
| Entity (e : ZerosAndPolesSISO.t (F:=F))
| Tuple3 (zpk : F * ZerosAndPolesSISO.array_like (F:=F)
                * ZerosAndPolesSISO.array_like (F:=F))
| OtherCell (x : X).

(** A row of the argument: a list, which item assignment updates, or a
    tuple, which refuses it.  Rows are held by value; two rows that are
    one list object end with the same cells either way, since a cell
    already promoted is left alone. *)
Inductive row : Type :=
| ListRow (cells : list cell)
| TupleRow (cells : list cell).

Definition cells_of (r : row) : list cell :=
  match r with
  | ListRow cells | TupleRow cells => cells
  end.

Definition is_list_row (r : row) : bool :=
  match r with
  | ListRow _ => true
  | TupleRow _ => false
  end.

Definition row_of (is_list : bool) (cells : list cell) : row :=
  if is_list then ListRow cells else TupleRow cells.

(** The argument [zpk]: an object of the class [ZerosAndPolesSISO], a
    list ([is_list = true]) or a tuple of rows, each row a list or a
    tuple, or anything that is neither a list nor a tuple. *)
Inductive argument : Type :=
| OneEntity (e : ZerosAndPolesSISO.t (F:=F))
| Rows (is_list : bool) (rows : list row)
| Other.

(** The attributes [__init__] sets; [zpk] holds the rows of
    [self.zpk]. *)
Record attributes : Type := {
  zpk : list row;
  nu : Z;
  ny : Z
}.

(** [r[j]] on a row. *)
Definition row_item (r : row) (j : Z) : result F cell :=
  sequence_item (is_list_row r) (cells_of r) j.

(** The body of the two loops:
    [if not isinstance(self.zpk[i][j], ZerosAndPolesSISO):
         self.zpk[i][j] = ZerosAndPolesSISO(self.zpk[i][j])].
    The object is constructed before the item assignment is tried. *)
Definition promote_at (is_list : bool) (rows : list row) (i j : Z)
  : result F (list row) :=
  r <- sequence_item is_list rows i ;;
  c <- row_item r j ;;
  match c with
  | Entity _ => Ok rows
  | Tuple3 t =>
      e <- ZerosAndPolesSISO.__init__ t ;;
      match r with
      | ListRow cells =>
          Ok (set_item rows (Z.to_nat i)
                (ListRow (set_item cells (Z.to_nat j) (Entity e))))
      | TupleRow _ =>
          Raise (TypeError "'tuple' object does not support item assignment")
      end
  | OtherCell x =>
      e <- ZerosAndPolesSISO_other x ;;
      match r with
      | ListRow cells =>
          Ok (set_item rows (Z.to_nat i)
                (ListRow (set_item cells (Z.to_nat j) (Entity e))))
      | TupleRow _ =>
          Raise (TypeError "'tuple' object does not support item assignment")
      end
  end.

Definition __init__ (zpk : argument) : result F attributes :=
  match zpk with
  | OneEntity e => Ok {| zpk := [ListRow [Entity e]]; nu := 1; ny := 1 |}
  | Other => Raise (ValueError "Argument zpk must be a list or a tuple" None)
  | Rows is_list rows =>
      first <- sequence_item is_list rows 0 ;;
      let nu := Z.of_nat (length (cells_of first)) in
      let ny := Z.of_nat (length rows) in
      rows' <- for_each (range ny)
                 (fun rows i =>
                    for_each (range nu)
                      (fun rows j => promote_at is_list rows i j) rows)
                 rows ;;
      Ok {| zpk := rows'; nu := nu; ny := ny |}
  end.

(** The matrix the other methods work on, once every cell is an object
    of the class. *)
Definition entity_of (c : cell) : option (ZerosAndPolesSISO.t (F:=F)) :=
  match c with
  | Entity e => Some e
  | Tuple3 _ | OtherCell _ => None
  end.

Fixpoint all_some {A : Type} (l : list (option A)) : option (list A) :=
  match l with
  | [] => Some []
  | None :: _ => None
  | Some a :: l' =>
      match all_some l' with
      | Some r => Some (a :: r)
      | None => None
      end
  end.

Definition matrix_of (a : attributes) : option (ZerosAndPoles.t (F:=F)) :=
  match all_some (map (fun r => all_some (map entity_of (cells_of r))) (zpk a)) with
  | Some cells =>
      Some {| ZerosAndPoles.zpk := cells;
              ZerosAndPoles.nu := nu a;
              ZerosAndPoles.ny := ny a |}
  | None => None
  end.

(** *** The loops, row by row *)

(** What the two loops do to one cell and to the first [n] cells of one
    row. *)
Definition promote_cell (is_list : bool) (c : cell) : result F cell :=
  match c with
  | Entity _ => Ok c
  | Tuple3 t =>
      e <- ZerosAndPolesSISO.__init__ t ;;
      if is_list then Ok (Entity e)
      else Raise (TypeError "'tuple' object does not support item assignment")
  | OtherCell x =>
      e <- ZerosAndPolesSISO_other x ;;
      if is_list then Ok (Entity e)
      else Raise (TypeError "'tuple' object does not support item assignment")
  end.

Fixpoint promote_cells (is_list : bool) (n : nat) (cells : list cell)
  : result F (list cell) :=
  match n with
  | O => Ok cells
  | S n' =>
      match cells with
      | [] => Raise (IndexError (if is_list then "list index out of range"
                                 else "tuple index out of range"))
      | c :: cells' =>
          c' <- promote_cell is_list c ;;
          rest <- promote_cells is_list n' cells' ;;
          Ok (c' :: rest)
      end
  end.

Definition promote_row (n : nat) (r : row) : result F row :=
  cells' <- promote_cells (is_list_row r) n (cells_of r) ;;
  Ok (row_of (is_list_row r) cells').

(** A cell and the object the loops leave in its place: the cell
    itself, or what the SISO constructor builds from it. *)
Definition promotes (c : cell) (e : ZerosAndPolesSISO.t (F:=F)) : Prop :=
  match c with
  | Entity e' => e' = e
  | Tuple3 t => ZerosAndPolesSISO.__init__ t = Ok e
  | OtherCell x => ZerosAndPolesSISO_other x = Ok e
  end.

(** A cell the loops pass in a row of the given kind: an object of the
    class, or an argument the SISO constructor accepts in a row that is
    a list. *)
Definition cell_accepted (is_list : bool) (c : cell) : Prop :=
  match c with
  | Entity _ => True
  | Tuple3 t => is_ok (ZerosAndPolesSISO.__init__ t) = true /\ is_list = true
  | OtherCell x => is_ok (ZerosAndPolesSISO_other x) = true /\ is_list = true
  end.

(** A row the loops pass when the first row has [n] cells: it has at
    least [n] cells and the first [n] of them are accepted. *)
Definition row_accepted (n : nat) (r : row) : Prop :=
  (n <= length (cells_of r))%nat /\
  Forall (cell_accepted (is_list_row r)) (firstn n (cells_of r)).

(** A row and what the loops leave of it: the same kind of sequence,
    the first [n] cells replaced by objects of the class, the other
    cells as they were. *)
Definition promoted_row (n : nat) (r r' : row) : Prop :=
  is_list_row r' = is_list_row r /\
  exists es,
    Forall2 promotes (firstn n (cells_of r)) es /\
    cells_of r' = map Entity es ++ skipn n (cells_of r).
End WithFloat.
End ZerosAndPolesConstructor.

(** A stand-in for the other arguments, to run the constructor on
    examples: the one other argument is a tuple of four elements, which
    the SISO constructor refuses. *)
Definition four_elements : OtherArguments float unit := {|
  ZerosAndPolesSISO_other := fun _ =>
    Raise (ValueError "Argument zpk must have 3 or 5 elements, but has 4 elements"
                      None)
|}.

(** A [(g, [-1], [-2])] tuple and a 2x3 argument of five such tuples
    and one object of the class. *)
Definition raw_cell (g : float) : ZerosAndPolesConstructor.cell (X:=unit) :=
  ZerosAndPolesConstructor.Tuple3
    (g, ZerosAndPolesSISO.Sequence [C64 (-1) 0],
     ZerosAndPolesSISO.Sequence [C64 (-2) 0]).

Definition sample_rows : list (ZerosAndPolesConstructor.row (X:=unit)) :=
  [ZerosAndPolesConstructor.ListRow [raw_cell 1; raw_cell 2; raw_cell 3];
   ZerosAndPolesConstructor.ListRow
     [ZerosAndPolesConstructor.Entity (gain_cell 4); raw_cell 5; raw_cell 6]].

Section FactoredForm.
Context {F : Type} {arith : PyFloat F}.

(** The transfer function of form (2) as the class documents it, at one
    point: [k * product(s + r1[i]) * product(s**2 + r2[i,1]*s + r2[i,0])],
    in complex arithmetic. *)
Definition factored_value (k : F) (r1 : list F) (r2 : list (F * F))
           (s : complex F) : complex F :=
  fold_left
    (fun acc ab =>
       c_prod acc (c_sum (c_sum (c_prod s s) (c_prod (of_real (snd ab)) s))
                         (of_real (fst ab))))
    r2
    (fold_left (fun acc a => c_prod acc (c_sum s (of_real a))) r1 (of_real k)).
End FactoredForm.

(** The entity [__init__] builds from [(4.0, [], [1j, -1j])]: the one
    second-order factor [s**2 + 1] in the denominator. *)
Definition quadratic_pole : ZerosAndPolesSISO.t :=
  {| ZerosAndPolesSISO.k := 4%float;
     ZerosAndPolesSISO.n1 := [];
     ZerosAndPolesSISO.n2 := [];
     ZerosAndPolesSISO.d1 := [];
     ZerosAndPolesSISO.d2 := [(1, -0)%float];
     ZerosAndPolesSISO.z := [];
     ZerosAndPolesSISO.p := [C64 0 1; C64 0 (-1)] |}.

(* ===================================================================== *)
(** * Properties *)
(* ===================================================================== *)

(** ** Consecutive pairs of a vector *)

Section Pairs.
Context {A : Type}.

Lemma pairs_cons2 (a b : A) (l : list A) :
  pairs (a :: b :: l) = (a, b) :: pairs l.
Proof.
  unfold pairs. destruct l as [|c l]; reflexivity.
Qed.

Lemma pairs_single (a : A) : pairs [a] = [].
Proof. reflexivity. Qed.

(** Induction two elements at a time. *)
Lemma list_ind2 (P : list A -> Prop) :
  P [] -> (forall a, P [a]) -> (forall a b l, P l -> P (a :: b :: l)) ->
  forall l, P l.
Proof.
  intros Hnil Hone Hstep.
  assert (Hboth : forall l, P l /\ forall a, P (a :: l)).
  { induction l as [|b l [IHl IHbl]]; split; auto. }
  intros l. apply Hboth.
Qed.

Lemma pairs_length (l : list A) : length (pairs l) = Nat.div2 (length l).
Proof.
  induction l as [| a | a b l IH] using list_ind2; try reflexivity.
  rewrite pairs_cons2. simpl. now rewrite IH.
Qed.

Lemma pairs_nth_error (l : list A) :
  forall j r1 r2,
    nth_error (pairs l) j = Some (r1, r2) <->
    nth_error l (2 * j) = Some r1 /\ nth_error l (2 * j + 1) = Some r2.
Proof.
  induction l as [| a | a b l IH] using list_ind2; intros j r1 r2.
  - destruct j; simpl; (split; [discriminate | intros [? _]; discriminate]).
  - rewrite pairs_single.
    destruct j as [|j]; simpl.
    + split; [discriminate | intros [_ ?]; discriminate].
    + split; [discriminate |].
      replace (j + S (j + 0)) with (S (2 * j)) by lia.
      simpl. destruct (2 * j); intros [? _]; discriminate.
  - rewrite pairs_cons2. destruct j as [|j].
    + simpl. split.
      * intros E. injection E as -> ->. auto.
      * intros [E1 E2]. injection E1 as ->. injection E2 as ->. reflexivity.
    + replace (2 * S j) with (S (S (2 * j))) by lia.
      replace (S (S (2 * j)) + 1) with (S (S (2 * j + 1))) by lia.
      simpl nth_error. apply IH.
Qed.
End Pairs.

(** ** The conversion routine *)

Section TransformRootsProperties.
Context {F : Type} {arith : PyFloat F}.

Lemma even_length_mod2 (n : nat) : (n mod 2 =? 0)%nat = Nat.even n.
Proof.
  rewrite <- Nat.negb_odd, <- Nat.bit0_mod.
  unfold Nat.testbit. destruct (Nat.odd n); reflexivity.
Qed.

(** The routine in terms of the pairs of its argument. *)
Lemma transformRootsToPoly2_unfold (roots : list (complex F)) :
  transformRootsToPoly2 roots =
  if Nat.odd (length roots)
  then Raise (ValueError "Number of roots must be even." None)
  else if forallb (fun '(a, b) => isConj a b) (pairs roots)
       then Ok (map (fun '(a, b) => poly2_row a b) (pairs roots))
       else Raise (ValueError
                     ("Vector of roots are not all conjugate complex numbers:"
                        ++ newline ++ "roots = ")%string
                     (Some roots)).
Proof.
  unfold transformRootsToPoly2, pairs.
  rewrite even_length_mod2, Nat.negb_even.
  destruct (Nat.odd (length roots)); [reflexivity |].
  destruct (forallb _ _); reflexivity.
Qed.

Lemma all_pairs_valid (roots : list (complex F)) :
  forallb (fun '(a, b) => isConj a b) (pairs roots) = true <->
  conjugate_valid roots.
Proof.
  rewrite forallb_forall. unfold conjugate_valid. split.
  - intros Hall j r1 r2 E1 E2.
    apply (Hall (r1, r2)).
    apply nth_error_In with (n := j).
    apply pairs_nth_error. auto.
  - intros Hvalid [r1 r2] Hin.
    apply In_nth_error in Hin as [j Hj].
    apply pairs_nth_error in Hj as [E1 E2]. eauto.
Qed.

Lemma some_pair_invalid (roots : list (complex F)) :
  forallb (fun '(a, b) => isConj a b) (pairs roots) = false <->
  exists j r1 r2,
    nth_error roots (2 * j) = Some r1 /\
    nth_error roots (2 * j + 1) = Some r2 /\
    isConj r1 r2 = false.
Proof.
  split.
  - intros Hfalse.
    destruct (existsb (fun '(a, b) => negb (isConj a b)) (pairs roots)) eqn:Hex.
    + apply existsb_exists in Hex as [[r1 r2] [Hin Hbad]].
      apply In_nth_error in Hin as [j Hj].
      apply pairs_nth_error in Hj as [E1 E2].
      exists j, r1, r2. repeat split; auto.
      now apply negb_true_iff.
    + exfalso.
      assert (Hall : forallb (fun '(a, b) => isConj a b) (pairs roots) = true).
      { apply forallb_forall. intros [r1 r2] Hin.
        destruct (isConj r1 r2) eqn:E; [reflexivity |].
        assert (Hsome : existsb (fun '(a, b) => negb (isConj a b)) (pairs roots) = true).
        { apply existsb_exists. exists (r1, r2). split; [assumption |].
          now rewrite E. }
        congruence. }
      congruence.
  - intros (j & r1 & r2 & E1 & E2 & Hbad).
    destruct (forallb _ _) eqn:Hall; [| reflexivity].
    apply all_pairs_valid in Hall.
    rewrite (Hall j r1 r2 E1 E2) in Hbad. discriminate.
Qed.
End TransformRootsProperties.

Section TransformRootsResults.
Context {F : Type} {arith : PyFloat F}.

Lemma transformRootsToPoly2_ok (roots : list (complex F)) :
  Nat.even (length roots) = true ->
  conjugate_valid roots ->
  transformRootsToPoly2 roots = Ok (map (fun '(a, b) => poly2_row a b) (pairs roots)).
Proof.
  intros Heven Hvalid.
  rewrite transformRootsToPoly2_unfold.
  rewrite <- Nat.negb_even, Heven. simpl.
  apply all_pairs_valid in Hvalid. now rewrite Hvalid.
Qed.

Lemma poly2_rows_nth_error (roots : list (complex F)) j r1 r2 :
  nth_error roots (2 * j) = Some r1 ->
  nth_error roots (2 * j + 1) = Some r2 ->
  nth_error (map (fun '(a, b) => poly2_row a b) (pairs roots)) j
  = Some (poly2_row r1 r2).
Proof.
  intros E1 E2.
  rewrite nth_error_map.
  assert (E : nth_error (pairs roots) j = Some (r1, r2))
    by (apply pairs_nth_error; auto).
  now rewrite E.
Qed.

(** Every way the routine returns or raises. *)
Lemma transformRootsToPoly2_cases (roots : list (complex F)) :
  (Nat.odd (length roots) = true /\
   transformRootsToPoly2 roots
   = Raise (ValueError "Number of roots must be even." None)) \/
  (Nat.odd (length roots) = false /\
   forallb (fun '(a, b) => isConj a b) (pairs roots) = false /\
   transformRootsToPoly2 roots
   = Raise (ValueError
              ("Vector of roots are not all conjugate complex numbers:"
                 ++ newline ++ "roots = ")%string
              (Some roots))) \/
  (Nat.odd (length roots) = false /\
   forallb (fun '(a, b) => isConj a b) (pairs roots) = true /\
   transformRootsToPoly2 roots
   = Ok (map (fun '(a, b) => poly2_row a b) (pairs roots))).
Proof.
  rewrite transformRootsToPoly2_unfold.
  destruct (Nat.odd (length roots)); [left; auto |].
  destruct (forallb _ _); [right; right | right; left]; auto.
Qed.
End TransformRootsResults.

(** C4.  For an even-length vector of complex roots that passes the
    conjugate-validity test, [transformRootsToPoly2] returns a coefficient
    array of [n/2] rows of two reals whose row [j] is [(a, b)] with
    [a = Re(roots[2j] * roots[2j+1])] and
    [b = Re(-(roots[2j] + roots[2j+1]))]; on
    [[1+2j, 1-2j, 4-3j, 4+3j]] the rows are [(5, -2)] and [(25, -8)]. *)
Theorem transformRootsToPoly2_rows :
  (forall (F : Type) (arith : PyFloat F) (roots : list (complex F)),
      Nat.even (length roots) = true ->
      conjugate_valid roots ->
      exists c,
        transformRootsToPoly2 roots = Ok c /\
        length c = (length roots / 2)%nat /\
        forall j r1 r2,
          nth_error roots (2 * j) = Some r1 ->
          nth_error roots (2 * j + 1) = Some r2 ->
          nth_error c j
          = Some (real (c_prod r1 r2), real (c_neg (c_sum r1 r2)))) /\
  transformRootsToPoly2 [C64 1 2; C64 1 (-2); C64 4 (-3); C64 4 3]
  = Ok [(5, -2); (25, -8)]%float.
Proof.
  split.
  - intros F arith roots Heven Hvalid.
    exists (map (fun '(a, b) => poly2_row a b) (pairs roots)).
    split; [now apply transformRootsToPoly2_ok |].
    split.
    + rewrite length_map, pairs_length. apply Nat.div2_div.
    + intros j r1 r2 E1 E2.
      now rewrite (poly2_rows_nth_error roots j E1 E2).
  - vm_compute. reflexivity.
Qed.

Lemma transformRootsToPoly2_rows_witness :
  let roots := [C64 3 4; C64 3 (-4)] in
  Nat.even (length roots) = true /\
  conjugate_valid roots /\
  exists c,
    transformRootsToPoly2 roots = Ok c /\
    length c = 1%nat /\
    nth_error c 0 = Some (25, -6)%float.
Proof.
  assert (Heven : Nat.even (length [C64 3 4; C64 3 (-4)]) = true) by reflexivity.
  assert (Hvalid : conjugate_valid [C64 3 4; C64 3 (-4)]).
  { apply all_pairs_valid. vm_compute. reflexivity. }
  split; [exact Heven |]. split; [exact Hvalid |].
  destruct (proj1 transformRootsToPoly2_rows float Float64 _ Heven Hvalid)
    as (c & Hc & Hlen & Hrows).
  exists c. split; [exact Hc |]. split; [exact Hlen |].
  rewrite (Hrows 0%nat (C64 3 4) (C64 3 (-4)) eq_refl eq_refl).
  vm_compute. reflexivity.
Defined.

(** C5.  [transformRootsToPoly2] fails, with an error of the class
    InvalidArgument, exactly when the length of its argument is odd or
    some consecutive pair [(roots[2j], roots[2j+1])] violates
    [|conj(r1) - r2| < eps * max(1, |r1.real|)], [eps] being 100 times the
    machine epsilon; when the length is even and a pair violates the test,
    the error carries the whole root vector.  [[1+2j, 1-3j]] and every
    vector of three roots fail with InvalidArgument. *)
Theorem transformRootsToPoly2_failure :
  (forall (F : Type) (arith : PyFloat F) (roots : list (complex F)),
      (exists e, transformRootsToPoly2 roots = Raise e /\
                 failure_of e = Some InvalidArgument) <->
      (Nat.odd (length roots) = true \/
       exists j r1 r2,
         nth_error roots (2 * j) = Some r1 /\
         nth_error roots (2 * j + 1) = Some r2 /\
         flt (c_abs (c_diff (conj r1) r2))
             (fmul (fmul f100 fepsilon) (npy_maximum fone (fabs (real r1))))
         = false)) /\
  (forall (F : Type) (arith : PyFloat F) (roots : list (complex F)) e,
      transformRootsToPoly2 roots = Raise e ->
      failure_of e = Some InvalidArgument) /\
  (forall (F : Type) (arith : PyFloat F) (roots : list (complex F)),
      Nat.even (length roots) = true ->
      (exists j r1 r2,
         nth_error roots (2 * j) = Some r1 /\
         nth_error roots (2 * j + 1) = Some r2 /\
         isConj r1 r2 = false) ->
      exists text, transformRootsToPoly2 roots = Raise (ValueError text (Some roots))) /\
  PrimFloat.eqb (fmul f100 fepsilon) (100 * 0x1p-52)%float = true /\
  (exists e, transformRootsToPoly2 [C64 1 2; C64 1 (-3)] = Raise e /\
             failure_of e = Some InvalidArgument) /\
  (forall (F : Type) (arith : PyFloat F) (a b c : complex F),
      exists e, transformRootsToPoly2 [a; b; c] = Raise e /\
                failure_of e = Some InvalidArgument).
Proof.
  split; [| split; [| split; [| split; [| split]]]].
  - intros F arith roots.
    split.
    + intros (e & He & _).
      destruct (transformRootsToPoly2_cases roots)
        as [[Hodd _] | [(Hodd & Hbad & _) | (_ & _ & Hok)]].
      * now left.
      * right. now apply some_pair_invalid.
      * congruence.
    + intros Hcause.
      destruct (transformRootsToPoly2_cases roots)
        as [[Hodd Hr] | [(Hodd & Hbad & Hr) | (Hodd & Hgood & _)]].
      * eexists. split; [exact Hr | reflexivity].
      * eexists. split; [exact Hr | reflexivity].
      * destruct Hcause as [Hodd' | Hpair]; [congruence |].
        apply some_pair_invalid in Hpair. congruence.
  - intros F arith roots e He.
    destruct (transformRootsToPoly2_cases roots)
      as [[_ Hr] | [(_ & _ & Hr) | (_ & _ & Hr)]];
      rewrite Hr in He; try discriminate; injection He as <-; reflexivity.
  - intros F arith roots Heven Hpair.
    apply some_pair_invalid in Hpair.
    destruct (transformRootsToPoly2_cases roots)
      as [[Hodd _] | [(_ & _ & Hr) | (_ & Hgood & _)]].
    + rewrite <- Nat.negb_even, Heven in Hodd. discriminate.
    + eexists. exact Hr.
    + congruence.
  - vm_compute. reflexivity.
  - eexists. split; [vm_compute; reflexivity | reflexivity].
  - intros F arith a b c. eexists. split; reflexivity.
Qed.

Lemma transformRootsToPoly2_failure_witness :
  let roots := [C64 1 2; C64 1 (-3)] in
  Nat.even (length roots) = true /\
  isConj (C64 1 2) (C64 1 (-3)) = false /\
  exists text, transformRootsToPoly2 roots = Raise (ValueError text (Some roots)).
Proof.
  split; [reflexivity |]. split; [vm_compute; reflexivity |].
  apply (proj1 (proj2 (proj2 transformRootsToPoly2_failure)) float Float64).
  - reflexivity.
  - exists 0%nat, (C64 1 2), (C64 1 (-3)).
    repeat split.
Defined.

(** ** Construction from root form *)

Section RootFormConstruction.
Context {F : Type} {arith : PyFloat F}.

(** The one-pass partition yields the two filtered subsequences the
    constructor computes with boolean masks. *)
Lemma partition_roots_filters (roots : list (complex F)) :
  partition_roots roots
  = (map (fun c => fopp (real c)) (purely_real roots), strictly_complex roots).
Proof.
  unfold purely_real, strictly_complex.
  induction roots as [|c rest IH]; [reflexivity |].
  simpl. rewrite IH. unfold fne.
  destruct (feq (imag c) fzero); reflexivity.
Qed.

Lemma init_unfold (k0 : F) (z0 p0 : ZerosAndPolesSISO.array_like) :
  ZerosAndPolesSISO.__init__ (k0, z0, p0) =
  bind (transformRootsToPoly2
          (snd (partition_roots (ZerosAndPolesSISO.ndmin1 z0))))
    (fun n2 =>
       bind (transformRootsToPoly2
               (snd (partition_roots (ZerosAndPolesSISO.ndmin1 p0))))
         (fun d2 =>
            Ok {| ZerosAndPolesSISO.k := k0;
                  ZerosAndPolesSISO.n1 :=
                    fst (partition_roots (ZerosAndPolesSISO.ndmin1 z0));
                  ZerosAndPolesSISO.n2 := n2;
                  ZerosAndPolesSISO.d1 :=
                    fst (partition_roots (ZerosAndPolesSISO.ndmin1 p0));
                  ZerosAndPolesSISO.d2 := d2;
                  ZerosAndPolesSISO.z := ZerosAndPolesSISO.ndmin1 z0;
                  ZerosAndPolesSISO.p := ZerosAndPolesSISO.ndmin1 p0 |})).
Proof.
  rewrite !partition_roots_filters. reflexivity.
Qed.

(** A successful construction, taken apart. *)
Lemma init_ok_inv (k0 : F) (z0 p0 : ZerosAndPolesSISO.array_like) self :
  ZerosAndPolesSISO.__init__ (k0, z0, p0) = Ok self ->
  transformRootsToPoly2 (strictly_complex (ZerosAndPolesSISO.ndmin1 z0))
  = Ok (ZerosAndPolesSISO.n2 self) /\
  transformRootsToPoly2 (strictly_complex (ZerosAndPolesSISO.ndmin1 p0))
  = Ok (ZerosAndPolesSISO.d2 self) /\
  ZerosAndPolesSISO.k self = k0 /\
  ZerosAndPolesSISO.n1 self
  = map (fun c => fopp (real c)) (purely_real (ZerosAndPolesSISO.ndmin1 z0)) /\
  ZerosAndPolesSISO.d1 self
  = map (fun c => fopp (real c)) (purely_real (ZerosAndPolesSISO.ndmin1 p0)) /\
  ZerosAndPolesSISO.z self = ZerosAndPolesSISO.ndmin1 z0 /\
  ZerosAndPolesSISO.p self = ZerosAndPolesSISO.ndmin1 p0.
Proof.
  unfold ZerosAndPolesSISO.__init__, strictly_complex, purely_real.
  destruct (transformRootsToPoly2 (filter _ (ZerosAndPolesSISO.ndmin1 z0)))
    as [n2|e]; simpl; [| discriminate].
  destruct (transformRootsToPoly2 (filter _ (ZerosAndPolesSISO.ndmin1 p0)))
    as [d2|e]; simpl; [| discriminate].
  intros E. injection E as <-. simpl. repeat split.
Qed.

(** The rows of a successful conversion, whatever made it succeed. *)
Lemma transformRootsToPoly2_ok_rows (roots : list (complex F)) c j r1 r2 :
  transformRootsToPoly2 roots = Ok c ->
  nth_error roots (2 * j) = Some r1 ->
  nth_error roots (2 * j + 1) = Some r2 ->
  nth_error c j = Some (poly2_row r1 r2).
Proof.
  intros Hc E1 E2.
  destruct (transformRootsToPoly2_cases roots)
    as [[_ Hr] | [(_ & _ & Hr) | (_ & _ & Hr)]];
    rewrite Hr in Hc; try discriminate.
  injection Hc as <-. now apply poly2_rows_nth_error.
Qed.
End RootFormConstruction.

(** C6.  Construction from root form [(k, z, p)] stores [z] and [p] as
    complex vectors, a single number promoted to a vector of length one;
    every entry with imaginary part exactly zero is negated and appended,
    in input order, to [n1] (zeros) or [d1] (poles); the subsequence of
    the entries with nonzero imaginary part, in input order, goes through
    the root-to-polynomial conversion to give [n2] and [d2], entries 0 and
    1, 2 and 3, ... of that subsequence making the rows. *)
Theorem root_form_construction :
  forall (F : Type) (arith : PyFloat F) (k0 : F)
         (z0 p0 : ZerosAndPolesSISO.array_like),
    let zs := ZerosAndPolesSISO.ndmin1 z0 in
    let ps := ZerosAndPolesSISO.ndmin1 p0 in
    (forall c : complex F,
        ZerosAndPolesSISO.ndmin1 (ZerosAndPolesSISO.Single c) = [c]) /\
    (forall l : list (complex F),
        ZerosAndPolesSISO.ndmin1 (ZerosAndPolesSISO.Sequence l) = l) /\
    partition_roots zs
    = (map (fun c => fopp (real c)) (filter (fun c => feq (imag c) fzero) zs),
       filter (fun c => negb (feq (imag c) fzero)) zs) /\
    ZerosAndPolesSISO.__init__ (k0, z0, p0) =
    bind (transformRootsToPoly2 (snd (partition_roots zs)))
      (fun n2 =>
         bind (transformRootsToPoly2 (snd (partition_roots ps)))
           (fun d2 =>
              Ok {| ZerosAndPolesSISO.k := k0;
                    ZerosAndPolesSISO.n1 := fst (partition_roots zs);
                    ZerosAndPolesSISO.n2 := n2;
                    ZerosAndPolesSISO.d1 := fst (partition_roots ps);
                    ZerosAndPolesSISO.d2 := d2;
                    ZerosAndPolesSISO.z := zs;
                    ZerosAndPolesSISO.p := ps |})) /\
    (forall self,
        ZerosAndPolesSISO.__init__ (k0, z0, p0) = Ok self ->
        (forall j r1 r2,
            nth_error (snd (partition_roots zs)) (2 * j) = Some r1 ->
            nth_error (snd (partition_roots zs)) (2 * j + 1) = Some r2 ->
            nth_error (ZerosAndPolesSISO.n2 self) j
            = Some (real (c_prod r1 r2), real (c_neg (c_sum r1 r2)))) /\
        (forall j r1 r2,
            nth_error (snd (partition_roots ps)) (2 * j) = Some r1 ->
            nth_error (snd (partition_roots ps)) (2 * j + 1) = Some r2 ->
            nth_error (ZerosAndPolesSISO.d2 self) j
            = Some (real (c_prod r1 r2), real (c_neg (c_sum r1 r2))))).
Proof.
  intros F arith k0 z0 p0 zs ps.
  split; [reflexivity |]. split; [reflexivity |].
  split; [apply partition_roots_filters |].
  split; [apply init_unfold |].
  intros self Hself.
  apply init_ok_inv in Hself as (Hn2 & Hd2 & _).
  subst zs ps. rewrite !partition_roots_filters. simpl.
  split; intros j r1 r2 E1 E2.
  - exact (transformRootsToPoly2_ok_rows _ j Hn2 E1 E2).
  - exact (transformRootsToPoly2_ok_rows _ j Hd2 E1 E2).
Qed.

Lemma root_form_construction_witness :
  exists self,
    ZerosAndPolesSISO.__init__
      (sample_gain, ZerosAndPolesSISO.Sequence sample_zeros,
       ZerosAndPolesSISO.Sequence sample_poles) = Ok self /\
    ZerosAndPolesSISO.n1 self = [(-4)%float] /\
    ZerosAndPolesSISO.d1 self = [-5; -6; -7]%float /\
    nth_error (ZerosAndPolesSISO.n2 self) 0 = Some (13, -4)%float /\
    nth_error (ZerosAndPolesSISO.d2 self) 1 = Some (25, -8)%float.
Proof.
  destruct (ZerosAndPolesSISO.__init__
              (sample_gain, ZerosAndPolesSISO.Sequence sample_zeros,
               ZerosAndPolesSISO.Sequence sample_poles)) as [self|e] eqn:Hinit;
    [| vm_compute in Hinit; discriminate].
  exists self. split; [reflexivity |].
  pose proof (root_form_construction Float64 sample_gain
                (ZerosAndPolesSISO.Sequence sample_zeros)
                (ZerosAndPolesSISO.Sequence sample_poles)) as Hthm.
  cbv zeta in Hthm.
  destruct Hthm as (_ & _ & _ & _ & Hrows).
  destruct (Hrows self Hinit) as [Hz Hp].
  rewrite (Hz 0%nat (C64 2 (-3)) (C64 2 3) eq_refl eq_refl).
  rewrite (Hp 1%nat (C64 4 (-3)) (C64 4 3) eq_refl eq_refl).
  vm_compute in Hinit. injection Hinit as <-.
  repeat split.
Defined.

(** ** Gain mutation *)

(** C9.  [set_k] overwrites the gain [k] and nothing else: [n1], [n2],
    [d1], [d2], [z] and [p] are the ones the entity had. *)
Theorem set_k_frame :
  forall (F : Type) (arith : PyFloat F) (self : ZerosAndPolesSISO.t) (k_new : F),
    let self' := ZerosAndPolesSISO.set_k self k_new in
    ZerosAndPolesSISO.k self' = k_new /\
    ZerosAndPolesSISO.n1 self' = ZerosAndPolesSISO.n1 self /\
    ZerosAndPolesSISO.n2 self' = ZerosAndPolesSISO.n2 self /\
    ZerosAndPolesSISO.d1 self' = ZerosAndPolesSISO.d1 self /\
    ZerosAndPolesSISO.d2 self' = ZerosAndPolesSISO.d2 self /\
    ZerosAndPolesSISO.z self' = ZerosAndPolesSISO.z self /\
    ZerosAndPolesSISO.p self' = ZerosAndPolesSISO.p self /\
    ZerosAndPolesSISO.poles self' = ZerosAndPolesSISO.poles self /\
    ZerosAndPolesSISO.zeros self' = ZerosAndPolesSISO.zeros self.
Proof.
  intros F arith self k_new self'. subst self'.
  destruct self. cbn. repeat split.
Qed.

(** ** The MIMO matrix: indexing *)

Section Subscripts.
Context {F : Type}.

Lemma subscript_in_range {A} (l : list A) (i : Z) :
  (0 <= i < Z.of_nat (length l))%Z ->
  exists a, nth_error l (Z.to_nat i) = Some a /\ subscript (F:=F) l i = Ok a.
Proof.
  intros Hi. unfold subscript.
  destruct (Z.ltb_spec i 0); [lia |].
  destruct (Z.ltb_spec i 0); [lia |].
  destruct (Z.leb_spec (Z.of_nat (length l)) i); [lia |]. simpl.
  destruct (nth_error l (Z.to_nat i)) as [a|] eqn:E.
  - exists a. auto.
  - apply nth_error_None in E. lia.
Qed.

Lemma range_length (n : Z) : length (range n) = Z.to_nat n.
Proof. unfold range. now rewrite length_map, length_seq. Qed.

Lemma range_In (n i : Z) : In i (range n) <-> (0 <= i < n)%Z.
Proof.
  unfold range. rewrite in_map_iff. split.
  - intros (a & <- & Ha). apply in_seq in Ha. lia.
  - intros Hi. exists (Z.to_nat i). split; [lia |]. apply in_seq. lia.
Qed.

Lemma range_nth_error (n : Z) (a : nat) :
  (a < Z.to_nat n)%nat -> nth_error (range n) a = Some (Z.of_nat a).
Proof.
  intros Ha. unfold range. rewrite nth_error_map.
  rewrite (nth_error_nth' _ 0%nat) by (now rewrite length_seq).
  now rewrite seq_nth.
Qed.

Lemma comprehension_ok {A B} (f : A -> result F B) (l : list A) (r : list B) :
  comprehension f l = Ok r <-> Forall2 (fun a b => f a = Ok b) l r.
Proof.
  revert r. induction l as [|a l IH]; intros r; simpl.
  - split.
    + intros E. injection E as <-. constructor.
    + intros E. inversion E. reflexivity.
  - destruct (f a) as [b|e] eqn:Ea; simpl.
    + destruct (comprehension f l) as [bs|e] eqn:El; simpl.
      * split.
        -- intros E. injection E as <-. constructor; [assumption |].
           now apply IH.
        -- intros E. inversion E as [|? b' ? bs' Hb Hbs]; subst.
           apply IH in Hbs. congruence.
      * split; [discriminate |].
        intros E. inversion E as [|? b' ? bs' Hb Hbs]; subst.
        apply IH in Hbs. discriminate.
    + split; [discriminate |].
      intros E. inversion E as [|? b' ? bs' Hb Hbs]; subst. congruence.
Qed.

Lemma comprehension_total {A B} (f : A -> result F B) (l : list A) :
  (forall a, In a l -> exists b, f a = Ok b) ->
  exists r, comprehension f l = Ok r.
Proof.
  induction l as [|a l IH]; intros Hall; simpl.
  - eexists. reflexivity.
  - destruct (Hall a (or_introl eq_refl)) as [b ->].
    destruct IH as [r ->]; [intros; apply Hall; now right |].
    simpl. eexists. reflexivity.
Qed.

Lemma Forall2_columns {A B C} (R : A -> B -> C -> Prop)
      (ui : list A) (yi : list B) (Y : list (list C)) :
  Forall2 (fun j column => Forall2 (R j) yi column) ui Y ->
  Forall (fun column => length column = length yi) Y.
Proof.
  induction 1 as [|j column ui' Y' Hcol _ IH]; constructor.
  - symmetry. eapply Forall2_length; eassumption.
  - exact IH.
Qed.
End Subscripts.

Section MatrixIndexing.
Context {F : Type}.

Lemma cell_in_range (self : ZerosAndPoles.t (F:=F)) (i j : Z) :
  ZerosAndPoles.well_formed self ->
  (0 <= i < ZerosAndPoles.ny self)%Z ->
  (0 <= j < ZerosAndPoles.nu self)%Z ->
  exists row c,
    nth_error (ZerosAndPoles.zpk self) (Z.to_nat i) = Some row /\
    nth_error row (Z.to_nat j) = Some c /\
    ZerosAndPoles.cell self i j = Ok c.
Proof.
  intros [Hny Hrows] Hi Hj. unfold ZerosAndPoles.cell.
  destruct (subscript_in_range (F:=F) (ZerosAndPoles.zpk self) (i:=i))
    as (row & Hrow & ->); [lia |].
  assert (Hlen : Z.of_nat (length row) = ZerosAndPoles.nu self).
  { rewrite Forall_forall in Hrows. apply Hrows.
    eapply nth_error_In; eassumption. }
  destruct (subscript_in_range (F:=F) row (i:=j)) as (c & Hc & Hsub); [lia |].
  exists row, c. simpl. auto.
Qed.
End MatrixIndexing.

Section GetItem.
Context {F : Type}.

(** [__getitem__] on a tuple of two integers. *)
Lemma getitem_pair (self : ZerosAndPoles.t (F:=F)) (row col : Z) :
  ZerosAndPoles.__getitem__ self [row; col] =
  if ((row <? 0) || (ZerosAndPoles.ny self <=? row))%Z
  then Raise (IndexError "Index is not in the allowed range")
  else if ((col <? 0) || (ZerosAndPoles.nu self <=? col))%Z
       then Raise (IndexError "Index is not in the allowed range")
       else ZerosAndPoles.cell self row col.
Proof. reflexivity. Qed.
End GetItem.

(** C2.  On a matrix of [ny] rows and [nu] columns, indexing with
    [(row, col)], [0 <= row < ny] and [0 <= col < nu], returns the entity
    stored in that cell; indexing with a tuple whose length is not 2 fails
    with InvalidArgument; indexing with a 2-tuple of which a component is
    outside its range fails with OutOfRange, as [(2, 0)] does on a 2x3
    matrix. *)
Theorem getitem_cases :
  (forall (F : Type) (self : ZerosAndPoles.t (F:=F)),
      ZerosAndPoles.well_formed self ->
      forall row col,
        (0 <= row < ZerosAndPoles.ny self)%Z ->
        (0 <= col < ZerosAndPoles.nu self)%Z ->
        exists cells c,
          nth_error (ZerosAndPoles.zpk self) (Z.to_nat row) = Some cells /\
          nth_error cells (Z.to_nat col) = Some c /\
          ZerosAndPoles.__getitem__ self [row; col] = Ok c) /\
  (forall (F : Type) (self : ZerosAndPoles.t (F:=F)) (key : list Z),
      length key <> 2%nat ->
      exists e, ZerosAndPoles.__getitem__ self key = Raise e /\
                failure_of e = Some InvalidArgument) /\
  (forall (F : Type) (self : ZerosAndPoles.t (F:=F)) (row col : Z),
      (row < 0 \/ ZerosAndPoles.ny self <= row \/
       col < 0 \/ ZerosAndPoles.nu self <= col)%Z ->
      exists e, ZerosAndPoles.__getitem__ self [row; col] = Raise e /\
                failure_of e = Some OutOfRange) /\
  (exists e, ZerosAndPoles.__getitem__ sample_matrix [2; 0]%Z = Raise e /\
             failure_of e = Some OutOfRange) /\
  ZerosAndPoles.__getitem__ sample_matrix [1; 2]%Z = Ok (gain_cell 6).
Proof.
  split; [| split; [| split; [| split]]].
  - intros F self Hwf row col Hrow Hcol.
    destruct (cell_in_range (i:=row) (j:=col) Hwf Hrow Hcol)
      as (cells & c & Hcells & Hc & Hcell).
    exists cells, c. split; [assumption |]. split; [assumption |].
    rewrite getitem_pair.
    destruct (Z.ltb_spec row 0); [lia |].
    destruct (Z.leb_spec (ZerosAndPoles.ny self) row); [lia |]. simpl.
    destruct (Z.ltb_spec col 0); [lia |].
    destruct (Z.leb_spec (ZerosAndPoles.nu self) col); [lia |]. simpl.
    exact Hcell.
  - intros F self key Hlen. unfold ZerosAndPoles.__getitem__.
    destruct (Nat.eqb_spec (length key) 2); [contradiction |]. simpl.
    eexists. split; reflexivity.
  - intros F self row col Hout. rewrite getitem_pair.
    destruct (Z.ltb_spec row 0); simpl; [eexists; split; reflexivity |].
    destruct (Z.leb_spec (ZerosAndPoles.ny self) row); simpl;
      [eexists; split; reflexivity |].
    destruct (Z.ltb_spec col 0); simpl; [eexists; split; reflexivity |].
    destruct (Z.leb_spec (ZerosAndPoles.nu self) col); simpl;
      [eexists; split; reflexivity | lia].
  - eexists. split; reflexivity.
  - reflexivity.
Qed.

Lemma gain_cell_init (g : float) :
  ZerosAndPolesSISO.__init__
    (g, ZerosAndPolesSISO.Sequence [C64 (-1) 0],
     ZerosAndPolesSISO.Sequence [C64 (-2) 0])
  = Ok (gain_cell g).
Proof. reflexivity. Qed.

Lemma sample_matrix_well_formed : ZerosAndPoles.well_formed sample_matrix.
Proof.
  split; [reflexivity |]. repeat constructor.
Qed.

Lemma getitem_cases_witness :
  ZerosAndPoles.well_formed sample_matrix /\
  (0 <= 0 < ZerosAndPoles.ny sample_matrix)%Z /\
  (0 <= 1 < ZerosAndPoles.nu sample_matrix)%Z /\
  exists cells c,
    nth_error (ZerosAndPoles.zpk sample_matrix) 0 = Some cells /\
    nth_error cells 1 = Some c /\
    ZerosAndPoles.__getitem__ sample_matrix [0; 1]%Z = Ok c.
Proof.
  split; [exact sample_matrix_well_formed |].
  split; [simpl; lia |]. split; [simpl; lia |].
  apply (proj1 getitem_cases float sample_matrix sample_matrix_well_formed 0%Z 1%Z);
    simpl; lia.
Defined.

(** ** The MIMO matrix: evaluation *)

(** C8.  [evaluate_at_s(s, den_min, u_indices, y_indices)] on a matrix
    returns an input-major nested collection: the outer sequence runs
    over the selected inputs (all of [0 .. nu-1] when [u_indices] is
    omitted), each inner sequence over the selected outputs (all of
    [0 .. ny-1] when [y_indices] is omitted), and the leaf for input [j]
    and output [i] is what the SISO [evaluate_at_s] returns on the cell
    of row [i] and column [j] for the same [s] and [den_min].  On a
    well-formed matrix with indices in range each such cell is the stored
    one, and on an array of points the call returns. *)
Theorem mimo_evaluate_at_s_nesting :
  forall (F : Type) (arith : PyFloat F) (self : ZerosAndPoles.t (F:=F))
         (s : ZerosAndPolesSISO.points) (den_min : F)
         (u_indices y_indices : option (list Z)),
    let ui := ZerosAndPoles.selected (ZerosAndPoles.nu self) u_indices in
    let yi := ZerosAndPoles.selected (ZerosAndPoles.ny self) y_indices in
    (u_indices = None -> ui = map Z.of_nat (seq 0 (Z.to_nat (ZerosAndPoles.nu self)))) /\
    (y_indices = None -> yi = map Z.of_nat (seq 0 (Z.to_nat (ZerosAndPoles.ny self)))) /\
    (forall l, u_indices = Some l -> ui = l) /\
    (forall l, y_indices = Some l -> yi = l) /\
    (forall Y,
        ZerosAndPoles.evaluate_at_s self s den_min u_indices y_indices = Ok Y <->
        Forall2
          (fun j column =>
             Forall2
               (fun i leaf =>
                  exists c,
                    ZerosAndPoles.cell self i j = Ok c /\
                    ZerosAndPolesSISO.evaluate_at_s c s den_min = Ok leaf)
               yi column)
          ui Y) /\
    (ZerosAndPoles.well_formed self ->
     forall i j,
       (0 <= i < ZerosAndPoles.ny self)%Z ->
       (0 <= j < ZerosAndPoles.nu self)%Z ->
       exists row c,
         nth_error (ZerosAndPoles.zpk self) (Z.to_nat i) = Some row /\
         nth_error row (Z.to_nat j) = Some c /\
         ZerosAndPoles.cell self i j = Ok c) /\
    (ZerosAndPoles.well_formed self ->
     (forall j, In j ui -> (0 <= j < ZerosAndPoles.nu self)%Z) ->
     (forall i, In i yi -> (0 <= i < ZerosAndPoles.ny self)%Z) ->
     forall w, s = ZerosAndPolesSISO.ArrayLike w ->
     exists Y,
       ZerosAndPoles.evaluate_at_s self s den_min u_indices y_indices = Ok Y /\
       length Y = length ui /\
       Forall (fun column => length column = length yi) Y).
Proof.
  intros F arith self s den_min u_indices y_indices ui yi.
  split; [intros ->; reflexivity |]. split; [intros ->; reflexivity |].
  split; [intros l ->; reflexivity |]. split; [intros l ->; reflexivity |].
  assert (Hiff : forall Y,
             ZerosAndPoles.evaluate_at_s self s den_min u_indices y_indices = Ok Y <->
             Forall2
               (fun j column =>
                  Forall2
                    (fun i leaf =>
                       exists c,
                         ZerosAndPoles.cell self i j = Ok c /\
                         ZerosAndPolesSISO.evaluate_at_s c s den_min = Ok leaf)
                    yi column)
               ui Y).
  { intros Y. unfold ZerosAndPoles.evaluate_at_s. fold ui yi.
    rewrite comprehension_ok. split; intros HY.
    - eapply Forall2_impl; [| exact HY]. intros j column Hcol.
      apply comprehension_ok in Hcol.
      eapply Forall2_impl; [| exact Hcol]. intros i leaf Hleaf. simpl in Hleaf.
      destruct (ZerosAndPoles.cell self i j) as [c|e]; simpl in Hleaf;
        [| discriminate].
      exists c. auto.
    - eapply Forall2_impl; [| exact HY]. intros j column Hcol.
      apply comprehension_ok.
      eapply Forall2_impl; [| exact Hcol]. intros i leaf (c & Hc & Hleaf).
      simpl. rewrite Hc. exact Hleaf. }
  split; [exact Hiff |].
  split; [intros Hwf i j Hi Hj; now apply cell_in_range |].
  intros Hwf Hui Hyi w ->.
  destruct (comprehension_total
              (fun j =>
                 comprehension
                   (fun i =>
                      bind (ZerosAndPoles.cell self i j)
                        (fun c => ZerosAndPolesSISO.evaluate_at_s
                                    c (ZerosAndPolesSISO.ArrayLike w) den_min))
                   yi)
              ui) as [Y HY].
  { intros j Hj. apply comprehension_total. intros i Hi.
    destruct (cell_in_range (i:=i) (j:=j) Hwf (Hyi i Hi) (Hui j Hj))
      as (row & c & _ & _ & ->).
    simpl. eexists. reflexivity. }
  exists Y. split; [exact HY |].
  apply Hiff in HY. split.
  - symmetry. eapply Forall2_length; eassumption.
  - eapply Forall2_columns with (R := fun j i leaf => _). exact HY.
Qed.

Lemma mimo_evaluate_at_s_nesting_witness :
  ZerosAndPoles.well_formed sample_matrix /\
  exists Y,
    ZerosAndPoles.evaluate_at_s sample_matrix
      (ZerosAndPolesSISO.ArrayLike [C64 0 1]) 0%float (Some [2; 0]%Z) None
    = Ok Y /\
    length Y = 2%nat /\
    Forall (fun column => length column = 2%nat) Y.
Proof.
  split; [exact sample_matrix_well_formed |].
  pose proof (mimo_evaluate_at_s_nesting Float64 sample_matrix
                (ZerosAndPolesSISO.ArrayLike [C64 0 1]) 0%float
                (Some [2; 0]%Z) None) as Hthm.
  cbv zeta in Hthm.
  destruct Hthm as (_ & _ & _ & _ & _ & _ & Htotal).
  apply (Htotal sample_matrix_well_formed) with (w := [C64 0 1]).
  - simpl. intros j [<- | [<- | []]]; lia.
  - simpl. intros i [<- | [<- | []]]; lia.
  - reflexivity.
Defined.

(** ** Evaluation of a SISO entity *)

Section EvaluationProperties.
Context {F : Type} {arith : PyFloat F}.

Lemma flt_not_fge (a b : F) : flt a b = true -> fge a b = false.
Proof.
  unfold flt, fge. destruct (fcompare a b); auto; discriminate.
Qed.

Lemma value_imul (a x : ZerosAndPolesSISO.pyscalar) :
  ZerosAndPolesSISO.value (ZerosAndPolesSISO.imul a x)
  = c_prod (ZerosAndPolesSISO.value a) (ZerosAndPolesSISO.value x).
Proof. destruct a, x; reflexivity. Qed.

(** The value of the scalar loops is the product of the factors. *)
Lemma value_scalar_product (ss : complex F) r1 r2 start :
  ZerosAndPolesSISO.value (ZerosAndPolesSISO.scalar_product ss r1 r2 start)
  = point_product ss r1 r2 (ZerosAndPolesSISO.value start).
Proof.
  unfold ZerosAndPolesSISO.scalar_product, point_product.
  revert start. induction r1 as [|zj r1 IH]; intros start; simpl.
  - revert start. induction r2 as [|ab r2 IH2]; intros start; simpl.
    + reflexivity.
    + rewrite IH2, value_imul. reflexivity.
  - rewrite IH, value_imul. reflexivity.
Qed.

Lemma elementwise_map (f : complex F -> complex F -> complex F)
      (g h : complex F -> complex F) (ss : list (complex F)) :
  ZerosAndPolesSISO.elementwise f (map g ss) (map h ss)
  = map (fun s => f (g s) (h s)) ss.
Proof.
  unfold ZerosAndPolesSISO.elementwise.
  induction ss as [|s ss IH]; simpl; [reflexivity |]. now rewrite IH.
Qed.

(** The array loops compute, at every point, the product of the
    factors at that point. *)
Lemma array_product_pointwise (ss : list (complex F)) r1 r2
      (g : complex F -> complex F) :
  ZerosAndPolesSISO.array_product ss r1 r2 (map g ss)
  = map (fun s => point_product s r1 r2 (g s)) ss.
Proof.
  unfold ZerosAndPolesSISO.array_product, point_product.
  revert g. induction r1 as [|zj r1 IH]; intros g; simpl.
  - revert g. induction r2 as [|ab r2 IH2]; intros g; simpl.
    + reflexivity.
    + rewrite elementwise_map. apply (IH2 (fun s => c_prod (g s) _)).
  - rewrite elementwise_map. apply (IH (fun s => c_prod (g s) _)).
Qed.

Lemma evaluate_at_s_array (self : ZerosAndPolesSISO.t) ss (den_min : F) :
  ZerosAndPolesSISO.evaluate_at_s self (ZerosAndPolesSISO.ArrayLike ss) den_min
  = Ok (ZerosAndPolesSISO.ArrayValue
          (map (fun s =>
                  npy_divide
                    (point_product s (ZerosAndPolesSISO.n1 self)
                       (ZerosAndPolesSISO.n2 self)
                       (c_prod (of_real (ZerosAndPolesSISO.k self))
                               (Complex fone fzero)))
                    (ZerosAndPolesSISO.select_den den_min
                       (point_product s (ZerosAndPolesSISO.d1 self)
                          (ZerosAndPolesSISO.d2 self) (Complex fone fzero))))
               ss)).
Proof.
  unfold ZerosAndPolesSISO.evaluate_at_s, ZerosAndPolesSISO.array_num,
    ZerosAndPolesSISO.array_den.
  rewrite !array_product_pointwise, map_map, elementwise_map. reflexivity.
Qed.
End EvaluationProperties.

(** ** Frequency response of a matrix *)

(** C1.  The code at the input the claim fails on: with [f_range]
    supplied, [frequencyResponse] of a matrix never returns.  The branch
    taken binds neither [ui] nor [yi], and the call of [evaluate_at_s]
    that reads them raises [UnboundLocalError] as soon as the frequency
    points are computed; whatever the matrix, the range, the spacing and
    the index selections are, the result is an exception. *)
Theorem frequencyResponse_supplied_range :
  forall (F : Type) (arith : PyFloat F) (ext : Collaborators F)
         (self : ZerosAndPoles.t (F:=F)) (n : Z) (lo hi : F)
         (f_logspace : bool) (u_indices y_indices : option (list Z)),
    ZerosAndPoles.frequencyResponse self n (Some (lo, hi)) f_logspace
      u_indices y_indices
    = bind (ZerosAndPolesSISO.frequency_points f_logspace lo hi n)
        (fun f =>
           bind (ZerosAndPolesSISO.imaginary_axis f)
             (fun w =>
                Raise (UnboundLocalError
                         "local variable 'ui' referenced before assignment"))) /\
    is_ok (ZerosAndPoles.frequencyResponse self n (Some (lo, hi)) f_logspace
             u_indices y_indices) = false.
Proof.
  intros F arith ext self n lo hi f_logspace u_indices y_indices.
  unfold ZerosAndPoles.frequencyResponse. simpl.
  destruct (ZerosAndPolesSISO.frequency_points f_logspace lo hi n) as [f|e];
    simpl; [| split; reflexivity].
  destruct (ZerosAndPolesSISO.imaginary_axis f) as [w|e]; simpl;
    split; reflexivity.
Qed.

(** The same on the 2x3 sample matrix, with stand-ins for the
    collaborators that all return: the supplied range [(1, 100)] ends in
    [UnboundLocalError], the omitted range returns. *)
Lemma frequencyResponse_sample_runs :
  ZerosAndPoles.frequencyResponse (ext := sample_collaborators)
    sample_matrix 10 (Some (1, 100)%float) true None None
  = Raise (UnboundLocalError "local variable 'ui' referenced before assignment") /\
  is_ok (ZerosAndPoles.frequencyResponse (ext := sample_collaborators)
           sample_matrix 10 None true None None) = true /\
  is_ok (ZerosAndPolesSISO.frequencyResponse (ext := sample_collaborators)
           (gain_cell 1) 10 (Some (1, 100)%float) true) = true.
Proof.
  split; [vm_compute; reflexivity |].
  split; vm_compute; reflexivity.
Qed.

(** ** Evaluation against direct substitution *)

Section ExactArithmetic.
Local Open Scope R_scope.

Lemma Rcompare3_spec (x y : R) :
  (x < y /\ Rcompare3 x y = FLt) \/
  (x = y /\ Rcompare3 x y = FEq) \/
  (x > y /\ Rcompare3 x y = FGt).
Proof.
  unfold Rcompare3. destruct (total_order_T x y) as [[Hlt | Heq] | Hgt]; auto.
Qed.

Lemma exact_flt (x y : R) : flt x y = true <-> x < y.
Proof.
  unfold flt. cbn [fcompare Exact].
  destruct (Rcompare3_spec x y) as [[H ->] | [[H ->] | [H ->]]];
    split; intros; try discriminate; try reflexivity; lra.
Qed.

Lemma exact_fge (x y : R) : fge x y = true <-> y <= x.
Proof.
  unfold fge. cbn [fcompare Exact].
  destruct (Rcompare3_spec x y) as [[H ->] | [[H ->] | [H ->]]];
    split; intros; try discriminate; try reflexivity; lra.
Qed.

Lemma exact_feq (x y : R) : feq x y = true <-> x = y.
Proof.
  unfold feq. cbn [fcompare Exact].
  destruct (Rcompare3_spec x y) as [[H ->] | [[H ->] | [H ->]]];
    split; intros; try discriminate; try reflexivity; lra.
Qed.

Lemma complex_eq (a b : complex R) :
  real a = real b -> imag a = imag b -> a = b.
Proof. destruct a, b; simpl; intros -> ->; reflexivity. Qed.

Lemma exact_c_prod_comm (a b : complex R) : c_prod a b = c_prod b a.
Proof. apply complex_eq; cbn; ring. Qed.

Lemma exact_c_prod_assoc (a b c : complex R) :
  c_prod (c_prod a b) c = c_prod a (c_prod b c).
Proof. apply complex_eq; cbn; ring. Qed.

Lemma exact_first_order (s c : complex R) :
  imag c = 0 ->
  ZerosAndPolesSISO.first_order s (fopp (real c)) = c_diff s c.
Proof. intros Him. apply complex_eq; cbn; rewrite ?Him; ring. Qed.

Lemma exact_second_order (s r : complex R) :
  ZerosAndPolesSISO.second_order s (poly2_row r (conj r))
  = c_prod (c_diff s r) (c_diff s (conj r)).
Proof. apply complex_eq; cbn; ring. Qed.

Lemma exact_eps_pos : 0 < eps (F:=R).
Proof. unfold eps. cbn. lra. Qed.

Lemma exact_isConj (r : complex R) : isConj r (conj r) = true.
Proof.
  unfold isConj. apply exact_flt.
  assert (Hzero : c_abs (c_diff (conj r) (conj r)) = 0).
  { unfold c_abs. cbn.
    replace ((real r - real r) * (real r - real r) +
             (- imag r - - imag r) * (- imag r - - imag r)) with 0 by ring.
    apply sqrt_0. }
  rewrite Hzero.
  assert (Hmax : 1 <= npy_maximum fone (fabs (real r))).
  { unfold npy_maximum.
    destruct (fge fone (fabs (real r)) || fisnan fone) eqn:E.
    - cbn. lra.
    - apply orb_false_iff in E as [E _].
      destruct (Rle_or_lt (fabs (real r)) fone) as [Hle | Hlt].
      + apply exact_fge in Hle. congruence.
      + cbn in *. lra. }
  pose proof exact_eps_pos as Heps. cbn [fmul Exact].
  apply Rmult_lt_0_compat; lra.
Qed.

Lemma conjugate_pairs_even (l : list (complex R)) :
  conjugate_pairs l -> Nat.odd (length l) = false.
Proof.
  induction 1 as [|r l _ IH]; [reflexivity |].
  simpl length. now rewrite Nat.odd_succ_succ.
Qed.

Lemma conjugate_pairs_valid (l : list (complex R)) :
  conjugate_pairs l ->
  forallb (fun '(a, b) => isConj a b) (pairs l) = true.
Proof.
  induction 1 as [|r l _ IH]; [reflexivity |].
  rewrite pairs_cons2. simpl. now rewrite exact_isConj, IH.
Qed.

Lemma exact_transformRootsToPoly2 (l : list (complex R)) :
  conjugate_pairs l ->
  transformRootsToPoly2 l = Ok (map (fun '(a, b) => poly2_row a b) (pairs l)).
Proof.
  intros Hl. rewrite transformRootsToPoly2_unfold.
  now rewrite (conjugate_pairs_even Hl), (conjugate_pairs_valid Hl).
Qed.

(** The product over the rows of exact conjugate pairs is the product
    over the roots. *)
Lemma exact_pairs_product (s : complex R) (l : list (complex R)) :
  conjugate_pairs l ->
  forall start,
    fold_left (fun acc ab => c_prod acc (ZerosAndPolesSISO.second_order s ab))
              (map (fun '(a, b) => poly2_row a b) (pairs l)) start
    = root_product s l start.
Proof.
  induction 1 as [|r l _ IH]; intros start; [reflexivity |].
  rewrite pairs_cons2. unfold root_product in *. cbn [map fold_left].
  rewrite IH, exact_second_order, exact_c_prod_assoc. reflexivity.
Qed.

Lemma root_product_scale (s : complex R) (l : list (complex R)) :
  forall a x, root_product s l (c_prod a x) = c_prod (root_product s l a) x.
Proof.
  unfold root_product.
  induction l as [|r l IH]; intros a x; cbn [fold_left]; [reflexivity |].
  rewrite <- IH. f_equal.
  rewrite !exact_c_prod_assoc. f_equal. apply exact_c_prod_comm.
Qed.

(** The product over all roots, split into the purely real and the
    strictly complex ones. *)
Lemma root_product_split (s : complex R) (l : list (complex R)) :
  forall start,
    root_product s l start
    = root_product s (strictly_complex l) (root_product s (purely_real l) start).
Proof.
  unfold strictly_complex, purely_real, fne.
  induction l as [|r l IH]; intros start; [reflexivity |].
  change (root_product s (r :: l) start)
    with (root_product s l (c_prod start (c_diff s r))).
  rewrite IH. cbn [filter].
  destruct (feq (imag r) fzero); cbn [negb].
  - reflexivity.
  - rewrite !root_product_scale.
    change (root_product s (r :: ?l') ?a)
      with (root_product s l' (c_prod a (c_diff s r))).
    now rewrite root_product_scale.
Qed.

Lemma exact_reals_product (s : complex R) (l : list (complex R)) :
  forall start,
    fold_left (fun acc zj => c_prod acc (ZerosAndPolesSISO.first_order s zj))
              (map (fun c => fopp (real c)) (purely_real l)) start
    = root_product s (purely_real l) start.
Proof.
  unfold purely_real, root_product.
  induction l as [|r l IH]; intros start; [reflexivity |].
  cbn [filter]. destruct (feq (imag r) fzero) eqn:E; [| apply IH].
  cbn [map fold_left]. rewrite IH. apply exact_feq in E.
  now rewrite exact_first_order.
Qed.

(** The factored product of a root-form entity is the product over its
    roots. *)
Lemma exact_point_product (s : complex R) (roots : list (complex R)) start :
  conjugate_pairs (strictly_complex roots) ->
  point_product s (map (fun c => fopp (real c)) (purely_real roots))
    (map (fun '(a, b) => poly2_row a b) (pairs (strictly_complex roots))) start
  = root_product s roots start.
Proof.
  intros Hpairs. unfold point_product.
  rewrite exact_reals_product, (exact_pairs_product s Hpairs).
  symmetry. apply root_product_split.
Qed.

Lemma exact_abs_branch (x : R) :
  (if flt x fzero then fopp x else x) = Rabs x.
Proof.
  destruct (flt x fzero) eqn:E.
  - apply exact_flt in E. cbn in *. rewrite Rabs_left; lra.
  - destruct (Rlt_or_le x 0) as [Hlt | Hle].
    + apply exact_flt in Hlt. cbn in *. congruence.
    + now rewrite Rabs_right by lra.
Qed.

(** Without rounding, Python's and numpy's divisions by a nonzero
    complex number return the same quotient. *)
Lemma exact_division (a b : complex R) :
  real b <> 0 \/ imag b <> 0 ->
  exists q, c_quot a b = Ok q /\ npy_divide a b = q.
Proof.
  intros Hb. unfold c_quot, npy_divide.
  rewrite !exact_abs_branch. cbn [fabs Exact].
  destruct (fge (Rabs (real b)) (Rabs (imag b))) eqn:Hge.
  - apply exact_fge in Hge.
    assert (Hre : real b <> 0).
    { intros E. rewrite E, Rabs_R0 in Hge.
      pose proof (Rabs_pos (imag b)) as Hpos.
      assert (Him : Rabs (imag b) = 0) by lra.
      destruct Hb as [Hb | Hb]; [contradiction |].
      apply Hb. destruct (Req_dec (imag b) 0) as [E0 | E0]; [assumption |].
      apply Rabs_no_R0 in E0. contradiction. }
    assert (Habs : Rabs (real b) <> 0) by now apply Rabs_no_R0.
    destruct (feq (Rabs (real b)) fzero) eqn:Hz.
    { apply exact_feq in Hz. cbn in Hz. contradiction. }
    cbn [andb].
    eexists. split; [reflexivity |].
    assert (Hsq : real b * real b + imag b * imag b <> 0) by nra.
    apply complex_eq; cbn; field; auto.
  - assert (Hlt : Rabs (real b) < Rabs (imag b)).
    { destruct (Rle_or_lt (Rabs (imag b)) (Rabs (real b))) as [Hle | Hlt];
        [| assumption].
      apply exact_fge in Hle. congruence. }
    assert (Him : imag b <> 0).
    { intros E. rewrite E, Rabs_R0 in Hlt.
      pose proof (Rabs_pos (real b)). lra. }
    assert (Hge' : fge (Rabs (imag b)) (Rabs (real b)) = true)
      by (apply exact_fge; lra).
    rewrite Hge'.
    eexists. split; [reflexivity |].
    assert (Hsq : real b * real b + imag b * imag b <> 0) by nra.
    apply complex_eq; cbn; field; auto.
Qed.

Lemma exact_truediv (num den : ZerosAndPolesSISO.pyscalar) (q : complex R) :
  c_quot (ZerosAndPolesSISO.value num) (ZerosAndPolesSISO.value den) = Ok q ->
  npy_divide (ZerosAndPolesSISO.value num) (ZerosAndPolesSISO.value den) = q ->
  exists y,
    ZerosAndPolesSISO.truediv num (ZerosAndPolesSISO.ByScalar den) = Ok y /\
    ZerosAndPolesSISO.value y = q.
Proof.
  intros Hpy Hnp.
  destruct num as [a | a], den as [b | b]; simpl in *;
    try (rewrite Hpy; simpl); eexists; (split; [reflexivity | simpl; auto]).
Qed.

Lemma exact_abs_nonneg (c : complex R) : fge (c_abs c) fzero = true.
Proof. apply exact_fge. unfold c_abs. cbn. apply sqrt_pos. Qed.

Lemma exact_init (k0 : R) (zs ps : list (complex R)) :
  conjugate_pairs (strictly_complex zs) ->
  conjugate_pairs (strictly_complex ps) ->
  ZerosAndPolesSISO.__init__
    (k0, ZerosAndPolesSISO.Sequence zs, ZerosAndPolesSISO.Sequence ps)
  = Ok {| ZerosAndPolesSISO.k := k0;
          ZerosAndPolesSISO.n1 := map (fun c => fopp (real c)) (purely_real zs);
          ZerosAndPolesSISO.n2 :=
            map (fun '(a, b) => poly2_row a b) (pairs (strictly_complex zs));
          ZerosAndPolesSISO.d1 := map (fun c => fopp (real c)) (purely_real ps);
          ZerosAndPolesSISO.d2 :=
            map (fun '(a, b) => poly2_row a b) (pairs (strictly_complex ps));
          ZerosAndPolesSISO.z := zs;
          ZerosAndPolesSISO.p := ps |}.
Proof.
  intros Hz Hp. rewrite init_unfold, !partition_roots_filters.
  cbn [ZerosAndPolesSISO.ndmin1 fst snd].
  rewrite (exact_transformRootsToPoly2 Hz), (exact_transformRootsToPoly2 Hp).
  reflexivity.
Qed.

(** In exact arithmetic the factored evaluation is the direct
    substitution. *)
Lemma exact_evaluation (k0 : R) (zs ps : list (complex R)) (s : complex R) :
  conjugate_pairs (strictly_complex zs) ->
  conjugate_pairs (strictly_complex ps) ->
  real (root_product s ps (Complex fone fzero)) <> 0 \/
  imag (root_product s ps (Complex fone fzero)) <> 0 ->
  exists self y,
    ZerosAndPolesSISO.__init__
      (k0, ZerosAndPolesSISO.Sequence zs, ZerosAndPolesSISO.Sequence ps)
    = Ok self /\
    ZerosAndPolesSISO.evaluate_at_s self (ZerosAndPolesSISO.Scalar s) fzero
    = Ok (ZerosAndPolesSISO.ScalarValue y) /\
    direct_substitution k0 zs ps s = Ok (ZerosAndPolesSISO.value y).
Proof.
  intros Hz Hp Hden.
  pose proof (@exact_init k0 zs ps Hz Hp) as Hinit.
  set (self := {| ZerosAndPolesSISO.k := k0 |}) in Hinit.
  assert (Hnum_v : ZerosAndPolesSISO.value (ZerosAndPolesSISO.scalar_num self s)
                   = root_product s zs (of_real k0)).
  { unfold ZerosAndPolesSISO.scalar_num. rewrite value_scalar_product.
    now apply exact_point_product. }
  assert (Hden_v : ZerosAndPolesSISO.value (ZerosAndPolesSISO.scalar_den self s)
                   = root_product s ps (Complex fone fzero)).
  { unfold ZerosAndPolesSISO.scalar_den. rewrite value_scalar_product.
    now apply exact_point_product. }
  destruct (@exact_division (root_product s zs (of_real k0)) _ Hden)
    as (q & Hpy & Hnp).
  rewrite <- Hnum_v, <- Hden_v in Hpy, Hnp.
  destruct (exact_truediv _ _ Hpy Hnp) as (y & Hy & Hval).
  exists self, y. split; [exact Hinit |]. split.
  - unfold ZerosAndPolesSISO.evaluate_at_s.
    rewrite exact_abs_nonneg, Hy. reflexivity.
  - unfold direct_substitution. rewrite Hval.
    rewrite Hnum_v, Hden_v in Hpy. exact Hpy.
Qed.
End ExactArithmetic.

(** C3, as the code has it.  Without rounding, an entity built from root
    form whose strictly complex entries are exact conjugate pairs
    evaluates, at every point where the product of the [s - p_i] is not
    zero, to the value of the direct substitution
    [k * prod(s - z_i) / prod(s - p_i)].  In binary64 the two agree up to
    rounding only; for gain 3.1, zeros [4.0, 2-3j, 2+3j] and poles
    [1+2j, 1-2j, 5.0, 6.0, 4-3j, 4+3j, 7] they agree within a relative
    error of 1e-9 at [s = 2] and at [s = 3]. *)
Theorem evaluation_consistency :
  (forall (k0 : R) (zs ps : list (complex R)) (s : complex R),
      conjugate_pairs (strictly_complex zs) ->
      conjugate_pairs (strictly_complex ps) ->
      real (root_product s ps (Complex fone fzero)) <> 0%R \/
      imag (root_product s ps (Complex fone fzero)) <> 0%R ->
      exists self y,
        ZerosAndPolesSISO.__init__
          (k0, ZerosAndPolesSISO.Sequence zs, ZerosAndPolesSISO.Sequence ps)
        = Ok self /\
        ZerosAndPolesSISO.evaluate_at_s self (ZerosAndPolesSISO.Scalar s) fzero
        = Ok (ZerosAndPolesSISO.ScalarValue y) /\
        direct_substitution k0 zs ps s = Ok (ZerosAndPolesSISO.value y)) /\
  (exists self y2 r2 y3 r3,
      ZerosAndPolesSISO.__init__
        (sample_gain, ZerosAndPolesSISO.Sequence sample_zeros,
         ZerosAndPolesSISO.Sequence sample_poles) = Ok self /\
      ZerosAndPolesSISO.evaluate_at_s self
        (ZerosAndPolesSISO.Scalar (C64 2 0)) 0%float
      = Ok (ZerosAndPolesSISO.ScalarValue y2) /\
      direct_substitution sample_gain sample_zeros sample_poles (C64 2 0) = Ok r2 /\
      within_relative tol_1em9 (ZerosAndPolesSISO.value y2) r2 = true /\
      ZerosAndPolesSISO.evaluate_at_s self
        (ZerosAndPolesSISO.Scalar (C64 3 0)) 0%float
      = Ok (ZerosAndPolesSISO.ScalarValue y3) /\
      direct_substitution sample_gain sample_zeros sample_poles (C64 3 0) = Ok r3 /\
      within_relative tol_1em9 (ZerosAndPolesSISO.value y3) r3 = true).
Proof.
  split.
  - intros k0 zs ps s Hz Hp Hden. now apply exact_evaluation.
  - do 5 eexists.
    split; [vm_compute; reflexivity |].
    split; [vm_compute; reflexivity |].
    split; [vm_compute; reflexivity |].
    split; [vm_compute; reflexivity |].
    split; [vm_compute; reflexivity |].
    split; [vm_compute; reflexivity |].
    vm_compute; reflexivity.
Qed.

(** The claim fails in binary64: the conjugate pair [1 + 1e-9j],
    [1 - 1e-9j] passes the validity test, the entity evaluates to 0 at
    [s = 1], and the direct substitution gives 1e-18. *)
Lemma evaluation_consistency_counterexample :
  let zs := [C64 1 tol_1em9; C64 1 (- tol_1em9)] in
  forallb (fun '(a, b) => isConj a b) (pairs zs) = true /\
  exists self y reference,
    ZerosAndPolesSISO.__init__
      (1%float, ZerosAndPolesSISO.Sequence zs, ZerosAndPolesSISO.Sequence [])
    = Ok self /\
    ZerosAndPolesSISO.evaluate_at_s self (ZerosAndPolesSISO.Scalar (C64 1 0)) 0%float
    = Ok (ZerosAndPolesSISO.ScalarValue y) /\
    ZerosAndPolesSISO.value y = C64 0 0 /\
    direct_substitution 1%float zs [] (C64 1 0) = Ok reference /\
    within_relative tol_1em9 (ZerosAndPolesSISO.value y) reference = false.
Proof.
  split; [vm_compute; reflexivity |].
  do 3 eexists.
  split; [vm_compute; reflexivity |].
  split; [vm_compute; reflexivity |].
  split; [vm_compute; reflexivity |].
  split; [vm_compute; reflexivity |].
  vm_compute; reflexivity.
Qed.

Lemma evaluation_consistency_witness :
  let zs := [Complex 0%R 1%R; conj (Complex 0%R 1%R)] in
  let ps := [Complex 1%R 0%R] in
  let s := Complex 2%R 0%R in
  conjugate_pairs (strictly_complex zs) /\
  conjugate_pairs (strictly_complex ps) /\
  exists self y,
    ZerosAndPolesSISO.__init__
      (3%R, ZerosAndPolesSISO.Sequence zs, ZerosAndPolesSISO.Sequence ps)
    = Ok self /\
    ZerosAndPolesSISO.evaluate_at_s self (ZerosAndPolesSISO.Scalar s) fzero
    = Ok (ZerosAndPolesSISO.ScalarValue y) /\
    direct_substitution 3%R zs ps s = Ok (ZerosAndPolesSISO.value y).
Proof.
  assert (Hzs : strictly_complex [Complex 0%R 1%R; conj (Complex 0%R 1%R)]
                = [Complex 0%R 1%R; conj (Complex 0%R 1%R)]).
  { unfold strictly_complex, fne. cbn [filter imag conj].
    destruct (feq 1%R fzero) eqn:E1;
      [apply exact_feq in E1; cbn in E1; lra |].
    destruct (feq (fopp 1%R) fzero) eqn:E2;
      [apply exact_feq in E2; cbn in E2; lra |].
    reflexivity. }
  assert (Hps : strictly_complex [Complex 1%R 0%R] = []).
  { unfold strictly_complex, fne. cbn [filter imag].
    destruct (feq 0%R fzero) eqn:E1; [reflexivity |].
    assert (E : feq 0%R fzero = true) by (apply exact_feq; reflexivity).
    congruence. }
  assert (Hz : conjugate_pairs
                 (strictly_complex [Complex 0%R 1%R; conj (Complex 0%R 1%R)])).
  { rewrite Hzs. repeat constructor. }
  assert (Hp : conjugate_pairs (strictly_complex [Complex 1%R 0%R])).
  { rewrite Hps. constructor. }
  split; [exact Hz |]. split; [exact Hp |].
  apply (proj1 evaluation_consistency 3%R _ _ (Complex 2%R 0%R) Hz Hp).
  left. cbn. lra.
Defined.

(** ** Division by a zero denominator *)

Section ScalarKinds.
Context {F : Type} {arith : PyFloat F}.

(** Without second-order factors the scalar loops stay within Python's
    complex numbers. *)
Lemma scalar_product_python (ss : complex F) r1 c :
  ZerosAndPolesSISO.scalar_product ss r1 [] (ZerosAndPolesSISO.PyComplex c)
  = ZerosAndPolesSISO.PyComplex (point_product ss r1 [] c).
Proof.
  unfold ZerosAndPolesSISO.scalar_product, point_product. cbn [fold_left].
  revert c. induction r1 as [|zj r1 IH]; intros c; [reflexivity |].
  cbn [fold_left]. apply IH.
Qed.

Lemma numpy_stays_numpy (ss : complex F) r2 c :
  exists c',
    fold_left
      (fun acc ab =>
         ZerosAndPolesSISO.imul acc
           (ZerosAndPolesSISO.NpComplex128 (ZerosAndPolesSISO.second_order ss ab)))
      r2 (ZerosAndPolesSISO.NpComplex128 c)
    = ZerosAndPolesSISO.NpComplex128 c'.
Proof.
  revert c. induction r2 as [|ab r2 IH]; intros c; cbn [fold_left].
  - eexists. reflexivity.
  - apply IH.
Qed.

(** With a second-order factor the result is a numpy scalar. *)
Lemma scalar_product_numpy (ss : complex F) r1 r2 start :
  r2 <> [] ->
  ZerosAndPolesSISO.scalar_product ss r1 r2 start
  = ZerosAndPolesSISO.NpComplex128
      (point_product ss r1 r2 (ZerosAndPolesSISO.value start)).
Proof.
  intros Hr2. rewrite <- value_scalar_product.
  unfold ZerosAndPolesSISO.scalar_product.
  destruct r2 as [|ab r2]; [contradiction |]. cbn [fold_left].
  set (acc := fold_left _ r1 start).
  assert (Hnp : exists c, ZerosAndPolesSISO.imul acc
                  (ZerosAndPolesSISO.NpComplex128
                     (ZerosAndPolesSISO.second_order ss ab))
                = ZerosAndPolesSISO.NpComplex128 c).
  { destruct acc; eexists; reflexivity. }
  destruct Hnp as [c ->].
  destruct (numpy_stays_numpy ss r2 c) as [c' ->]. reflexivity.
Qed.
End ScalarKinds.

Section Binary64.

Lemma binary_round_aux_sign (prec emax : Z) (sx : bool) (mx ex : Z) lx :
  match binary_round_aux prec emax sx mx ex lx with
  | S754_zero s | S754_infinity s | S754_finite s _ _ => s = sx
  | S754_nan => True
  end.
Proof.
  unfold binary_round_aux.
  destruct (shr_fexp prec emax mx ex lx) as [mrs' e'].
  destruct (shr_fexp prec emax _ e' loc_Exact) as [mrs'' e''].
  destruct (shr_m mrs''); auto.
  destruct (Z.leb e'' (emax - prec)); reflexivity.
Qed.

Lemma sf_nonneg_round (prec emax mx ex : Z) lx :
  sf_nonneg (binary_round_aux prec emax false mx ex lx) = true.
Proof.
  pose proof (binary_round_aux_sign prec emax false mx ex lx) as Hs.
  destruct (binary_round_aux prec emax false mx ex lx); simpl; subst; auto.
Qed.

Lemma sf_nonneg_abs (x : spec_float) : sf_nonneg (SFabs x) = true.
Proof. destruct x; reflexivity. Qed.

Lemma sf_nonneg_sqrt (prec emax : Z) (x : spec_float) :
  sf_nonneg (SFsqrt prec emax x) = true.
Proof.
  destruct x as [s | s | | s m e]; simpl; try reflexivity.
  - destruct s; reflexivity.
  - destruct s; [reflexivity |].
    destruct (SFsqrt_core_binary prec emax (Zpos m) e) as [[mz ez] lz].
    apply sf_nonneg_round.
Qed.

Lemma sf_nonneg_mul (prec emax : Z) (x y : spec_float) :
  sf_nonneg x = true -> sf_nonneg y = true ->
  sf_nonneg (SFmul prec emax x y) = true.
Proof.
  destruct x as [sx | sx | | sx mx ex], y as [sy | sy | | sy my ey];
    simpl; intros Hx Hy; try reflexivity;
    try (apply negb_true_iff in Hx; subst sx);
    try (apply negb_true_iff in Hy; subst sy);
    try reflexivity.
  apply sf_nonneg_round.
Qed.

Lemma float_of_spec (x : float) (f : spec_float) :
  Prim2SF x = f -> x = SF2Prim f.
Proof. intros <-. symmetry. apply SF2Prim_Prim2SF. Qed.

Lemma nonneg_fge_zero (x : float) :
  sf_nonneg (Prim2SF x) = true -> fisnan x = false -> fge x fzero = true.
Proof.
  unfold fisnan, feq, fge. cbn [fcompare Float64 fzero].
  rewrite !compare_spec.
  change (Prim2SF 0%float) with (S754_zero false).
  destruct (Prim2SF x) as [s | s | | s m e]; simpl; intros Hs Hnan;
    try reflexivity; try discriminate;
    apply negb_true_iff in Hs; subst s; reflexivity.
Qed.

Lemma sf_nonneg_binary_round (prec emax : Z) (m : positive) (e : Z) :
  sf_nonneg (binary_round prec emax false m e) = true.
Proof.
  unfold binary_round.
  destruct (shl_align m e _) as [mz ez]. apply sf_nonneg_round.
Qed.

(** The float of a description with a clear sign bit has one. *)
Lemma sf_nonneg_SF2Prim (z : spec_float) :
  sf_nonneg z = true -> sf_nonneg (Prim2SF (SF2Prim z)) = true.
Proof.
  destruct z as [s | s | | s m e]; cbn [sf_nonneg]; intros Hs.
  - destruct s; reflexivity.
  - apply negb_true_iff in Hs. subst s. reflexivity.
  - reflexivity.
  - apply negb_true_iff in Hs. subst s. cbn [SF2Prim].
    rewrite FloatLemmas.Z_ldexp_spec, of_uint63_spec.
    unfold binary_normalize.
    pose proof (Uint63.to_Z_bounded (Uint63.of_Z (Z.pos m))) as Hb.
    destruct (Uint63.to_Z (Uint63.of_Z (Z.pos m))) as [| n | n]; [reflexivity | | lia].
    pose proof (sf_nonneg_binary_round FloatOps.prec emax n 0) as Hn.
    destruct (binary_round FloatOps.prec emax false n 0) as [s | s | | s m' e'];
      cbn [SFldexp sf_nonneg] in *; try assumption.
    apply negb_true_iff in Hn. subst s. apply sf_nonneg_binary_round.
Qed.

Lemma hypot64_nonneg (x y : float) : sf_nonneg (Prim2SF (hypot64 x y)) = true.
Proof.
  unfold hypot64.
  destruct (Prim2SF x) as [sx | sx | | sx mx ex];
    destruct (Prim2SF y) as [sy | sy | | sy my ey];
    try reflexivity;
    try (rewrite abs_spec; apply sf_nonneg_abs).
  cbv zeta. apply sf_nonneg_SF2Prim. apply sf_nonneg_sqrt.
Qed.

(** In binary64 the magnitude of a complex number is at least zero
    unless it is NaN. *)
Lemma c_abs_nonneg (d : complex float) :
  fisnan (c_abs d) = false -> fge (c_abs d) fzero = true.
Proof.
  apply nonneg_fge_zero. apply hypot64_nonneg.
Qed.

Lemma feq_zero_cases (x : float) :
  feq x fzero = true -> x = 0%float \/ x = (-0)%float.
Proof.
  unfold feq. cbn [fcompare Float64 fzero]. rewrite compare_spec.
  change (Prim2SF 0%float) with (S754_zero false).
  destruct (Prim2SF x) as [s | s | | s m e] eqn:E; simpl;
    try discriminate.
  - intros _. apply float_of_spec in E. destruct s; [right | left]; exact E.
  - destruct s; discriminate.
  - destruct s; discriminate.
Qed.

Lemma div_zero_not_finite (x : float) : fisfinite (fdiv x fzero) = false.
Proof.
  cbn [fdiv fzero Float64].
  pose proof (div_spec x 0%float) as E.
  change (Prim2SF 0%float) with (S754_zero false) in E.
  destruct (Prim2SF x) as [s | s | | s m e]; simpl in E;
    apply float_of_spec in E; rewrite E;
    [destruct s | destruct s | | destruct s]; reflexivity.
Qed.

Lemma zero_cases (d : complex float) :
  is_zero d = true ->
  d = C64 0 0 \/ d = C64 0 (-0) \/ d = C64 (-0) 0 \/ d = C64 (-0) (-0).
Proof.
  unfold is_zero. destruct d as [re im]. cbn [real imag].
  intros Hz. apply andb_true_iff in Hz as [Hre Him].
  apply feq_zero_cases in Hre, Him.
  destruct Hre as [-> | ->], Him as [-> | ->]; auto.
Qed.

(** Python's division by a zero complex number raises. *)
Lemma c_quot_zero (a d : complex float) :
  is_zero d = true ->
  c_quot a d = Raise (ZeroDivisionError "complex division by zero").
Proof.
  intros Hz.
  destruct (zero_cases d Hz) as [-> | [-> | [-> | ->]]]; reflexivity.
Qed.

(** numpy's division by a zero complex number returns a value that is
    not finite. *)
Lemma npy_divide_zero (a d : complex float) :
  is_zero d = true -> c_isfinite (npy_divide a d) = false.
Proof.
  intros Hz.
  assert (E : npy_divide a d = Complex (fdiv (real a) fzero) (fdiv (imag a) fzero)).
  { destruct (zero_cases d Hz) as [-> | [-> | [-> | ->]]]; reflexivity. }
  rewrite E. unfold c_isfinite. cbn [real imag].
  now rewrite div_zero_not_finite.
Qed.

Lemma c_abs_zero (d : complex float) :
  is_zero d = true -> fge (c_abs d) 0%float = true.
Proof.
  intros Hz.
  destruct (zero_cases d Hz) as [-> | [-> | [-> | ->]]]; reflexivity.
Qed.

Lemma c_abs_below_floor (d : complex float) :
  is_zero d = true -> flt (c_abs d) f1em10 = true.
Proof.
  intros Hz.
  destruct (zero_cases d Hz) as [-> | [-> | [-> | ->]]]; reflexivity.
Qed.

Lemma select_den_zero (d : complex float) :
  is_zero d = true -> ZerosAndPolesSISO.select_den 0%float d = d.
Proof.
  intros Hz.
  destruct (zero_cases d Hz) as [-> | [-> | [-> | ->]]]; reflexivity.
Qed.
End Binary64.

(** C10, as the code has it.  With [den_min = 0] the divisor is [den]
    itself whenever [|den| >= 0] holds, and in binary64 it holds unless
    [|den|] is NaN.  Where the denominator is zero the division is not
    guarded: on an array of points numpy's division returns a value that
    is not finite and raises nothing; on a scalar point the quotient of
    two Python complex numbers (no second-order factor in the entity)
    raises [ZeroDivisionError], and with a second-order factor the
    operands are numpy scalars and the value returned is not finite.
    When [|den|] is NaN the divisor is the float [den_min = 0]. *)
Theorem unguarded_division :
  (forall (F : Type) (arith : PyFloat F) (self : ZerosAndPolesSISO.t) (s : complex F),
      fge (c_abs (ZerosAndPolesSISO.value (ZerosAndPolesSISO.scalar_den self s)))
          fzero = true ->
      ZerosAndPolesSISO.evaluate_at_s self (ZerosAndPolesSISO.Scalar s) fzero
      = bind (ZerosAndPolesSISO.truediv (ZerosAndPolesSISO.scalar_num self s)
                (ZerosAndPolesSISO.ByScalar (ZerosAndPolesSISO.scalar_den self s)))
          (fun y => Ok (ZerosAndPolesSISO.ScalarValue y))) /\
  (forall d : complex float,
      fisnan (c_abs d) = false -> fge (c_abs d) fzero = true) /\
  (forall (self : ZerosAndPolesSISO.t) (ss : list (complex float)) i s,
      nth_error ss i = Some s ->
      is_zero (point_product s (ZerosAndPolesSISO.d1 self)
                 (ZerosAndPolesSISO.d2 self) (Complex fone fzero)) = true ->
      exists ys y,
        ZerosAndPolesSISO.evaluate_at_s self (ZerosAndPolesSISO.ArrayLike ss) 0%float
        = Ok (ZerosAndPolesSISO.ArrayValue ys) /\
        nth_error ys i = Some y /\
        c_isfinite y = false) /\
  (forall (self : ZerosAndPolesSISO.t) (s : complex float),
      ZerosAndPolesSISO.n2 self = [] ->
      ZerosAndPolesSISO.d2 self = [] ->
      is_zero (ZerosAndPolesSISO.value (ZerosAndPolesSISO.scalar_den self s)) = true ->
      ZerosAndPolesSISO.evaluate_at_s self (ZerosAndPolesSISO.Scalar s) 0%float
      = Raise (ZeroDivisionError "complex division by zero")) /\
  (forall (self : ZerosAndPolesSISO.t) (s : complex float),
      ZerosAndPolesSISO.n2 self <> [] \/ ZerosAndPolesSISO.d2 self <> [] ->
      is_zero (ZerosAndPolesSISO.value (ZerosAndPolesSISO.scalar_den self s)) = true ->
      exists y,
        ZerosAndPolesSISO.evaluate_at_s self (ZerosAndPolesSISO.Scalar s) 0%float
        = Ok (ZerosAndPolesSISO.ScalarValue (ZerosAndPolesSISO.NpComplex128 y)) /\
        c_isfinite y = false) /\
  (ZerosAndPolesSISO.__init__
     (1%float, ZerosAndPolesSISO.Sequence [],
      ZerosAndPolesSISO.Sequence [C64 huge 0; C64 huge 0; C64 1 0; C64 1 0])
   = Ok huge_poles /\
   fisnan (c_abs (ZerosAndPolesSISO.value
                    (ZerosAndPolesSISO.scalar_den huge_poles (C64 0 0)))) = true /\
   ZerosAndPolesSISO.evaluate_at_s huge_poles (ZerosAndPolesSISO.Scalar (C64 0 0))
     0%float
   = bind (ZerosAndPolesSISO.truediv
             (ZerosAndPolesSISO.scalar_num huge_poles (C64 0 0))
             (ZerosAndPolesSISO.ByFloat 0%float))
       (fun y => Ok (ZerosAndPolesSISO.ScalarValue y))).
Proof.
  split; [| split; [| split; [| split; [| split]]]].
  - intros F arith self s Hge.
    unfold ZerosAndPolesSISO.evaluate_at_s. now rewrite Hge.
  - exact c_abs_nonneg.
  - intros self ss i s Hs Hz.
    rewrite evaluate_at_s_array. do 2 eexists.
    split; [reflexivity |].
    rewrite nth_error_map, Hs. cbn [option_map].
    split; [reflexivity |].
    rewrite (select_den_zero _ Hz).
    now apply npy_divide_zero.
  - intros self s Hn2 Hd2 Hz.
    unfold ZerosAndPolesSISO.evaluate_at_s.
    unfold ZerosAndPolesSISO.scalar_num, ZerosAndPolesSISO.scalar_den in *.
    rewrite Hn2, Hd2 in *. rewrite !scalar_product_python in *.
    cbn [ZerosAndPolesSISO.value] in *.
    rewrite (c_abs_zero _ Hz).
    cbn [ZerosAndPolesSISO.truediv].
    now rewrite (c_quot_zero _ _ Hz).
  - intros self s Hsecond Hz.
    unfold ZerosAndPolesSISO.evaluate_at_s.
    rewrite (c_abs_zero _ Hz).
    assert (Hkind :
      exists y,
        ZerosAndPolesSISO.truediv (ZerosAndPolesSISO.scalar_num self s)
          (ZerosAndPolesSISO.ByScalar (ZerosAndPolesSISO.scalar_den self s))
        = Ok (ZerosAndPolesSISO.NpComplex128 y) /\
        y = npy_divide
              (ZerosAndPolesSISO.value (ZerosAndPolesSISO.scalar_num self s))
              (ZerosAndPolesSISO.value (ZerosAndPolesSISO.scalar_den self s))).
    { destruct Hsecond as [Hn | Hd].
      - unfold ZerosAndPolesSISO.scalar_num at 1.
        rewrite (scalar_product_numpy _ _ _ Hn).
        eexists. split; [reflexivity |].
        unfold ZerosAndPolesSISO.scalar_num.
        now rewrite value_scalar_product.
      - unfold ZerosAndPolesSISO.scalar_den at 1.
        rewrite (scalar_product_numpy _ _ _ Hd).
        destruct (ZerosAndPolesSISO.scalar_num self s); eexists;
          (split; [reflexivity |]);
          unfold ZerosAndPolesSISO.scalar_den;
          now rewrite value_scalar_product. }
    destruct Hkind as (y & -> & ->).
    eexists. split; [reflexivity |].
    now apply npy_divide_zero.
  - split; [vm_compute; reflexivity |].
    split; vm_compute; reflexivity.
Qed.

(** The claim fails at a pole on the real axis: the entity with the one
    pole 2, evaluated at the number 2 with [den_min = 0], raises
    [ZeroDivisionError]. *)
Lemma unguarded_division_counterexample :
  ZerosAndPolesSISO.__init__
    (1%float, ZerosAndPolesSISO.Sequence [], ZerosAndPolesSISO.Sequence [C64 2 0])
  = Ok pole_at_two /\
  In (C64 2 0) (ZerosAndPolesSISO.poles pole_at_two) /\
  ZerosAndPolesSISO.evaluate_at_s pole_at_two
    (ZerosAndPolesSISO.Scalar (C64 2 0)) 0%float
  = Raise (ZeroDivisionError "complex division by zero").
Proof.
  split; [vm_compute; reflexivity |].
  split; [left; reflexivity |].
  vm_compute. reflexivity.
Qed.

Lemma unguarded_division_witness :
  ZerosAndPolesSISO.n2 pole_at_two = [] /\
  ZerosAndPolesSISO.d2 pole_at_two = [] /\
  is_zero (ZerosAndPolesSISO.value
             (ZerosAndPolesSISO.scalar_den pole_at_two (C64 2 0))) = true /\
  ZerosAndPolesSISO.evaluate_at_s pole_at_two
    (ZerosAndPolesSISO.Scalar (C64 2 0)) 0%float
  = Raise (ZeroDivisionError "complex division by zero").
Proof.
  split; [reflexivity |]. split; [reflexivity |].
  split; [vm_compute; reflexivity |].
  apply (proj1 (proj2 (proj2 (proj2 unguarded_division))) pole_at_two (C64 2 0)).
  - reflexivity.
  - reflexivity.
  - vm_compute. reflexivity.
Defined.

(** ** The frequency range of a matrix when none is supplied *)

Section FrequencyRangeProperties.
Context {F : Type} {arith : PyFloat F} {ext : Collaborators F}.



End FrequencyRangeProperties.



(* ===================================================================== *)
(** ** Construction of the MIMO matrix *)
(* ===================================================================== *)

Section ListItems.
Context {F : Type} {A : Type}.

Lemma subscript_middle (before after : list A) (x : A) :
  subscript (F:=F) (before ++ x :: after) (Z.of_nat (length before)) = Ok x.
Proof.
  unfold subscript. rewrite length_app. cbn [length].
  destruct (Z.ltb_spec (Z.of_nat (length before)) 0); [lia |].
  destruct (Z.ltb_spec (Z.of_nat (length before)) 0); [lia |].
  destruct (Z.leb_spec (Z.of_nat (length before + S (length after)))
                       (Z.of_nat (length before))); [lia |].
  cbn [orb]. rewrite Nat2Z.id, nth_error_app2, Nat.sub_diag by lia.
  reflexivity.
Qed.

Lemma subscript_end (l : list A) :
  subscript (F:=F) l (Z.of_nat (length l))
  = Raise (IndexError "list index out of range").
Proof.
  unfold subscript.
  destruct (Z.ltb_spec (Z.of_nat (length l)) 0); [lia |].
  destruct (Z.ltb_spec (Z.of_nat (length l)) 0); [lia |].
  destruct (Z.leb_spec (Z.of_nat (length l)) (Z.of_nat (length l))); [| lia].
  reflexivity.
Qed.

Lemma sequence_item_middle (is_list : bool) (before after : list A) (x : A) :
  sequence_item (F:=F) is_list (before ++ x :: after) (Z.of_nat (length before))
  = Ok x.
Proof.
  unfold sequence_item. rewrite subscript_middle. now destruct is_list.
Qed.

Lemma sequence_item_end (is_list : bool) (l : list A) :
  sequence_item (F:=F) is_list l (Z.of_nat (length l))
  = Raise (IndexError (if is_list then "list index out of range"
                       else "tuple index out of range")).
Proof.
  unfold sequence_item. rewrite subscript_end. now destruct is_list.
Qed.

Lemma sequence_item_first (is_list : bool) (l : list A) :
  sequence_item (F:=F) is_list l 0
  = match l with
    | x :: _ => Ok x
    | [] => Raise (IndexError (if is_list then "list index out of range"
                               else "tuple index out of range"))
    end.
Proof.
  destruct l as [|x l].
  - exact (sequence_item_end is_list []).
  - exact (sequence_item_middle is_list [] l x).
Qed.

Lemma set_item_middle (before after : list A) (x y : A) :
  set_item (before ++ x :: after) (length before) y = before ++ y :: after.
Proof.
  induction before as [|a before IH]; [reflexivity |].
  cbn [app length set_item]. now rewrite IH.
Qed.
End ListItems.

Section ConstructorLoops.
Context {F : Type} {arith : PyFloat F}.
Context {X : Type} {other : OtherArguments F X}.

Lemma row_cases (r : ZerosAndPolesConstructor.row (F:=F) (X:=X)) :
  r = ZerosAndPolesConstructor.row_of (ZerosAndPolesConstructor.is_list_row r)
        (ZerosAndPolesConstructor.cells_of r).
Proof. now destruct r. Qed.

Lemma row_of_kind (is_list : bool) (cells : list (ZerosAndPolesConstructor.cell (F:=F) (X:=X))) :
  ZerosAndPolesConstructor.is_list_row (ZerosAndPolesConstructor.row_of is_list cells)
  = is_list.
Proof. now destruct is_list. Qed.

Lemma row_of_cells (is_list : bool) (cells : list (ZerosAndPolesConstructor.cell (F:=F) (X:=X))) :
  ZerosAndPolesConstructor.cells_of (ZerosAndPolesConstructor.row_of is_list cells)
  = cells.
Proof. now destruct is_list. Qed.

(** The inner loop, on the cells [j0, j0+1, ...] of row [i]. *)
Lemma inner_loop (outer : bool) (before after : list (ZerosAndPolesConstructor.row (F:=F) (X:=X)))
      (is_list : bool) (n : nat) :
  forall pre suf : list (ZerosAndPolesConstructor.cell (F:=F) (X:=X)),
    for_each (map Z.of_nat (seq (length pre) n))
      (fun rows j =>
         ZerosAndPolesConstructor.promote_at outer rows (Z.of_nat (length before)) j)
      (before ++ ZerosAndPolesConstructor.row_of is_list (pre ++ suf) :: after)
    = bind (ZerosAndPolesConstructor.promote_cells is_list n suf)
        (fun suf' =>
           Ok (before ++ ZerosAndPolesConstructor.row_of is_list (pre ++ suf') :: after)).
Proof.
  induction n as [|n IH]; intros pre suf; [reflexivity |].
  cbn [seq map for_each ZerosAndPolesConstructor.promote_cells].
  unfold ZerosAndPolesConstructor.promote_at at 1.
  rewrite sequence_item_middle. cbn [bind].
  unfold ZerosAndPolesConstructor.row_item. rewrite row_of_kind, row_of_cells.
  destruct suf as [|c suf].
  - rewrite app_nil_r, sequence_item_end. reflexivity.
  - rewrite sequence_item_middle. cbn [bind].
    assert (Hnext : forall c',
               for_each (map Z.of_nat (seq (S (length pre)) n))
                 (fun rows j =>
                    ZerosAndPolesConstructor.promote_at outer rows
                      (Z.of_nat (length before)) j)
                 (before ++ ZerosAndPolesConstructor.row_of is_list (pre ++ c' :: suf)
                         :: after)
               = bind (ZerosAndPolesConstructor.promote_cells is_list n suf)
                   (fun suf' =>
                      Ok (before ++ ZerosAndPolesConstructor.row_of is_list
                                      (pre ++ c' :: suf') :: after))).
    { intros c'.
      replace (S (length pre)) with (length (pre ++ [c']))
        by (rewrite length_app; cbn; lia).
      replace (pre ++ c' :: suf) with ((pre ++ [c']) ++ suf)
        by (now rewrite <- app_assoc).
      rewrite IH.
      destruct (ZerosAndPolesConstructor.promote_cells is_list n suf);
        cbn [bind]; [| reflexivity].
      now rewrite <- app_assoc. }
    destruct c as [e | t | x]; cbn [ZerosAndPolesConstructor.promote_cell bind].
    + rewrite Hnext.
      destruct (ZerosAndPolesConstructor.promote_cells is_list n suf);
        reflexivity.
    + destruct (ZerosAndPolesSISO.__init__ t) as [e | err]; cbn [bind];
        [| reflexivity].
      destruct is_list; cbn [ZerosAndPolesConstructor.row_of bind]; [| reflexivity].
      rewrite !Nat2Z.id, !set_item_middle.
      change (ZerosAndPolesConstructor.ListRow ?cs)
        with (ZerosAndPolesConstructor.row_of true cs).
      rewrite Hnext.
      destruct (ZerosAndPolesConstructor.promote_cells true n suf);
        reflexivity.
    + destruct (ZerosAndPolesSISO_other x) as [e | err]; cbn [bind];
        [| reflexivity].
      destruct is_list; cbn [ZerosAndPolesConstructor.row_of bind]; [| reflexivity].
      rewrite !Nat2Z.id, !set_item_middle.
      change (ZerosAndPolesConstructor.ListRow ?cs)
        with (ZerosAndPolesConstructor.row_of true cs).
      rewrite Hnext.
      destruct (ZerosAndPolesConstructor.promote_cells true n suf);
        reflexivity.
Qed.

(** The inner loop on one row is the promotion of its first [n] cells. *)
Lemma inner_loop_row (outer : bool) (before after : list (ZerosAndPolesConstructor.row (F:=F) (X:=X)))
      (r : ZerosAndPolesConstructor.row (F:=F) (X:=X)) (n : nat) :
  for_each (range (Z.of_nat n))
    (fun rows j =>
       ZerosAndPolesConstructor.promote_at outer rows (Z.of_nat (length before)) j)
    (before ++ r :: after)
  = bind (ZerosAndPolesConstructor.promote_row n r)
      (fun r' => Ok (before ++ r' :: after)).
Proof.
  unfold ZerosAndPolesConstructor.promote_row.
  rewrite (row_cases r) at 1.
  unfold range. rewrite Nat2Z.id.
  pose proof (inner_loop outer before after
                (ZerosAndPolesConstructor.is_list_row r) n []
                (ZerosAndPolesConstructor.cells_of r)) as Hinner.
  cbn [length app] in Hinner. rewrite Hinner.
  destruct (ZerosAndPolesConstructor.promote_cells _ n _);
    reflexivity.
Qed.

(** The two loops, on the rows [i0, i0+1, ...]. *)
Lemma outer_loop (outer : bool) (n : nat) (todo : list (ZerosAndPolesConstructor.row (F:=F) (X:=X))) :
  forall done : list (ZerosAndPolesConstructor.row (F:=F) (X:=X)),
    for_each (map Z.of_nat (seq (length done) (length todo)))
      (fun rows i =>
         for_each (range (Z.of_nat n))
           (fun rows j => ZerosAndPolesConstructor.promote_at outer rows i j) rows)
      (done ++ todo)
    = bind (comprehension (ZerosAndPolesConstructor.promote_row n) todo)
        (fun todo' => Ok (done ++ todo')).
Proof.
  induction todo as [|r todo IH]; intros done; [reflexivity |].
  cbn [length seq map for_each comprehension].
  rewrite inner_loop_row.
  destruct (ZerosAndPolesConstructor.promote_row n r) as [r' | e];
    cbn [bind]; [| reflexivity].
  replace (S (length done)) with (length (done ++ [r']))
    by (rewrite length_app; cbn; lia).
  replace (done ++ r' :: todo) with ((done ++ [r']) ++ todo)
    by (now rewrite <- app_assoc).
  rewrite IH.
  destruct (comprehension (ZerosAndPolesConstructor.promote_row n) todo);
    cbn [bind]; [| reflexivity].
  now rewrite <- app_assoc.
Qed.

(** [__init__] on a sequence of rows, row by row. *)
Lemma init_rows (outer : bool) (rows : list (ZerosAndPolesConstructor.row (F:=F) (X:=X))) :
  ZerosAndPolesConstructor.__init__ (ZerosAndPolesConstructor.Rows outer rows)
  = bind (sequence_item outer rows 0)
      (fun first =>
         let n := length (ZerosAndPolesConstructor.cells_of first) in
         bind (comprehension (ZerosAndPolesConstructor.promote_row n) rows)
           (fun rows' =>
              Ok {| ZerosAndPolesConstructor.zpk := rows';
                    ZerosAndPolesConstructor.nu := Z.of_nat n;
                    ZerosAndPolesConstructor.ny := Z.of_nat (length rows) |})).
Proof.
  unfold ZerosAndPolesConstructor.__init__.
  destruct (sequence_item (F:=F) outer rows 0) as [first | e]; cbn [bind];
    [| reflexivity].
  unfold range at 1. rewrite Nat2Z.id.
  pose proof (outer_loop outer (length (ZerosAndPolesConstructor.cells_of first))
                rows []) as Houter.
  cbn [length app] in Houter. rewrite Houter.
  destruct (comprehension (ZerosAndPolesConstructor.promote_row _) rows);
    reflexivity.
Qed.

Lemma promote_cell_ok (is_list : bool) (c c' : ZerosAndPolesConstructor.cell (F:=F) (X:=X)) :
  ZerosAndPolesConstructor.promote_cell is_list c = Ok c' <->
  ZerosAndPolesConstructor.cell_accepted is_list c /\
  exists e, c' = ZerosAndPolesConstructor.Entity e /\
            ZerosAndPolesConstructor.promotes c e.
Proof.
  destruct c as [e | t | x];
    cbn [ZerosAndPolesConstructor.promote_cell
         ZerosAndPolesConstructor.cell_accepted
         ZerosAndPolesConstructor.promotes].
  - split.
    + intros E. injection E as <-. split; [exact I |]. exists e. auto.
    + intros (_ & e' & -> & ->). reflexivity.
  - destruct (ZerosAndPolesSISO.__init__ t) as [e | err]; cbn [bind is_ok].
    + destruct is_list.
      * split.
        -- intros E. injection E as <-. split; [auto |]. exists e. auto.
        -- intros (_ & e' & -> & E). congruence.
      * split; [discriminate |]. intros ([_ E] & _). discriminate.
    + split; [discriminate |]. intros ([E _] & _). discriminate.
  - destruct (ZerosAndPolesSISO_other x) as [e | err]; cbn [bind is_ok].
    + destruct is_list.
      * split.
        -- intros E. injection E as <-. split; [auto |]. exists e. auto.
        -- intros (_ & e' & -> & E). congruence.
      * split; [discriminate |]. intros ([_ E] & _). discriminate.
    + split; [discriminate |]. intros ([E _] & _). discriminate.
Qed.

Lemma promote_cells_ok (is_list : bool) (n : nat) :
  forall cells cells' : list (ZerosAndPolesConstructor.cell (F:=F) (X:=X)),
    ZerosAndPolesConstructor.promote_cells is_list n cells = Ok cells' <->
    (n <= length cells)%nat /\
    Forall (ZerosAndPolesConstructor.cell_accepted is_list) (firstn n cells) /\
    exists es,
      Forall2 ZerosAndPolesConstructor.promotes (firstn n cells) es /\
      cells' = map ZerosAndPolesConstructor.Entity es ++ skipn n cells.
Proof.
  induction n as [|n IH]; intros cells cells'.
  - cbn. split.
    + intros E. injection E as <-. split; [lia |]. split; [constructor |].
      exists []. split; [constructor | reflexivity].
    + intros (_ & _ & es & Hes & ->). inversion Hes. reflexivity.
  - destruct cells as [|c cells]; cbn [ZerosAndPolesConstructor.promote_cells].
    + split; [discriminate |]. cbn. intros [H _]. lia.
    + cbn [firstn skipn length]. split.
      * intros E.
        destruct (ZerosAndPolesConstructor.promote_cell is_list c) as [c1 | err] eqn:Ec;
          cbn [bind] in E; [| discriminate].
        destruct (ZerosAndPolesConstructor.promote_cells is_list n cells) as [rest | err] eqn:Er;
          cbn [bind] in E; [| discriminate].
        injection E as <-.
        apply promote_cell_ok in Ec as (Hacc & e & -> & He).
        apply IH in Er as (Hlen & Hall & es & Hes & ->).
        split; [lia |]. split; [constructor; assumption |].
        exists (e :: es). split; [constructor; assumption | reflexivity].
      * intros (Hlen & Hall & es & Hes & ->).
        inversion Hall as [|? ? Hacc Hall']; subst.
        inversion Hes as [|? e ? es' He Hes']; subst.
        assert (Ec : ZerosAndPolesConstructor.promote_cell is_list c
                     = Ok (ZerosAndPolesConstructor.Entity e)).
        { apply promote_cell_ok. split; [assumption |]. exists e. auto. }
        rewrite Ec. cbn [bind].
        assert (Er : ZerosAndPolesConstructor.promote_cells is_list n cells
                     = Ok (map ZerosAndPolesConstructor.Entity es' ++ skipn n cells)).
        { apply IH. split; [lia |]. split; [assumption |]. exists es'. auto. }
        rewrite Er. reflexivity.
Qed.

Lemma promote_row_ok (n : nat) (r r' : ZerosAndPolesConstructor.row (F:=F) (X:=X)) :
  ZerosAndPolesConstructor.promote_row n r = Ok r' <->
  ZerosAndPolesConstructor.row_accepted n r /\
  ZerosAndPolesConstructor.promoted_row n r r'.
Proof.
  unfold ZerosAndPolesConstructor.promote_row,
    ZerosAndPolesConstructor.row_accepted, ZerosAndPolesConstructor.promoted_row.
  split.
  - intros E.
    destruct (ZerosAndPolesConstructor.promote_cells _ n _) as [cells' | err] eqn:Ec;
      cbn [bind] in E; [| discriminate].
    injection E as <-. apply promote_cells_ok in Ec as (Hlen & Hall & es & Hes & ->).
    rewrite row_of_kind, row_of_cells.
    repeat split; auto. exists es. auto.
  - intros ((Hlen & Hall) & Hkind & es & Hes & Hcells).
    assert (Ec : ZerosAndPolesConstructor.promote_cells
                   (ZerosAndPolesConstructor.is_list_row r) n
                   (ZerosAndPolesConstructor.cells_of r)
                 = Ok (ZerosAndPolesConstructor.cells_of r')).
    { apply promote_cells_ok. repeat split; auto. exists es. auto. }
    rewrite Ec. cbn [bind]. rewrite <- Hkind, <- row_cases. reflexivity.
Qed.
End ConstructorLoops.

Section ConstructorResults.
Context {F : Type} {arith : PyFloat F}.
Context {X : Type} {other : OtherArguments F X}.

Lemma accepted_promotes (is_list : bool)
      (cells : list (ZerosAndPolesConstructor.cell (F:=F) (X:=X))) :
  Forall (ZerosAndPolesConstructor.cell_accepted is_list) cells ->
  exists es, Forall2 ZerosAndPolesConstructor.promotes cells es.
Proof.
  induction 1 as [|c cells Hc _ [es Hes]].
  - exists []. constructor.
  - destruct c as [e | t | x]; cbn in Hc.
    + exists (e :: es). constructor; [reflexivity | assumption].
    + destruct Hc as [Hok _].
      destruct (ZerosAndPolesSISO.__init__ t) as [e | err] eqn:E; [| discriminate].
      exists (e :: es). constructor; assumption.
    + destruct Hc as [Hok _].
      destruct (ZerosAndPolesSISO_other x) as [e | err] eqn:E; [| discriminate].
      exists (e :: es). constructor; assumption.
Qed.

Lemma accepted_rows (n : nat) (rows : list (ZerosAndPolesConstructor.row (F:=F) (X:=X))) :
  Forall (ZerosAndPolesConstructor.row_accepted n) rows ->
  exists rows', Forall2 (ZerosAndPolesConstructor.promoted_row n) rows rows'.
Proof.
  induction 1 as [|r rows [Hlen Hr] _ [rows' Hrows']].
  - exists []. constructor.
  - destruct (accepted_promotes Hr) as [es Hes].
    exists (ZerosAndPolesConstructor.row_of (ZerosAndPolesConstructor.is_list_row r)
              (map ZerosAndPolesConstructor.Entity es
                 ++ skipn n (ZerosAndPolesConstructor.cells_of r)) :: rows').
    constructor; [| assumption].
    split; [apply row_of_kind |]. exists es. split; [assumption | apply row_of_cells].
Qed.

Lemma all_some_entities (es : list (ZerosAndPolesSISO.t (F:=F))) :
  ZerosAndPolesConstructor.all_some
    (map (ZerosAndPolesConstructor.entity_of (X:=X))
       (map ZerosAndPolesConstructor.Entity es)) = Some es.
Proof.
  induction es as [|e es IH]; [reflexivity |].
  cbn [map ZerosAndPolesConstructor.all_some ZerosAndPolesConstructor.entity_of].
  now rewrite IH.
Qed.

Lemma promoted_rows_matrix (n : nat)
      (rows rows' : list (ZerosAndPolesConstructor.row (F:=F) (X:=X))) :
  Forall (fun r => length (ZerosAndPolesConstructor.cells_of r) = n) rows ->
  Forall2 (ZerosAndPolesConstructor.promoted_row n) rows rows' ->
  exists cells,
    ZerosAndPolesConstructor.all_some
      (map (fun r => ZerosAndPolesConstructor.all_some
                       (map ZerosAndPolesConstructor.entity_of
                          (ZerosAndPolesConstructor.cells_of r))) rows')
    = Some cells /\
    Forall2 (fun r es =>
               Forall2 ZerosAndPolesConstructor.promotes
                 (ZerosAndPolesConstructor.cells_of r) es) rows cells.
Proof.
  intros Hlen Hall. induction Hall as [|r r' rows rows' Hr _ IH].
  - exists []. split; [reflexivity | constructor].
  - inversion Hlen as [|? ? Hn Hlen']; subst.
    destruct (IH Hlen') as (cells & Ecells & Hcells).
    destruct Hr as (_ & es & Hes & Er').
    rewrite firstn_all in Hes. rewrite skipn_all, app_nil_r in Er'.
    exists (es :: cells). split; [| constructor; assumption].
    cbn [map ZerosAndPolesConstructor.all_some].
    rewrite Er', all_some_entities, Ecells. reflexivity.
Qed.
End ConstructorResults.

Section ConstructorRows.
Context {F : Type} {arith : PyFloat F}.
Context {X : Type} {other : OtherArguments F X}.

(** The promotion of the rows returns exactly for accepted rows, and
    returns their promoted rows. *)
Lemma rows_promotion (n : nat)
      (rows rows' : list (ZerosAndPolesConstructor.row (F:=F) (X:=X))) :
  comprehension (ZerosAndPolesConstructor.promote_row n) rows = Ok rows' <->
  Forall (ZerosAndPolesConstructor.row_accepted n) rows /\
  Forall2 (ZerosAndPolesConstructor.promoted_row n) rows rows'.
Proof.
  rewrite comprehension_ok. split.
  - induction 1 as [|r r' l l' Hr _ [IH1 IH2]].
    + split; constructor.
    + apply promote_row_ok in Hr as [Hacc Hprom].
      split; constructor; assumption.
  - intros [Hacc Hprom].
    induction Hprom as [|r r' l l' Hr _ IH]; [constructor |].
    inversion Hacc; subst. constructor; [| apply IH; assumption].
    apply promote_row_ok. split; assumption.
Qed.

(** [__init__] on a sequence of rows that has a first row. *)
Lemma init_rows_first (outer : bool)
      (first : ZerosAndPolesConstructor.row (F:=F) (X:=X))
      (rest : list (ZerosAndPolesConstructor.row (F:=F) (X:=X))) :
  ZerosAndPolesConstructor.__init__
    (ZerosAndPolesConstructor.Rows outer (first :: rest))
  = bind (comprehension
            (ZerosAndPolesConstructor.promote_row
               (length (ZerosAndPolesConstructor.cells_of first)))
            (first :: rest))
      (fun rows' =>
         Ok {| ZerosAndPolesConstructor.zpk := rows';
               ZerosAndPolesConstructor.nu :=
                 Z.of_nat (length (ZerosAndPolesConstructor.cells_of first));
               ZerosAndPolesConstructor.ny := Z.of_nat (length (first :: rest)) |}).
Proof. rewrite init_rows, sequence_item_first. reflexivity. Qed.
End ConstructorRows.

(** X2.  On a list or tuple of rows, each row a list or a tuple,
    [ZerosAndPoles.__init__] returns exactly when the argument has a
    first row, of [n] cells say, and every row has at least [n] cells of
    which the first [n] are objects of the class or, in a row that is a
    list, arguments the SISO constructor accepts, whatever their form
    (a tuple [(k, z, p)], a tuple of the factor form, ...).  It then sets
    [nu = n], [ny] to the number of rows, and leaves every row the kind
    of sequence it was, its first [n] cells replaced by objects of the
    class and its other cells untouched. *)
Theorem constructor_rows_result :
  forall (F : Type) (arith : PyFloat F) (X : Type) (other : OtherArguments F X)
         (outer : bool)
         (rows : list (ZerosAndPolesConstructor.row (F:=F) (X:=X)))
         (a : ZerosAndPolesConstructor.attributes (F:=F) (X:=X)),
    ZerosAndPolesConstructor.__init__ (ZerosAndPolesConstructor.Rows outer rows)
    = Ok a
    <->
    exists first,
      hd_error rows = Some first /\
      Forall (ZerosAndPolesConstructor.row_accepted
                (length (ZerosAndPolesConstructor.cells_of first))) rows /\
      Forall2 (ZerosAndPolesConstructor.promoted_row
                 (length (ZerosAndPolesConstructor.cells_of first)))
              rows (ZerosAndPolesConstructor.zpk a) /\
      ZerosAndPolesConstructor.nu a
      = Z.of_nat (length (ZerosAndPolesConstructor.cells_of first)) /\
      ZerosAndPolesConstructor.ny a = Z.of_nat (length rows).
Proof.
  intros F arith X other outer rows a.
  destruct rows as [|first rows].
  - rewrite init_rows, sequence_item_first. cbn [bind hd_error].
    split; [discriminate |]. intros (first & E & _). discriminate.
  - rewrite init_rows_first.
    set (n := length (ZerosAndPolesConstructor.cells_of first)).
    set (all := first :: rows).
    split.
    + intros E. exists first. split; [reflexivity |]. fold n.
      destruct (comprehension (ZerosAndPolesConstructor.promote_row n) all)
        as [rows' | err] eqn:Ec; cbn [bind] in E; [| discriminate].
      injection E as <-. cbn.
      apply rows_promotion in Ec as [Hacc Hprom]. auto.
    + intros (first' & E & Hacc & Hprom & Hnu & Hny).
      injection E as <-. fold n in Hacc, Hprom, Hnu.
      rewrite (proj2 (rows_promotion n all (ZerosAndPolesConstructor.zpk a))
                 ltac:(split; assumption)).
      cbn [bind]. destruct a as [zpk nu ny]. cbn in *.
      now rewrite Hnu, Hny.
Qed.

(** X3.  On a rectangular argument whose cells are objects of the
    class or, in rows that are lists, tuples (or other arguments) the
    SISO constructor accepts, [ZerosAndPoles.__init__] returns; every
    cell then holds an object of the class, the matrix is well formed
    with [ny] rows and [nu] columns, and indexing the matrix at [(i, j)]
    returns the object that cell [(i, j)] of the argument was or was
    built into. *)
Theorem constructor_rectangular :
  forall (F : Type) (arith : PyFloat F) (X : Type) (other : OtherArguments F X)
         (outer : bool)
         (rows : list (ZerosAndPolesConstructor.row (F:=F) (X:=X)))
         (first : ZerosAndPolesConstructor.row (F:=F) (X:=X)),
    hd_error rows = Some first ->
    Forall (fun r =>
              length (ZerosAndPolesConstructor.cells_of r)
              = length (ZerosAndPolesConstructor.cells_of first) /\
              Forall (ZerosAndPolesConstructor.cell_accepted
                        (ZerosAndPolesConstructor.is_list_row r))
                     (ZerosAndPolesConstructor.cells_of r))
           rows ->
    exists a m,
      ZerosAndPolesConstructor.__init__ (ZerosAndPolesConstructor.Rows outer rows)
      = Ok a /\
      ZerosAndPolesConstructor.matrix_of a = Some m /\
      ZerosAndPoles.well_formed m /\
      ZerosAndPoles.ny m = Z.of_nat (length rows) /\
      ZerosAndPoles.nu m = Z.of_nat (length (ZerosAndPolesConstructor.cells_of first)) /\
      forall (i j : nat) r c,
        nth_error rows i = Some r ->
        nth_error (ZerosAndPolesConstructor.cells_of r) j = Some c ->
        exists e,
          ZerosAndPolesConstructor.promotes c e /\
          ZerosAndPoles.__getitem__ m [Z.of_nat i; Z.of_nat j] = Ok e.
Proof.
  intros F arith X other outer rows first Hfirst Hall.
  set (n := length (ZerosAndPolesConstructor.cells_of first)) in *.
  assert (Hacc : Forall (ZerosAndPolesConstructor.row_accepted n) rows).
  { eapply Forall_impl; [| exact Hall]. intros r [Hlen Hcells].
    split; [lia |]. rewrite <- Hlen, firstn_all. exact Hcells. }
  assert (Hlen : Forall (fun r => length (ZerosAndPolesConstructor.cells_of r) = n) rows).
  { eapply Forall_impl; [| exact Hall]. now intros r [Hlen _]. }
  destruct (accepted_rows Hacc) as [rows' Hprom].
  destruct (promoted_rows_matrix Hlen Hprom) as (cells & Ecells & Hcells).
  set (a := {| ZerosAndPolesConstructor.zpk := rows';
               ZerosAndPolesConstructor.nu := Z.of_nat n;
               ZerosAndPolesConstructor.ny := Z.of_nat (length rows) |}).
  set (m := {| ZerosAndPoles.zpk := cells;
               ZerosAndPoles.nu := Z.of_nat n;
               ZerosAndPoles.ny := Z.of_nat (length rows) |}).
  assert (Hwf : ZerosAndPoles.well_formed m).
  { split; cbn.
    - f_equal. eapply Forall2_length; eassumption.
    - clear -Hlen Hcells. induction Hcells as [|r es l l' Hr _ IH]; [constructor |].
      inversion Hlen as [|? ? Hn Hlen']; subst. constructor; [| apply IH; assumption].
      cbn. f_equal. rewrite <- Hn. symmetry. eapply Forall2_length; eassumption. }
  exists a, m. split.
  { destruct rows as [|first' rest]; [discriminate |].
    injection Hfirst as ->. rewrite init_rows_first. fold n.
    now rewrite (proj2 (rows_promotion n (first :: rest) rows') ltac:(split; assumption)). }
  split. { unfold ZerosAndPolesConstructor.matrix_of. cbn. now rewrite Ecells. }
  split; [exact Hwf |]. split; [reflexivity |]. split; [reflexivity |].
  intros i j r c Hr Hc.
  assert (Hi : (i < length rows)%nat) by (apply nth_error_Some; congruence).
  assert (Hrn : length (ZerosAndPolesConstructor.cells_of r) = n).
  { rewrite Forall_forall in Hlen. apply Hlen. eapply nth_error_In; eassumption. }
  assert (Hj : (j < n)%nat) by (rewrite <- Hrn; apply nth_error_Some; congruence).
  rewrite getitem_pair. cbn [ZerosAndPoles.ny ZerosAndPoles.nu m].
  destruct (Z.ltb_spec (Z.of_nat i) 0); [lia |].
  destruct (Z.leb_spec (Z.of_nat (length rows)) (Z.of_nat i)); [lia |].
  destruct (Z.ltb_spec (Z.of_nat j) 0); [lia |].
  destruct (Z.leb_spec (Z.of_nat n) (Z.of_nat j)); [lia |].
  cbn [orb].
  destruct (@cell_in_range F m (Z.of_nat i) (Z.of_nat j) Hwf) as (es & e & Hes & He & ->);
    [cbn; lia | cbn; lia |].
  exists e. split; [| reflexivity].
  rewrite Nat2Z.id in Hes, He. cbn in Hes.
  clear -Hcells Hr Hc Hes He.
  revert i Hr Hes. induction Hcells as [|r0 es0 l l' Hr0 _ IH]; intros i Hr Hes.
  - destruct i; discriminate.
  - destruct i as [|i].
    + cbn in Hr, Hes. injection Hr as ->. injection Hes as ->.
      clear -Hr0 Hc He. revert j Hc He.
      induction Hr0 as [|c0 e0 cs es' H0 _ IH]; intros j Hc He.
      * destruct j; discriminate.
      * destruct j as [|j]; cbn in Hc, He.
        -- injection Hc as ->. injection He as ->. exact H0.
        -- eapply IH; eassumption.
    + cbn in Hr, Hes. eapply IH; eassumption.
Qed.

Lemma constructor_rectangular_witness :
  hd_error sample_rows
  = Some (ZerosAndPolesConstructor.ListRow [raw_cell 1; raw_cell 2; raw_cell 3]) /\
  exists a m,
    ZerosAndPolesConstructor.__init__ (other := four_elements)
      (ZerosAndPolesConstructor.Rows true sample_rows) = Ok a /\
    ZerosAndPolesConstructor.matrix_of a = Some m /\
    ZerosAndPoles.well_formed m /\
    ZerosAndPoles.ny m = 2%Z /\
    ZerosAndPoles.nu m = 3%Z.
Proof.
  split; [reflexivity |].
  destruct (@constructor_rectangular float Float64 unit four_elements true sample_rows
              (ZerosAndPolesConstructor.ListRow [raw_cell 1; raw_cell 2; raw_cell 3])
              eq_refl) as (a & m & Ha & Hm & Hwf & Hny & Hnu & _).
  - repeat constructor.
  - exists a, m. repeat split; try assumption; apply Hwf.
Defined.

(* ===================================================================== *)
(** ** Frequency responses *)
(* ===================================================================== *)

Section FrequencyResponseProperties.
Context {F : Type} {arith : PyFloat F} {ext : Collaborators F}.

Lemma combine_zeros (f : list F) :
  forall v : list F,
    length v = length f ->
    map (fun '(c, x) => Complex (real c) x)
        (combine (map (fun _ => Complex fzero fzero) f) v)
    = map (fun x => Complex fzero x) v.
Proof.
  induction f as [|a f IH]; intros [|x v] Hlen; try discriminate; [reflexivity |].
  cbn [map combine real]. f_equal. apply IH. now injection Hlen.
Qed.

(** The points of the imaginary axis: as many as frequencies, each with
    real part zero and the imaginary part [from_Hz] gives, a vector of
    one element being broadcast. *)
Lemma imaginary_axis_ok (f : list F) (w : list (complex F)) :
  ZerosAndPolesSISO.imaginary_axis f = Ok w ->
  length w = length f /\
  Forall (fun c => real c = fzero) w /\
  (w = map (fun x => Complex fzero x) (Misc_from_Hz f) \/
   exists x, Misc_from_Hz f = [x] /\ w = map (fun _ => Complex fzero x) f).
Proof.
  unfold ZerosAndPolesSISO.imaginary_axis.
  assert (Hgen : forall v,
             (if (length v =? length (map (fun _ : F => Complex fzero fzero) f))%nat
              then Ok (F:=F) (map (fun '(c, x) => Complex (real c) x)
                         (combine (map (fun _ => Complex fzero fzero) f) v))
              else Raise (ValueError "could not broadcast input array" None))
             = Ok w ->
             length w = length f /\
             Forall (fun c => real c = fzero) w /\
             w = map (fun x => Complex fzero x) v).
  { intros v. rewrite length_map.
    destruct (Nat.eqb_spec (length v) (length f)) as [Hlen |]; [| discriminate].
    intros E. injection E as <-. rewrite (combine_zeros f v Hlen).
    split; [now rewrite length_map |]. split; [| reflexivity].
    apply Forall_forall. intros c Hc. apply in_map_iff in Hc as (x & <- & _).
    reflexivity. }
  destruct (Misc_from_Hz f) as [|x [|x' v]] eqn:Ev.
  - intros E. destruct (Hgen [] E) as (H1 & H2 & H3). auto.
  - intros E. injection E as <-. rewrite map_map. cbn [real].
    split; [now rewrite length_map |]. split.
    + apply Forall_forall. intros c Hc. apply in_map_iff in Hc as (y & <- & _).
      reflexivity.
    + right. exists x. auto.
  - intros E. destruct (Hgen (x :: x' :: v) E) as (H1 & H2 & H3). auto.
Qed.

Lemma array_response_length (self : ZerosAndPolesSISO.t (F:=F))
      (w : list (complex F)) (den_min : F) :
  exists ys,
    ZerosAndPolesSISO.evaluate_at_s self (ZerosAndPolesSISO.ArrayLike w) den_min
    = Ok (ZerosAndPolesSISO.ArrayValue ys) /\
    length ys = length w.
Proof.
  rewrite evaluate_at_s_array. eexists. split; [reflexivity |].
  now rewrite length_map.
Qed.
End FrequencyResponseProperties.

(** X4.  When [ZerosAndPolesSISO.frequencyResponse] returns [(f, y)],
    [y] is the evaluation of the entity, with [den_min = 1e-10], on a
    vector [w] of as many points as [f] has frequencies, all of real part
    zero and with the imaginary parts [Misc.from_Hz(f)] (one value being
    broadcast to all points); [y] is an array of one response per
    frequency. *)
Theorem siso_frequencyResponse_shape :
  forall (F : Type) (arith : PyFloat F) (ext : Collaborators F)
         (self : ZerosAndPolesSISO.t (F:=F)) (n : Z) (f_range : option (F * F))
         (f_logspace : bool) (f : list F) (y : ZerosAndPolesSISO.response (F:=F)),
    ZerosAndPolesSISO.frequencyResponse self n f_range f_logspace = Ok (f, y) ->
    exists w ys,
      length w = length f /\
      Forall (fun c => real c = fzero) w /\
      (w = map (fun x => Complex fzero x) (Misc_from_Hz f) \/
       exists x, Misc_from_Hz f = [x] /\ w = map (fun _ => Complex fzero x) f) /\
      ZerosAndPolesSISO.evaluate_at_s self (ZerosAndPolesSISO.ArrayLike w) f1em10
      = Ok y /\
      y = ZerosAndPolesSISO.ArrayValue ys /\
      length ys = length f.
Proof.
  intros F arith ext self n f_range f_logspace f y.
  unfold ZerosAndPolesSISO.frequencyResponse.
  destruct (ZerosAndPolesSISO.frequencyRange self f_range) as [[lo hi] | e];
    cbn [bind]; [| discriminate].
  destruct (ZerosAndPolesSISO.frequency_points f_logspace lo hi n) as [f' | e];
    cbn [bind]; [| discriminate].
  destruct (ZerosAndPolesSISO.imaginary_axis f') as [w | e] eqn:Ew;
    cbn [bind]; [| discriminate].
  destruct (array_response_length self w f1em10) as (ys & Ey & Hlen).
  rewrite Ey. cbn [bind]. intros E. injection E as <- <-.
  apply imaginary_axis_ok in Ew as (Hw & Hre & Him).
  exists w, ys. repeat split; try assumption. congruence.
Qed.

Lemma siso_frequencyResponse_shape_witness :
  exists f y (w : list (complex float)) ys,
    ZerosAndPolesSISO.frequencyResponse (ext := sample_collaborators)
      (gain_cell 1) 10 None true = Ok (f, y) /\
    length w = length f /\
    y = ZerosAndPolesSISO.ArrayValue ys /\
    length ys = length f.
Proof.
  destruct (@siso_frequencyResponse_shape float Float64 sample_collaborators
              (gain_cell 1) 10 None true
              [1; 16]%float
              (ZerosAndPolesSISO.ArrayValue
                 (match ZerosAndPolesSISO.frequencyResponse
                          (ext := sample_collaborators) (gain_cell 1) 10 None true
                  with
                  | Ok (_, ZerosAndPolesSISO.ArrayValue ys) => ys
                  | _ => []
                  end)))
    as (w & ys & Hw & _ & _ & _ & Hy & Hys).
  - vm_compute. reflexivity.
  - do 2 eexists. exists w, ys.
    split; [vm_compute; reflexivity |]. split; [exact Hw |].
    split; [exact Hy |]. exact Hys.
Defined.

Section MatrixFrequencyResponse.
Context {F : Type} {arith : PyFloat F} {ext : Collaborators F}.

Lemma subscript_first_ok {A : Type} (l : list A) (a : A) :
  subscript (F:=F) l 0 = Ok a -> hd_error l = Some a.
Proof.
  destruct l as [|x l]; [discriminate |].
  change (subscript (F:=F) (x :: l) 0) with (Ok (F:=F) x).
  intros E. injection E as ->. reflexivity.
Qed.

(** The range is determined only when [f_range] is omitted and neither
    selection is empty; [ui] and [yi] are then bound. *)
Lemma determine_range_ok (self : ZerosAndPoles.t (F:=F))
      (u_indices y_indices : option (list Z)) (vars : ZerosAndPoles.locals (F:=F)) :
  ZerosAndPoles.determine_range self None u_indices y_indices = Ok vars ->
  ZerosAndPoles.ui vars
  = Some (ZerosAndPoles.selected (ZerosAndPoles.nu self) u_indices) /\
  ZerosAndPoles.yi vars
  = Some (ZerosAndPoles.selected (ZerosAndPoles.ny self) y_indices) /\
  ZerosAndPoles.selected (ZerosAndPoles.nu self) u_indices <> [] /\
  ZerosAndPoles.selected (ZerosAndPoles.ny self) y_indices <> [].
Proof.
  unfold ZerosAndPoles.determine_range.
  set (ui := ZerosAndPoles.selected (ZerosAndPoles.nu self) u_indices).
  set (yi := ZerosAndPoles.selected (ZerosAndPoles.ny self) y_indices).
  destruct (subscript (F:=F) yi 0) as [i0 | e] eqn:Ei; cbn [bind]; [| discriminate].
  destruct (subscript (ZerosAndPoles.zpk self) i0) as [row | e];
    cbn [bind]; [| discriminate].
  destruct (subscript (F:=F) ui 0) as [j0 | e] eqn:Ej; cbn [bind]; [| discriminate].
  destruct (subscript row j0) as [first | e]; cbn [bind]; [| discriminate].
  destruct (ZerosAndPolesSISO.frequencyRange first None) as [r0 | e];
    cbn [bind]; [| discriminate].
  match goal with
  | |- bind ?loops _ = _ -> _ => destruct loops as [r | e]
  end; cbn [bind]; [| discriminate].
  intros E. injection E as <-. cbn.
  apply subscript_first_ok in Ei, Ej.
  repeat split; intros Hnil; rewrite Hnil in *; discriminate.
Qed.

Lemma matrix_array_response (self : ZerosAndPoles.t (F:=F))
      (w : list (complex F)) (den_min : F) (ui yi : list Z)
      (Y : list (list (ZerosAndPolesSISO.response (F:=F)))) :
  ZerosAndPoles.evaluate_at_s self (ZerosAndPolesSISO.ArrayLike w) den_min
    (Some ui) (Some yi) = Ok Y ->
  length Y = length ui /\
  Forall (fun column =>
            length column = length yi /\
            Forall (fun leaf =>
                      exists ys, leaf = ZerosAndPolesSISO.ArrayValue ys /\
                                 length ys = length w) column) Y.
Proof.
  unfold ZerosAndPoles.evaluate_at_s. cbn [ZerosAndPoles.selected].
  intros E. apply comprehension_ok in E.
  split; [symmetry; eapply Forall2_length; exact E |].
  induction E as [|j column ui' Y' Hcol _ IH]; constructor; [| exact IH].
  apply comprehension_ok in Hcol.
  split; [symmetry; eapply Forall2_length; exact Hcol |].
  clear -Hcol. induction Hcol as [|i leaf yi' column' Hleaf _ IH];
    constructor; [| exact IH].
  destruct (ZerosAndPoles.cell self i j) as [c | e]; cbn [bind] in Hleaf;
    [| discriminate].
  destruct (array_response_length c w den_min) as (ys & Ey & Hlen).
  exists ys. split; [congruence | exact Hlen].
Qed.
End MatrixFrequencyResponse.

(** X5.  When [ZerosAndPoles.frequencyResponse] returns [(f, Y)], the
    argument [f_range] was omitted, neither selection of indices is
    empty, and [Y] has one column for each selected input, each column
    one entry for each selected output, each entry an array of one
    response per frequency of [f]. *)
Theorem mimo_frequencyResponse_shape :
  forall (F : Type) (arith : PyFloat F) (ext : Collaborators F)
         (self : ZerosAndPoles.t (F:=F)) (n : Z) (f_range : option (F * F))
         (f_logspace : bool) (u_indices y_indices : option (list Z))
         (f : list F) (Y : list (list (ZerosAndPolesSISO.response (F:=F)))),
    ZerosAndPoles.frequencyResponse self n f_range f_logspace u_indices y_indices
    = Ok (f, Y) ->
    let ui := ZerosAndPoles.selected (ZerosAndPoles.nu self) u_indices in
    let yi := ZerosAndPoles.selected (ZerosAndPoles.ny self) y_indices in
    f_range = None /\
    (0 < length ui)%nat /\
    (0 < length yi)%nat /\
    length Y = length ui /\
    Forall (fun column =>
              length column = length yi /\
              Forall (fun leaf =>
                        exists ys, leaf = ZerosAndPolesSISO.ArrayValue ys /\
                                   length ys = length f) column) Y.
Proof.
  intros F arith ext self n f_range f_logspace u_indices y_indices f Y E ui yi.
  unfold ZerosAndPoles.frequencyResponse in E.
  destruct (ZerosAndPoles.determine_range self f_range u_indices y_indices)
    as [vars | e] eqn:Evars; cbn [bind] in E; [| discriminate].
  destruct (ZerosAndPolesSISO.frequency_points f_logspace
              (ZerosAndPoles.f_min vars) (ZerosAndPoles.f_max vars) n)
    as [f' | e]; cbn [bind] in E; [| discriminate].
  destruct (ZerosAndPolesSISO.imaginary_axis f') as [w | e] eqn:Ew;
    cbn [bind] in E; [| discriminate].
  destruct f_range as [[lo hi] |].
  - cbn in Evars. injection Evars as <-. discriminate.
  - apply determine_range_ok in Evars as (Hui & Hyi & Hu & Hy).
    rewrite Hui, Hyi in E. cbn [local bind] in E. fold ui yi in E, Hu, Hy.
    destruct (ZerosAndPoles.evaluate_at_s self (ZerosAndPolesSISO.ArrayLike w)
                f1em10 (Some ui) (Some yi)) as [Y' | e] eqn:EY;
      cbn [bind] in E; [| discriminate].
    injection E as <- <-.
    apply imaginary_axis_ok in Ew as (Hw & _).
    apply matrix_array_response in EY as (HY & Hcols).
    rewrite Hw in Hcols.
    split; [reflexivity |].
    split; [destruct ui; [congruence | cbn; lia] |].
    split; [destruct yi; [congruence | cbn; lia] |].
    split; assumption.
Qed.

Lemma mimo_frequencyResponse_shape_witness :
  exists f Y,
    ZerosAndPoles.frequencyResponse (ext := sample_collaborators)
      sample_matrix 10 None false None (Some [1]%Z) = Ok (f, Y) /\
    length f = 2%nat /\
    length Y = 3%nat /\
    Forall (fun column =>
              length column = 1%nat /\
              Forall (fun leaf =>
                        exists ys, leaf = ZerosAndPolesSISO.ArrayValue ys /\
                                   length ys = 2%nat) column) Y.
Proof.
  destruct (ZerosAndPoles.frequencyResponse (ext := sample_collaborators)
              sample_matrix 10 None false None (Some [1]%Z))
    as [[f Y] | e] eqn:E; [| vm_compute in E; discriminate].
  assert (Hf : f = [1; 16]%float).
  { vm_compute in E. now injection E as <- _. }
  destruct (@mimo_frequencyResponse_shape float Float64 sample_collaborators
              sample_matrix 10 None false None (Some [1]%Z) f Y E)
    as (_ & _ & _ & HY & Hcols).
  exists f, Y. split; [reflexivity |].
  split; [now rewrite Hf |]. split; [exact HY |].
  now rewrite Hf in Hcols.
Defined.

(* ===================================================================== *)
(** ** A matrix of one cell, empty selections, negative indices *)
(* ===================================================================== *)

Section MinMax.
Context {F : Type} {arith : PyFloat F}.

Lemma py_min_same (a : F) : py_min a a = a.
Proof. unfold py_min. now destruct (flt a a). Qed.

Lemma py_max_same (a : F) : py_max a a = a.
Proof. unfold py_max. now destruct (fgt a a). Qed.
End MinMax.

(** X6.  [ZerosAndPoles(e)] on one object [e] of the class
    [ZerosAndPolesSISO] is the 1x1 matrix of [e], the one
    [ZerosAndPoles([[e]])] builds: indexing it at [(0, 0)] returns [e],
    its [evaluate_at_s] returns [[[y]]] for the [y] that
    [e.evaluate_at_s] returns, and its [frequencyResponse] without
    [f_range] returns [(f, [[y]])] for the [(f, y)] that
    [e.frequencyResponse] returns; each raises what the method of [e]
    raises. *)
Theorem one_entity_matrix :
  forall (F : Type) (arith : PyFloat F) (ext : Collaborators F)
         (X : Type) (other : OtherArguments F X)
         (e : ZerosAndPolesSISO.t (F:=F)),
  exists (a : ZerosAndPolesConstructor.attributes (F:=F) (X:=X)) m,
    ZerosAndPolesConstructor.__init__ (ZerosAndPolesConstructor.OneEntity e) = Ok a /\
    ZerosAndPolesConstructor.matrix_of a = Some m /\
    ZerosAndPoles.well_formed m /\
    (forall outer is_list,
        exists a',
          ZerosAndPolesConstructor.__init__
            (ZerosAndPolesConstructor.Rows outer
               [ZerosAndPolesConstructor.row_of is_list
                  [ZerosAndPolesConstructor.Entity e]]) = Ok a' /\
          ZerosAndPolesConstructor.matrix_of a' = Some m) /\
    ZerosAndPoles.__getitem__ m [0; 0]%Z = Ok e /\
    (forall s den_min,
        ZerosAndPoles.evaluate_at_s m s den_min None None
        = bind (ZerosAndPolesSISO.evaluate_at_s e s den_min)
            (fun y => Ok [[y]])) /\
    (forall n f_logspace,
        ZerosAndPoles.frequencyResponse m n None f_logspace None None
        = bind (ZerosAndPolesSISO.frequencyResponse e n None f_logspace)
            (fun fy => Ok (fst fy, [[snd fy]]))).
Proof.
  intros F arith ext X other e.
  exists {| ZerosAndPolesConstructor.zpk :=
              [ZerosAndPolesConstructor.ListRow [ZerosAndPolesConstructor.Entity e]];
            ZerosAndPolesConstructor.nu := 1;
            ZerosAndPolesConstructor.ny := 1 |}.
  set (m := {| ZerosAndPoles.zpk := [[e]]; ZerosAndPoles.nu := 1;
               ZerosAndPoles.ny := 1 |}).
  exists m.
  assert (Hcell : ZerosAndPoles.cell m 0 0 = Ok e) by reflexivity.
  assert (Heval : forall s den_min,
             ZerosAndPoles.evaluate_at_s m s den_min (Some [0%Z]) (Some [0%Z])
             = bind (ZerosAndPolesSISO.evaluate_at_s e s den_min)
                 (fun y => Ok [[y]])).
  { intros s den_min. unfold ZerosAndPoles.evaluate_at_s.
    cbn [ZerosAndPoles.selected comprehension]. rewrite Hcell. cbn [bind].
    destruct (ZerosAndPolesSISO.evaluate_at_s e s den_min); reflexivity. }
  split; [reflexivity |]. split; [reflexivity |].
  split; [split; [reflexivity | repeat constructor] |].
  split.
  { intros outer is_list.
    destruct outer, is_list; (eexists; split; reflexivity). }
  split; [reflexivity |].
  split; [exact Heval |].
  intros n f_logspace.
  unfold ZerosAndPoles.frequencyResponse, ZerosAndPoles.determine_range,
    ZerosAndPolesSISO.frequencyResponse.
  change (ZerosAndPoles.selected (ZerosAndPoles.nu m) None) with [0%Z].
  change (ZerosAndPoles.selected (ZerosAndPoles.ny m) None) with [0%Z].
  change (subscript (F:=F) [0%Z] 0) with (Ok (F:=F) 0%Z). cbn [bind].
  change (subscript (F:=F) (ZerosAndPoles.zpk m) 0) with (Ok (F:=F) [e]).
  cbn [bind].
  change (subscript (F:=F) [e] 0) with (Ok (F:=F) e). cbn [bind for_each].
  rewrite Hcell. cbn [bind].
  destruct (ZerosAndPolesSISO.frequencyRange e None) as [[lo hi] | err];
    cbn [bind fst snd]; [| reflexivity].
  rewrite py_min_same, py_max_same.
  cbn [ZerosAndPoles.f_min ZerosAndPoles.f_max ZerosAndPoles.ui ZerosAndPoles.yi].
  destruct (ZerosAndPolesSISO.frequency_points f_logspace lo hi n) as [f | err];
    cbn [bind]; [| reflexivity].
  destruct (ZerosAndPolesSISO.imaginary_axis f) as [w | err];
    cbn [bind local]; [| reflexivity].
  rewrite Heval.
  destruct (ZerosAndPolesSISO.evaluate_at_s e (ZerosAndPolesSISO.ArrayLike w) f1em10);
    reflexivity.
Qed.

Section Selections.
Context {F : Type} {arith : PyFloat F} {ext : Collaborators F}.

Lemma comprehension_empty_rows {A B : Type} (l : list A) :
  comprehension (F:=F) (fun _ : A => Ok (@nil B)) l = Ok (map (fun _ => []) l).
Proof.
  induction l as [|a l IH]; [reflexivity |].
  cbn [comprehension map bind]. now rewrite IH.
Qed.

Lemma subscript_raises {A : Type} (l : list A) (i : Z) (e : exn F) :
  subscript l i = Raise e -> failure_of e = Some OutOfRange.
Proof.
  unfold subscript.
  destruct (_ || _)%bool; [intros E; injection E as <-; reflexivity |].
  destruct (nth_error l _); [discriminate |].
  intros E; injection E as <-; reflexivity.
Qed.
End Selections.

(** X7.  With an empty selection of inputs or of outputs,
    [ZerosAndPoles.frequencyResponse] without [f_range] raises an
    [IndexError] (it reads the first selected cell), whereas
    [evaluate_at_s] returns: one empty column for each selected input. *)
Theorem empty_selection :
  forall (F : Type) (arith : PyFloat F) (ext : Collaborators F)
         (self : ZerosAndPoles.t (F:=F)) (u_indices y_indices : option (list Z)),
    let ui := ZerosAndPoles.selected (ZerosAndPoles.nu self) u_indices in
    let yi := ZerosAndPoles.selected (ZerosAndPoles.ny self) y_indices in
    ui = [] \/ yi = [] ->
    (forall n f_logspace,
        exists e,
          ZerosAndPoles.frequencyResponse self n None f_logspace u_indices y_indices
          = Raise e /\
          failure_of e = Some OutOfRange) /\
    (forall s den_min,
        ZerosAndPoles.evaluate_at_s self s den_min u_indices y_indices
        = Ok (map (fun _ => []) ui)).
Proof.
  intros F arith ext self u_indices y_indices ui yi Hempty. split.
  - intros n f_logspace.
    unfold ZerosAndPoles.frequencyResponse, ZerosAndPoles.determine_range.
    fold ui yi.
    destruct (subscript (F:=F) yi 0) as [i0 | e] eqn:Ei; cbn [bind].
    + destruct (subscript (ZerosAndPoles.zpk self) i0) as [row | e] eqn:Erow;
        cbn [bind].
      * destruct Hempty as [Hu | Hy]; [| rewrite Hy in Ei; discriminate].
        rewrite Hu. eexists. split; reflexivity.
      * exists e. split; [reflexivity |]. eapply subscript_raises; eassumption.
    + exists e. split; [reflexivity |]. eapply subscript_raises; eassumption.
  - intros s den_min. unfold ZerosAndPoles.evaluate_at_s. fold ui yi.
    destruct Hempty as [-> | ->]; [reflexivity |].
    cbn [comprehension]. apply comprehension_empty_rows.
Qed.

Lemma empty_selection_witness :
  ZerosAndPoles.selected (ZerosAndPoles.ny sample_matrix) (Some []) = [] /\
  (exists e,
      ZerosAndPoles.frequencyResponse (ext := sample_collaborators)
        sample_matrix 10 None true None (Some []) = Raise e /\
      failure_of e = Some OutOfRange) /\
  ZerosAndPoles.evaluate_at_s sample_matrix
    (ZerosAndPolesSISO.Scalar (C64 0 1)) 0%float None (Some [])
  = Ok [[]; []; []].
Proof.
  split; [reflexivity |].
  destruct (@empty_selection float Float64 sample_collaborators sample_matrix
              None (Some []) (or_intror eq_refl)) as [Hresp Heval].
  split; [exact (Hresp 10%Z true) |].
  exact (Heval (ZerosAndPolesSISO.Scalar (C64 0 1)) 0%float).
Defined.

Section NegativeIndices.
Context {F : Type} {arith : PyFloat F}.

(** An index in [-n, n) selects the item [i mod n]. *)
Lemma subscript_mod {A : Type} (l : list A) (i : Z) :
  (- Z.of_nat (length l) <= i < Z.of_nat (length l))%Z ->
  subscript (F:=F) l i = subscript l (i mod Z.of_nat (length l)).
Proof.
  intros Hi.
  destruct (Z.ltb_spec i 0) as [Hneg | Hpos].
  - replace (i mod Z.of_nat (length l))%Z with (i + Z.of_nat (length l))%Z.
    + unfold subscript. cbv zeta.
      assert (E1 : (i <? 0)%Z = true) by (apply Z.ltb_lt; lia).
      assert (E2 : (i + Z.of_nat (length l) <? 0)%Z = false)
        by (apply Z.ltb_ge; lia).
      rewrite E1, !E2. reflexivity.
    + apply Z.mod_unique with (q := (-1)%Z); lia.
  - now rewrite Z.mod_small by lia.
Qed.

Lemma subscript_outside {A : Type} (l : list A) (i : Z) :
  (i < - Z.of_nat (length l) \/ Z.of_nat (length l) <= i)%Z ->
  subscript (F:=F) l i = Raise (IndexError "list index out of range").
Proof.
  intros Hi. unfold subscript. cbv zeta.
  destruct (Z.ltb_spec i 0).
  - assert (E : (i + Z.of_nat (length l) <? 0)%Z = true)
      by (apply Z.ltb_lt; lia).
    now rewrite E.
  - assert (E : (Z.of_nat (length l) <=? i)%Z = true) by (apply Z.leb_le; lia).
    rewrite E. now rewrite orb_true_r.
Qed.

Lemma cell_mod (self : ZerosAndPoles.t (F:=F)) (i j : Z) :
  ZerosAndPoles.well_formed self ->
  (- ZerosAndPoles.ny self <= i < ZerosAndPoles.ny self)%Z ->
  (- ZerosAndPoles.nu self <= j < ZerosAndPoles.nu self)%Z ->
  ZerosAndPoles.cell self i j
  = ZerosAndPoles.cell self (i mod ZerosAndPoles.ny self) (j mod ZerosAndPoles.nu self)
  /\ is_ok (ZerosAndPoles.cell self i j) = true.
Proof.
  intros [Hny Hrows] Hi Hj. unfold ZerosAndPoles.cell.
  rewrite Hny in *. rewrite <- subscript_mod by exact Hi.
  destruct (subscript_in_range (F:=F) (ZerosAndPoles.zpk self)
              (i := (i mod Z.of_nat (length (ZerosAndPoles.zpk self)))%Z))
    as (row & Hrow & Erow).
  { apply Z.mod_pos_bound. lia. }
  rewrite <- subscript_mod in Erow by exact Hi. rewrite Erow. cbn [bind].
  assert (Hlen : Z.of_nat (length row) = ZerosAndPoles.nu self).
  { rewrite Forall_forall in Hrows. apply Hrows.
    eapply nth_error_In; eassumption. }
  rewrite <- Hlen in *. rewrite <- subscript_mod by exact Hj.
  split; [reflexivity |].
  destruct (subscript_in_range (F:=F) row (i := (j mod Z.of_nat (length row))%Z))
    as (c & _ & Ec).
  { apply Z.mod_pos_bound. lia. }
  rewrite <- subscript_mod in Ec by exact Hj. now rewrite Ec.
Qed.

Lemma comprehension_map {A B C : Type} (g : A -> B) (f : B -> result F C)
      (l : list A) :
  comprehension f (map g l) = comprehension (fun a => f (g a)) l.
Proof.
  induction l as [|a l IH]; [reflexivity |].
  cbn [map comprehension]. now rewrite IH.
Qed.

Lemma comprehension_ext {A B : Type} (f g : A -> result F B) (l : list A) :
  Forall (fun a => f a = g a) l -> comprehension f l = comprehension g l.
Proof.
  induction 1 as [|a l Ha _ IH]; [reflexivity |].
  cbn [comprehension]. now rewrite Ha, IH.
Qed.
End NegativeIndices.

(** X8.  [ZerosAndPoles.evaluate_at_s] reads the cells with Python's
    indexing: on a well-formed matrix a selected index [i] with
    [-ny <= i < ny] (and [j] with [-nu <= j < nu]) selects row
    [i mod ny] (column [j mod nu]), so that negative indices count from
    the end and raise nothing, where [__getitem__] rejects them. *)
Theorem evaluate_at_s_negative_indices :
  forall (F : Type) (arith : PyFloat F) (self : ZerosAndPoles.t (F:=F))
         (s : ZerosAndPolesSISO.points (F:=F)) (den_min : F) (ui yi : list Z),
    ZerosAndPoles.well_formed self ->
    Forall (fun j => (- ZerosAndPoles.nu self <= j < ZerosAndPoles.nu self)%Z) ui ->
    Forall (fun i => (- ZerosAndPoles.ny self <= i < ZerosAndPoles.ny self)%Z) yi ->
    ZerosAndPoles.evaluate_at_s self s den_min (Some ui) (Some yi)
    = ZerosAndPoles.evaluate_at_s self s den_min
        (Some (map (fun j => (j mod ZerosAndPoles.nu self)%Z) ui))
        (Some (map (fun i => (i mod ZerosAndPoles.ny self)%Z) yi)) /\
    Forall (fun j =>
              Forall (fun i => is_ok (ZerosAndPoles.cell self i j) = true) yi) ui.
Proof.
  intros F arith self s den_min ui yi Hwf Hui Hyi. split.
  - unfold ZerosAndPoles.evaluate_at_s. cbn [ZerosAndPoles.selected].
    rewrite comprehension_map. apply comprehension_ext.
    eapply Forall_impl; [| exact Hui]. intros j Hj. cbn beta.
    rewrite comprehension_map. apply comprehension_ext.
    eapply Forall_impl; [| exact Hyi]. intros i Hi. cbn beta.
    cbn beta in Hi, Hj. now rewrite (proj1 (cell_mod Hwf Hi Hj)).
  - eapply Forall_impl; [| exact Hui]. intros j Hj. cbn beta.
    eapply Forall_impl; [| exact Hyi]. intros i Hi. cbn beta.
    cbn beta in Hi, Hj. exact (proj2 (cell_mod Hwf Hi Hj)).
Qed.

Lemma evaluate_at_s_negative_indices_witness :
  ZerosAndPoles.well_formed sample_matrix /\
  ZerosAndPoles.evaluate_at_s sample_matrix
    (ZerosAndPolesSISO.Scalar (C64 0 1)) 0%float (Some [-1; 0]%Z) (Some [-2]%Z)
  = ZerosAndPoles.evaluate_at_s sample_matrix
      (ZerosAndPolesSISO.Scalar (C64 0 1)) 0%float (Some [2; 0]%Z) (Some [0]%Z) /\
  is_ok (ZerosAndPoles.__getitem__ sample_matrix [-2; -1]%Z) = false.
Proof.
  split; [exact sample_matrix_well_formed |].
  split; [| reflexivity].
  refine (proj1 (@evaluate_at_s_negative_indices float Float64 sample_matrix
                   (ZerosAndPolesSISO.Scalar (C64 0 1)) 0%float
                   [-1; 0]%Z [-2]%Z sample_matrix_well_formed _ _)).
  - repeat constructor; cbn; lia.
  - repeat constructor; cbn; lia.
Defined.

(** X9.  The accessors [zeros()] and [poles()] return what was
    constructed from: an entity built from [(k, z, p)] is rebuilt by
    the constructor from [(k', zeros(), poles())] with the gain
    replaced, which is what [set_k(k')] makes of it; with [k' = k] the
    entity itself is rebuilt. *)
Theorem reconstruct_from_accessors :
  forall (F : Type) (arith : PyFloat F) (k0 : F)
         (z0 p0 : ZerosAndPolesSISO.array_like (F:=F))
         (self : ZerosAndPolesSISO.t (F:=F)),
    ZerosAndPolesSISO.__init__ (k0, z0, p0) = Ok self ->
    ZerosAndPolesSISO.zeros self = ZerosAndPolesSISO.ndmin1 z0 /\
    ZerosAndPolesSISO.poles self = ZerosAndPolesSISO.ndmin1 p0 /\
    (forall k_new,
        ZerosAndPolesSISO.__init__
          (k_new, ZerosAndPolesSISO.Sequence (ZerosAndPolesSISO.zeros self),
           ZerosAndPolesSISO.Sequence (ZerosAndPolesSISO.poles self))
        = Ok (ZerosAndPolesSISO.set_k self k_new)) /\
    ZerosAndPolesSISO.set_k self k0 = self.
Proof.
  intros F arith k0 z0 p0 self Hinit.
  apply init_ok_inv in Hinit as (Hn2 & Hd2 & Hk & Hn1 & Hd1 & Hz & Hp).
  unfold ZerosAndPolesSISO.zeros, ZerosAndPolesSISO.poles.
  split; [exact Hz |]. split; [exact Hp |]. split.
  - intros k_new. rewrite init_unfold, !partition_roots_filters.
    cbn [ZerosAndPolesSISO.ndmin1 fst snd]. rewrite Hz, Hp, Hn2, Hd2.
    cbn [bind]. unfold ZerosAndPolesSISO.set_k. now rewrite Hn1, Hd1, Hz, Hp.
  - destruct self. unfold ZerosAndPolesSISO.set_k. cbn in *. now rewrite Hk.
Qed.

Lemma reconstruct_from_accessors_witness :
  exists self,
    ZerosAndPolesSISO.__init__
      (sample_gain, ZerosAndPolesSISO.Sequence sample_zeros,
       ZerosAndPolesSISO.Sequence sample_poles) = Ok self /\
    ZerosAndPolesSISO.__init__
      (1%float, ZerosAndPolesSISO.Sequence (ZerosAndPolesSISO.zeros self),
       ZerosAndPolesSISO.Sequence (ZerosAndPolesSISO.poles self))
    = Ok (ZerosAndPolesSISO.set_k self 1%float).
Proof.
  destruct (ZerosAndPolesSISO.__init__
              (sample_gain, ZerosAndPolesSISO.Sequence sample_zeros,
               ZerosAndPolesSISO.Sequence sample_poles))
    as [self | e] eqn:E; [| vm_compute in E; discriminate].
  exists self. split; [reflexivity |].
  exact (proj1 (proj2 (proj2
           (@reconstruct_from_accessors float Float64 sample_gain
              (ZerosAndPolesSISO.Sequence sample_zeros)
              (ZerosAndPolesSISO.Sequence sample_poles) self E))) 1%float).
Defined.

(* ===================================================================== *)
(** ** Evaluation without rounding *)
(* ===================================================================== *)

Section ExactEvaluation.
Local Open Scope R_scope.

Lemma exact_c_quot_zero (a b : complex R) :
  real b = 0 -> imag b = 0 ->
  c_quot a b = Raise (ZeroDivisionError "complex division by zero").
Proof.
  intros Hre Him. unfold c_quot. rewrite !exact_abs_branch, Hre, Him, Rabs_R0.
  assert (E1 : fge 0 0 = true) by (apply exact_fge; lra).
  assert (E2 : feq 0 (fzero (F:=R)) = true) by (apply exact_feq; reflexivity).
  now rewrite E1, E2.
Qed.

(** Where Python's division returns, numpy's returns the same. *)
Lemma exact_c_quot_ok (a b q : complex R) :
  c_quot a b = Ok q -> npy_divide a b = q.
Proof.
  intros E.
  destruct (Req_dec (real b) 0) as [Hre | Hre];
    [destruct (Req_dec (imag b) 0) as [Him | Him] |].
  - rewrite exact_c_quot_zero in E by assumption. discriminate.
  - destruct (@exact_division a b (or_intror Him)) as (q' & E' & <-). congruence.
  - destruct (@exact_division a b (or_introl Hre)) as (q' & E' & <-). congruence.
Qed.

Lemma exact_truediv_value (num : ZerosAndPolesSISO.pyscalar)
      (den2 : ZerosAndPolesSISO.divisor) (y : ZerosAndPolesSISO.pyscalar) :
  ZerosAndPolesSISO.truediv num den2 = Ok y ->
  ZerosAndPolesSISO.value y
  = npy_divide (ZerosAndPolesSISO.value num)
      match den2 with
      | ZerosAndPolesSISO.ByScalar den => ZerosAndPolesSISO.value den
      | ZerosAndPolesSISO.ByFloat x => of_real x
      end.
Proof.
  destruct num as [a | a], den2 as [[b | b] | x];
    cbn [ZerosAndPolesSISO.truediv ZerosAndPolesSISO.value];
    try (intros E; injection E as <-; reflexivity).
  - destruct (c_quot a b) as [q | e] eqn:Eq; cbn [bind]; [| discriminate].
    intros E. injection E as <-. symmetry. now apply exact_c_quot_ok.
  - destruct (c_quot a (of_real x)) as [q | e] eqn:Eq; cbn [bind]; [| discriminate].
    intros E. injection E as <-. symmetry. now apply exact_c_quot_ok.
Qed.

Lemma exact_gain_start (k0 : R) :
  c_prod (of_real k0) (Complex fone fzero) = of_real k0.
Proof. apply complex_eq; cbn; ring. Qed.

(** numpy's quotient by a nonzero number, multiplied back. *)
Lemma exact_npy_divide_mul (a b : complex R) :
  real b <> 0 \/ imag b <> 0 -> c_prod (npy_divide a b) b = a.
Proof.
  intros Hb. unfold npy_divide. cbn [fabs Exact].
  assert (Hsq : real b * real b + imag b * imag b <> 0) by nra.
  destruct (fge (Rabs (real b)) (Rabs (imag b))) eqn:Hge.
  - apply exact_fge in Hge.
    assert (Hre : real b <> 0).
    { intros E. rewrite E, Rabs_R0 in Hge.
      pose proof (Rabs_pos (imag b)) as Hpos.
      assert (Him : Rabs (imag b) = 0) by lra.
      destruct Hb as [Hb | Hb]; [contradiction |].
      apply Hb. destruct (Req_dec (imag b) 0) as [E0 | E0]; [assumption |].
      apply Rabs_no_R0 in E0. contradiction. }
    assert (Habs : Rabs (real b) <> 0) by now apply Rabs_no_R0.
    destruct (feq (Rabs (real b)) fzero) eqn:Hz.
    { apply exact_feq in Hz. cbn in Hz. contradiction. }
    cbn [andb]. destruct a, b; apply complex_eq; cbn in *; field; split; auto; nra.
  - assert (Hlt : Rabs (real b) < Rabs (imag b)).
    { destruct (Rle_or_lt (Rabs (imag b)) (Rabs (real b))) as [Hle | Hlt];
        [| assumption].
      apply exact_fge in Hle. congruence. }
    assert (Him : imag b <> 0).
    { intros E. rewrite E, Rabs_R0 in Hlt.
      pose proof (Rabs_pos (real b)). lra. }
    destruct a, b; apply complex_eq; cbn in *; field; split; auto; nra.
Qed.

Lemma exact_abs_mul (a b : complex R) :
  c_abs (c_prod a b) = c_abs a * c_abs b.
Proof.
  unfold c_abs. cbn [fhypot Exact c_prod real imag fmul fsub fadd].
  rewrite <- sqrt_mult by nra. f_equal. ring.
Qed.

Lemma exact_abs_real (x : R) : 0 <= x -> c_abs (of_real x) = x.
Proof.
  intros Hx. unfold c_abs. cbn [fhypot Exact of_real real imag fzero].
  replace (x * x + 0 * 0) with (x * x) by ring. now apply sqrt_square.
Qed.

(** The divisor the array branch selects is at least [den_min] in
    magnitude. *)
Lemma exact_select_den (den_min : R) (den : complex R) :
  0 < den_min ->
  den_min <= c_abs (ZerosAndPolesSISO.select_den den_min den) /\
  (real (ZerosAndPolesSISO.select_den den_min den) <> 0 \/
   imag (ZerosAndPolesSISO.select_den den_min den) <> 0).
Proof.
  intros Hpos. unfold ZerosAndPolesSISO.select_den.
  cbn [fmul fone Exact]. rewrite Rmult_1_r.
  destruct (fge (c_abs den) den_min) eqn:Hge.
  - apply exact_fge in Hge. split; [exact Hge |].
    destruct (Req_dec (real den) 0) as [Hre | Hre]; [| now left].
    destruct (Req_dec (imag den) 0) as [Him | Him]; [| now right].
    exfalso. unfold c_abs in Hge. cbn [fhypot Exact] in Hge.
    rewrite Hre, Him in Hge.
    replace (0 * 0 + 0 * 0) with 0 in Hge by ring. rewrite sqrt_0 in Hge. lra.
  - rewrite exact_abs_real by lra. split; [lra |]. left. cbn. lra.
Qed.

Lemma point_product_scale (s : complex R) (r1 : list R) (r2 : list (R * R)) :
  forall a x,
    point_product s r1 r2 (c_prod a x) = c_prod a (point_product s r1 r2 x).
Proof.
  unfold point_product.
  assert (H1 : forall l a x,
             fold_left (fun acc zj => c_prod acc (ZerosAndPolesSISO.first_order s zj))
                       l (c_prod a x)
             = c_prod a (fold_left
                           (fun acc zj => c_prod acc (ZerosAndPolesSISO.first_order s zj))
                           l x)).
  { induction l as [|zj l IH]; intros a x; cbn [fold_left]; [reflexivity |].
    now rewrite exact_c_prod_assoc, IH. }
  assert (H2 : forall l a x,
             fold_left (fun acc ab => c_prod acc (ZerosAndPolesSISO.second_order s ab))
                       l (c_prod a x)
             = c_prod a (fold_left
                           (fun acc ab => c_prod acc (ZerosAndPolesSISO.second_order s ab))
                           l x)).
  { induction l as [|ab l IH]; intros a x; cbn [fold_left]; [reflexivity |].
    now rewrite exact_c_prod_assoc, IH. }
  intros a x. now rewrite H1, H2.
Qed.
End ExactEvaluation.

(** X10.  Without rounding the two branches of
    [ZerosAndPolesSISO.evaluate_at_s] agree: when the call on a scalar
    [s] returns [y], the call on an array returns [y] at every position
    that holds [s]. *)
Theorem exact_scalar_array_agreement :
  forall (self : ZerosAndPolesSISO.t (F:=R)) (s : complex R) (den_min : R)
         (y : ZerosAndPolesSISO.pyscalar (F:=R)),
    ZerosAndPolesSISO.evaluate_at_s self (ZerosAndPolesSISO.Scalar s) den_min
    = Ok (ZerosAndPolesSISO.ScalarValue y) ->
    forall (ss : list (complex R)) (i : nat),
      nth_error ss i = Some s ->
      exists ys,
        ZerosAndPolesSISO.evaluate_at_s self (ZerosAndPolesSISO.ArrayLike ss) den_min
        = Ok (ZerosAndPolesSISO.ArrayValue ys) /\
        nth_error ys i = Some (ZerosAndPolesSISO.value y).
Proof.
  intros self s den_min y Hscalar ss i Hs.
  rewrite evaluate_at_s_array. eexists. split; [reflexivity |].
  rewrite nth_error_map, Hs. cbn [option_map]. f_equal.
  unfold ZerosAndPolesSISO.evaluate_at_s in Hscalar.
  destruct (ZerosAndPolesSISO.truediv _ _) as [y' | e] eqn:Ediv;
    cbn [bind] in Hscalar; [| discriminate].
  injection Hscalar as <-.
  apply exact_truediv_value in Ediv. rewrite Ediv.
  assert (Hnum : ZerosAndPolesSISO.value (ZerosAndPolesSISO.scalar_num self s)
                 = point_product s (ZerosAndPolesSISO.n1 self)
                     (ZerosAndPolesSISO.n2 self)
                     (of_real (ZerosAndPolesSISO.k self))).
  { unfold ZerosAndPolesSISO.scalar_num. now rewrite value_scalar_product. }
  assert (Hden : ZerosAndPolesSISO.value (ZerosAndPolesSISO.scalar_den self s)
                 = point_product s (ZerosAndPolesSISO.d1 self)
                     (ZerosAndPolesSISO.d2 self) (Complex fone fzero)).
  { unfold ZerosAndPolesSISO.scalar_den. now rewrite value_scalar_product. }
  rewrite exact_gain_start, Hnum. f_equal.
  unfold ZerosAndPolesSISO.select_den.
  replace (fmul den_min fone) with den_min by (cbn; ring).
  rewrite <- Hden.
  destruct (fge (c_abs (ZerosAndPolesSISO.value
                          (ZerosAndPolesSISO.scalar_den self s))) den_min);
    reflexivity.
Qed.

Lemma exact_scalar_array_agreement_witness :
  let self := {| ZerosAndPolesSISO.k := 3%R;
                 ZerosAndPolesSISO.n1 := [];
                 ZerosAndPolesSISO.n2 := [];
                 ZerosAndPolesSISO.d1 := [1%R];
                 ZerosAndPolesSISO.d2 := [];
                 ZerosAndPolesSISO.z := [];
                 ZerosAndPolesSISO.p := [Complex (-1)%R 0%R] |} in
  exists y ys,
    ZerosAndPolesSISO.evaluate_at_s self
      (ZerosAndPolesSISO.Scalar (Complex 2%R 0%R)) 0%R
    = Ok (ZerosAndPolesSISO.ScalarValue y) /\
    ZerosAndPolesSISO.evaluate_at_s self
      (ZerosAndPolesSISO.ArrayLike [Complex 2%R 0%R]) 0%R
    = Ok (ZerosAndPolesSISO.ArrayValue ys) /\
    nth_error ys 0 = Some (ZerosAndPolesSISO.value y).
Proof.
  intros self.
  destruct (@exact_division (Complex 3%R 0%R)
              (c_prod (Complex 1%R 0%R) (c_sum (Complex 2%R 0%R) (Complex 1%R 0%R))))
    as (q & Hq & _).
  { left. cbn. lra. }
  assert (Hscalar :
            ZerosAndPolesSISO.evaluate_at_s self
              (ZerosAndPolesSISO.Scalar (Complex 2%R 0%R)) 0%R
            = Ok (ZerosAndPolesSISO.ScalarValue (ZerosAndPolesSISO.PyComplex q))).
  { unfold ZerosAndPolesSISO.evaluate_at_s. rewrite exact_abs_nonneg.
    cbn [ZerosAndPolesSISO.scalar_num ZerosAndPolesSISO.scalar_den
         ZerosAndPolesSISO.scalar_product ZerosAndPolesSISO.n1
         ZerosAndPolesSISO.n2 ZerosAndPolesSISO.d1 ZerosAndPolesSISO.d2
         ZerosAndPolesSISO.k self fold_left ZerosAndPolesSISO.imul
         ZerosAndPolesSISO.truediv].
    unfold ZerosAndPolesSISO.first_order, of_real. cbn [fone fzero Exact].
    cbn [fone fzero Exact] in Hq. rewrite Hq. reflexivity. }
  destruct (@exact_scalar_array_agreement self (Complex 2%R 0%R) 0%R _ Hscalar
              [Complex 2%R 0%R] 0%nat eq_refl) as (ys & Hys & Hnth).
  exists (ZerosAndPolesSISO.PyComplex q), ys. auto.
Defined.

(** X11.  Without rounding and with a positive [den_min], every value
    [ZerosAndPolesSISO.evaluate_at_s] returns for an array is bounded in
    magnitude by [|numerator(s)| / den_min]. *)
Theorem exact_floor_bounds_response :
  forall (self : ZerosAndPolesSISO.t (F:=R)) (ss : list (complex R)) (den_min : R),
    (0 < den_min)%R ->
    exists ys,
      ZerosAndPolesSISO.evaluate_at_s self (ZerosAndPolesSISO.ArrayLike ss) den_min
      = Ok (ZerosAndPolesSISO.ArrayValue ys) /\
      Forall2
        (fun s y =>
           (c_abs y
            <= c_abs (point_product s (ZerosAndPolesSISO.n1 self)
                        (ZerosAndPolesSISO.n2 self)
                        (of_real (ZerosAndPolesSISO.k self)))
               / den_min)%R)
        ss ys.
Proof.
  intros self ss den_min Hpos.
  rewrite evaluate_at_s_array. eexists. split; [reflexivity |].
  induction ss as [|s ss IH]; cbn [map]; constructor; [| exact IH].
  rewrite exact_gain_start.
  set (num := point_product s _ _ (of_real _)).
  set (den2 := ZerosAndPolesSISO.select_den den_min _).
  destruct (@exact_select_den den_min
              (point_product s (ZerosAndPolesSISO.d1 self)
                 (ZerosAndPolesSISO.d2 self) (Complex fone fzero)) Hpos)
    as [Hge Hnz].
  fold den2 in Hge, Hnz.
  pose proof (@exact_npy_divide_mul num den2 Hnz) as Hmul.
  apply (f_equal c_abs) in Hmul. rewrite exact_abs_mul in Hmul.
  assert (Hq : (0 <= c_abs (npy_divide num den2))%R)
    by (unfold c_abs; cbn [fhypot Exact]; apply sqrt_pos).
  rewrite <- Hmul.
  apply Rle_trans with (c_abs (npy_divide num den2) * den_min / den_min)%R.
  - right. field. lra.
  - unfold Rdiv. apply Rmult_le_compat_r; [left; now apply Rinv_0_lt_compat |].
    now apply Rmult_le_compat_l.
Qed.

Lemma exact_floor_bounds_response_witness :
  let self := {| ZerosAndPolesSISO.k := 3%R;
                 ZerosAndPolesSISO.n1 := [];
                 ZerosAndPolesSISO.n2 := [];
                 ZerosAndPolesSISO.d1 := [0%R];
                 ZerosAndPolesSISO.d2 := [];
                 ZerosAndPolesSISO.z := [];
                 ZerosAndPolesSISO.p := [Complex 0%R 0%R] |} in
  (0 < f1em10)%R /\
  exists ys,
    ZerosAndPolesSISO.evaluate_at_s self
      (ZerosAndPolesSISO.ArrayLike [Complex 0%R 0%R]) f1em10
    = Ok (ZerosAndPolesSISO.ArrayValue ys) /\
    Forall2
      (fun s y =>
         (c_abs y
          <= c_abs (point_product s (ZerosAndPolesSISO.n1 self)
                      (ZerosAndPolesSISO.n2 self)
                      (of_real (ZerosAndPolesSISO.k self)))
             / f1em10)%R)
      [Complex 0%R 0%R] ys.
Proof.
  intros self.
  assert (Hpos : (0 < f1em10)%R) by (cbn; lra).
  split; [exact Hpos |].
  exact (@exact_floor_bounds_response self [Complex 0%R 0%R] f1em10 Hpos).
Defined.


(* ===================================================================== *)
(** ** A positive floor in binary64 *)
(* ===================================================================== *)

Section PositiveFloor.

(** Python's division raises only on a divisor both of whose components
    are zeros. *)
Lemma c_quot_raises (a b : complex float) :
  is_ok (c_quot a b) = false -> is_zero b = true.
Proof.
  destruct b as [re im]. unfold c_quot, is_zero. cbn [real imag].
  destruct (flt re fzero) eqn:Ere; destruct (flt im fzero) eqn:Eim;
    match goal with
    | |- is_ok (if fge ?A ?B then _ else _) = false -> _ =>
        destruct (fge A B) eqn:Hge;
        [destruct (feq A fzero) eqn:Hz; [intros _ | discriminate]
        | destruct (fge B A); discriminate]
    end;
    revert Ere Eim Hge Hz;
    unfold flt, fge, feq; cbn [fcompare fopp fzero Float64];
    rewrite ?compare_spec, ?opp_spec;
    change (Prim2SF 0%float) with (S754_zero false);
    destruct (Prim2SF re) as [[|] | [|] | | [|] mr er];
    destruct (Prim2SF im) as [[|] | [|] | | [|] mi ei];
    cbn; try discriminate; reflexivity.
Qed.

Lemma positive_not_zero (x : float) :
  flt fzero x = true -> is_zero (of_real x) = false.
Proof.
  unfold flt, is_zero, feq, of_real. cbn [fcompare fzero Float64 real imag].
  rewrite !compare_spec. change (Prim2SF 0%float) with (S754_zero false).
  destruct (Prim2SF x) as [[|] | [|] | | [|] m e]; cbn; try discriminate;
    reflexivity.
Qed.

Lemma at_least_positive_not_zero (x : float) (d : complex float) :
  flt fzero x = true -> fge (c_abs d) x = true -> is_zero d = false.
Proof.
  intros Hpos Hge. destruct (is_zero d) eqn:Hz; [| reflexivity].
  exfalso. revert Hpos Hge.
  destruct (zero_cases d Hz) as [-> | [-> | [-> | ->]]];
    change (c_abs _) with 0%float;
    unfold flt, fge; cbn [fcompare fzero Float64];
    destruct (PrimFloat.compare 0 x); discriminate.
Qed.
End PositiveFloor.

(** X13.  In binary64, [ZerosAndPolesSISO.evaluate_at_s] with a
    positive [den_min] returns for every entity and every scalar point:
    the divisor is never zero, so that the division raises nothing. *)
Theorem positive_floor_never_raises :
  forall (self : ZerosAndPolesSISO.t (F:=float)) (s : complex float)
         (den_min : float),
    flt fzero den_min = true ->
    exists y,
      ZerosAndPolesSISO.evaluate_at_s self (ZerosAndPolesSISO.Scalar s) den_min
      = Ok (ZerosAndPolesSISO.ScalarValue y).
Proof.
  intros self s den_min Hpos.
  unfold ZerosAndPolesSISO.evaluate_at_s.
  set (num := ZerosAndPolesSISO.scalar_num self s).
  set (den := ZerosAndPolesSISO.scalar_den self s).
  assert (Hdiv : forall a b : complex float,
             is_zero b = false -> exists q, c_quot a b = Ok q).
  { intros a b Hb. destruct (c_quot a b) as [q | e] eqn:E; [now exists q |].
    assert (Hz : is_zero b = true) by (apply (@c_quot_raises a); now rewrite E).
    congruence. }
  destruct (fge (c_abs (ZerosAndPolesSISO.value den)) den_min) eqn:Hge.
  - pose proof (@at_least_positive_not_zero den_min _ Hpos Hge) as Hnz.
    destruct num as [a | a], den as [b | b];
      cbn [ZerosAndPolesSISO.truediv ZerosAndPolesSISO.value] in *;
      try (eexists; reflexivity).
    destruct (Hdiv a b Hnz) as [q ->]. eexists. reflexivity.
  - pose proof (@positive_not_zero den_min Hpos) as Hnz.
    destruct num as [a | a]; cbn [ZerosAndPolesSISO.truediv];
      try (eexists; reflexivity).
    destruct (Hdiv a (of_real den_min) Hnz) as [q ->]. eexists. reflexivity.
Qed.

Lemma positive_floor_never_raises_witness :
  flt (F:=float) fzero f1em10 = true /\
  exists y,
    ZerosAndPolesSISO.evaluate_at_s pole_at_two
      (ZerosAndPolesSISO.Scalar (C64 2 0)) f1em10
    = Ok (ZerosAndPolesSISO.ScalarValue y).
Proof.
  split; [reflexivity |].
  exact (@positive_floor_never_raises pole_at_two (C64 2 0) f1em10 eq_refl).
Defined.

Section OutOfRange.
Context {F : Type} {arith : PyFloat F}.

Lemma cell_outside (self : ZerosAndPoles.t (F:=F)) (i j : Z) :
  ZerosAndPoles.well_formed self ->
  (i < - ZerosAndPoles.ny self \/ ZerosAndPoles.ny self <= i \/
   j < - ZerosAndPoles.nu self \/ ZerosAndPoles.nu self <= j)%Z ->
  ZerosAndPoles.cell self i j = Raise (IndexError "list index out of range").
Proof.
  intros [Hny Hrows] Hout. unfold ZerosAndPoles.cell.
  destruct (subscript (F:=F) (ZerosAndPoles.zpk self) i) as [row | e] eqn:Erow.
  - cbn [bind].
    assert (Hi : (- ZerosAndPoles.ny self <= i < ZerosAndPoles.ny self)%Z).
    { rewrite Hny.
      destruct (Z_lt_le_dec i (- Z.of_nat (length (ZerosAndPoles.zpk self))));
        [rewrite subscript_outside in Erow by lia; discriminate |].
      destruct (Z_lt_le_dec i (Z.of_nat (length (ZerosAndPoles.zpk self))));
        [lia |].
      rewrite subscript_outside in Erow by lia; discriminate. }
    assert (Hlen : Z.of_nat (length row) = ZerosAndPoles.nu self).
    { rewrite Forall_forall in Hrows. apply Hrows.
      rewrite subscript_mod in Erow by lia.
      destruct (subscript_in_range (F:=F) (ZerosAndPoles.zpk self)
                  (i := (i mod Z.of_nat (length (ZerosAndPoles.zpk self)))%Z))
        as (row' & Hrow' & Erow').
      { apply Z.mod_pos_bound. lia. }
      rewrite Erow in Erow'. injection Erow' as ->.
      eapply nth_error_In; eassumption. }
    apply subscript_outside. lia.
  - cbn [bind]. f_equal.
    unfold subscript in Erow.
    destruct (_ || _)%bool; [now injection Erow as <- |].
    destruct (nth_error _ _); [discriminate | now injection Erow as <-].
Qed.
End OutOfRange.

(** X14.  On a well-formed matrix, [ZerosAndPoles.evaluate_at_s] with a
    selected input outside [-nu, nu) or a selected output outside
    [-ny, ny), the other selection not being empty, does not return: the
    cell it reads does not exist and the read raises [IndexError]. *)
Theorem evaluate_at_s_index_out_of_range :
  forall (F : Type) (arith : PyFloat F) (self : ZerosAndPoles.t (F:=F))
         (s : ZerosAndPolesSISO.points (F:=F)) (den_min : F)
         (u_indices y_indices : option (list Z)) (i j : Z),
    let ui := ZerosAndPoles.selected (ZerosAndPoles.nu self) u_indices in
    let yi := ZerosAndPoles.selected (ZerosAndPoles.ny self) y_indices in
    ZerosAndPoles.well_formed self ->
    In j ui -> In i yi ->
    (i < - ZerosAndPoles.ny self \/ ZerosAndPoles.ny self <= i \/
     j < - ZerosAndPoles.nu self \/ ZerosAndPoles.nu self <= j)%Z ->
    ZerosAndPoles.cell self i j = Raise (IndexError "list index out of range") /\
    is_ok (ZerosAndPoles.evaluate_at_s self s den_min u_indices y_indices) = false.
Proof.
  intros F arith self s den_min u_indices y_indices i j ui yi Hwf Hj Hi Hout.
  pose proof (cell_outside Hwf Hout) as Hcell.
  split; [exact Hcell |].
  destruct (ZerosAndPoles.evaluate_at_s self s den_min u_indices y_indices)
    as [Y | e] eqn:E; [| reflexivity].
  exfalso. unfold ZerosAndPoles.evaluate_at_s in E. fold ui yi in E.
  apply comprehension_ok in E.
  assert (Hcol : exists column,
             comprehension
               (fun i => bind (ZerosAndPoles.cell self i j)
                           (fun c => ZerosAndPolesSISO.evaluate_at_s c s den_min))
               yi = Ok column).
  { clear -E Hj. induction E as [|j' column ui' Y' Hcol _ IH]; [contradiction |].
    destruct Hj as [-> | Hj]; [now exists column | now apply IH]. }
  destruct Hcol as [column Hcol]. apply comprehension_ok in Hcol.
  clear -Hcol Hi Hcell. induction Hcol as [|i' leaf yi' column' Hleaf _ IH];
    [contradiction |].
  destruct Hi as [-> | Hi]; [| now apply IH].
  rewrite Hcell in Hleaf. discriminate.
Qed.

Lemma evaluate_at_s_index_out_of_range_witness :
  ZerosAndPoles.well_formed sample_matrix /\
  ZerosAndPoles.cell sample_matrix 0 3
  = Raise (F:=float) (IndexError "list index out of range") /\
  is_ok (ZerosAndPoles.evaluate_at_s sample_matrix
           (ZerosAndPolesSISO.Scalar (C64 0 1)) 0%float (Some [0; 3]%Z) None)
  = false.
Proof.
  split; [exact sample_matrix_well_formed |].
  apply (@evaluate_at_s_index_out_of_range float Float64 sample_matrix
           (ZerosAndPolesSISO.Scalar (C64 0 1)) 0%float (Some [0; 3]%Z) None
           0%Z 3%Z sample_matrix_well_formed).
  - right. left. reflexivity.
  - left. reflexivity.
  - cbn. lia.
Defined.

Section ConstructorIdempotent.
Context {F : Type} {arith : PyFloat F}.
Context {X : Type} {other : OtherArguments F X}.

Lemma entities_accepted (is_list : bool) (es : list (ZerosAndPolesSISO.t (F:=F))) :
  Forall (ZerosAndPolesConstructor.cell_accepted is_list)
         (map ZerosAndPolesConstructor.Entity es) /\
  Forall2 ZerosAndPolesConstructor.promotes
          (map ZerosAndPolesConstructor.Entity es) es.
Proof.
  induction es as [|e es [IH1 IH2]]; cbn [map]; split; constructor;
    try assumption; reflexivity.
Qed.

(** A promoted row is left as it is by a second promotion. *)
Lemma promoted_row_fixed (n : nat) (r r' : ZerosAndPolesConstructor.row (F:=F) (X:=X)) :
  ZerosAndPolesConstructor.row_accepted n r ->
  ZerosAndPolesConstructor.promoted_row n r r' ->
  length (ZerosAndPolesConstructor.cells_of r')
  = length (ZerosAndPolesConstructor.cells_of r) /\
  ZerosAndPolesConstructor.promote_row n r' = Ok r'.
Proof.
  intros [Hlen _] (Hkind & es & Hes & Hcells).
  assert (Hn : length es = n).
  { apply Forall2_length in Hes. rewrite length_firstn in Hes. lia. }
  split.
  - rewrite Hcells, length_app, length_map, length_skipn. lia.
  - apply promote_row_ok.
    assert (Hfirst : firstn n (ZerosAndPolesConstructor.cells_of r')
                     = map ZerosAndPolesConstructor.Entity es).
    { rewrite Hcells, firstn_app, length_map, Hn, Nat.sub_diag.
      cbn [firstn]. rewrite app_nil_r. apply firstn_all2.
      rewrite length_map. lia. }
    assert (Hrest : skipn n (ZerosAndPolesConstructor.cells_of r')
                    = skipn n (ZerosAndPolesConstructor.cells_of r)).
    { rewrite Hcells, skipn_app, length_map, Hn, Nat.sub_diag.
      cbn [skipn]. rewrite skipn_all2 by (rewrite length_map; lia).
      reflexivity. }
    split; [| split; [reflexivity |]].
    + split.
      * rewrite Hcells, length_app, length_map, length_skipn. lia.
      * rewrite Hfirst. apply (proj1 (entities_accepted _ es)).
    + exists es. rewrite Hfirst, Hrest.
      split; [apply (proj2 (entities_accepted true es)) |].
      exact Hcells.
Qed.
End ConstructorIdempotent.

(** X15.  On a list or tuple of rows, each row a list or a tuple and
    each cell of any form, construction is idempotent: the rows
    [ZerosAndPoles.__init__] leaves in [self.zpk] are accepted by the
    constructor again, which changes nothing and sets the same [nu] and
    [ny]. *)
Theorem constructor_idempotent :
  forall (F : Type) (arith : PyFloat F) (X : Type) (other : OtherArguments F X)
         (outer : bool)
         (rows : list (ZerosAndPolesConstructor.row (F:=F) (X:=X)))
         (a : ZerosAndPolesConstructor.attributes (F:=F) (X:=X)),
    ZerosAndPolesConstructor.__init__ (ZerosAndPolesConstructor.Rows outer rows)
    = Ok a ->
    ZerosAndPolesConstructor.__init__
      (ZerosAndPolesConstructor.Rows outer (ZerosAndPolesConstructor.zpk a))
    = Ok a.
Proof.
  intros F arith X other outer rows a Ha.
  assert (Hparts : exists first,
             hd_error rows = Some first /\
             Forall (ZerosAndPolesConstructor.row_accepted
                       (length (ZerosAndPolesConstructor.cells_of first))) rows /\
             Forall2 (ZerosAndPolesConstructor.promoted_row
                        (length (ZerosAndPolesConstructor.cells_of first)))
                     rows (ZerosAndPolesConstructor.zpk a) /\
             ZerosAndPolesConstructor.nu a
             = Z.of_nat (length (ZerosAndPolesConstructor.cells_of first)) /\
             ZerosAndPolesConstructor.ny a = Z.of_nat (length rows)).
  { destruct rows as [|first rest].
    - rewrite init_rows, sequence_item_first in Ha. discriminate.
    - rewrite init_rows_first in Ha. exists first.
      destruct (comprehension _ (first :: rest)) as [rows' | err] eqn:Ec;
        cbn [bind] in Ha; [| discriminate].
      injection Ha as <-. apply rows_promotion in Ec as [Hacc Hprom].
      cbn. auto. }
  destruct Hparts as (first & Hfirst & Hacc & Hprom & Hnu & Hny).
  set (n := length (ZerosAndPolesConstructor.cells_of first)) in *.
  assert (Hfixed : Forall2 (fun r r' =>
                              length (ZerosAndPolesConstructor.cells_of r')
                              = length (ZerosAndPolesConstructor.cells_of r) /\
                              ZerosAndPolesConstructor.promote_row n r' = Ok r')
                           rows (ZerosAndPolesConstructor.zpk a)).
  { clear -Hacc Hprom. induction Hprom as [|r r' l l' Hr _ IH]; [constructor |].
    inversion Hacc; subst. constructor; [| now apply IH].
    now apply promoted_row_fixed. }
  remember (ZerosAndPolesConstructor.zpk a) as rows' eqn:Erows.
  rewrite init_rows, sequence_item_first.
  destruct Hfixed as [|r r' l l' [Hlen Hr] Hrest]; [discriminate |].
  cbn in Hfirst. injection Hfirst as ->. cbn [bind].
  rewrite Hlen. fold n.
  assert (Ec : comprehension (ZerosAndPolesConstructor.promote_row n) (r' :: l')
               = Ok (r' :: l')).
  { apply comprehension_ok. constructor; [exact Hr |].
    clear -Hrest. induction Hrest as [|x x' m m' [_ Hx] _ IH]; constructor;
      assumption. }
  rewrite Ec. cbn [bind].
  destruct a as [zpk nu ny]. cbn in Erows, Hnu, Hny. subst zpk nu ny.
  do 2 f_equal.
  assert (E : length l' = length l)
    by (symmetry; eapply Forall2_length; eassumption).
  cbn [length]. now rewrite E.
Qed.

Lemma constructor_idempotent_witness :
  exists a,
    ZerosAndPolesConstructor.__init__ (other := four_elements)
      (ZerosAndPolesConstructor.Rows true sample_rows) = Ok a /\
    ZerosAndPolesConstructor.__init__ (other := four_elements)
      (ZerosAndPolesConstructor.Rows true (ZerosAndPolesConstructor.zpk a)) = Ok a.
Proof.
  destruct (ZerosAndPolesConstructor.__init__ (other := four_elements)
              (ZerosAndPolesConstructor.Rows true sample_rows))
    as [a | e] eqn:E; [| vm_compute in E; discriminate].
  exists a. split; [reflexivity |].
  exact (@constructor_idempotent float Float64 unit four_elements true sample_rows a E).
Defined.

(* ===================================================================== *)
(** ** The floor of the denominator *)
(* ===================================================================== *)

Section ExactQuotient.
Local Open Scope R_scope.

Lemma exact_factored_value (k0 : R) (r1 : list R) (r2 : list (R * R))
      (s : complex R) :
  point_product s r1 r2 (of_real k0) = factored_value k0 r1 r2 s.
Proof.
  unfold point_product, factored_value.
  generalize (of_real k0) as start.
  induction r1 as [|a r1 IH]; intros start; cbn [fold_left].
  - revert start. induction r2 as [|[a b] r2 IH2]; intros start;
      cbn [fold_left]; [reflexivity |].
    rewrite <- IH2. do 2 f_equal. apply complex_eq; cbn; ring.
  - apply IH.
Qed.

Lemma exact_c_prod_cancel (a b d : complex R) :
  real d <> 0 \/ imag d <> 0 -> c_prod a d = c_prod b d -> a = b.
Proof.
  intros Hd E.
  assert (Hsq : real d * real d + imag d * imag d <> 0) by nra.
  assert (Er := f_equal real E). assert (Ei := f_equal imag E).
  cbn in Er, Ei.
  apply complex_eq.
  - apply Rmult_eq_reg_r with (real d * real d + imag d * imag d); [| exact Hsq].
    replace (real a * (real d * real d + imag d * imag d))
      with (real d * (real a * real d - imag a * imag d)
            + imag d * (real a * imag d + imag a * real d)) by ring.
    rewrite Er, Ei. ring.
  - apply Rmult_eq_reg_r with (real d * real d + imag d * imag d); [| exact Hsq].
    replace (imag a * (real d * real d + imag d * imag d))
      with (real d * (real a * imag d + imag a * real d)
            - imag d * (real a * real d - imag a * imag d)) by ring.
    rewrite Er, Ei. ring.
Qed.

(** Without rounding a division by a nonzero divisor returns, and
    returns the number whose product with the divisor is the
    dividend. *)
Lemma exact_truediv_mul (num : ZerosAndPolesSISO.pyscalar)
      (den2 : ZerosAndPolesSISO.divisor) (d : complex R) :
  d = match den2 with
      | ZerosAndPolesSISO.ByScalar den => ZerosAndPolesSISO.value den
      | ZerosAndPolesSISO.ByFloat x => of_real x
      end ->
  real d <> 0 \/ imag d <> 0 ->
  exists y,
    ZerosAndPolesSISO.truediv num den2 = Ok y /\
    c_prod (ZerosAndPolesSISO.value y) d = ZerosAndPolesSISO.value num.
Proof.
  intros Ed Hd.
  destruct (@exact_division (ZerosAndPolesSISO.value num) d Hd) as (q & Hq & Hnp).
  pose proof (@exact_npy_divide_mul (ZerosAndPolesSISO.value num) d Hd) as Hmul.
  rewrite Hnp in Hmul. subst d.
  destruct num as [a | a], den2 as [[b | b] | x];
    cbn [ZerosAndPolesSISO.truediv ZerosAndPolesSISO.value] in *;
    try rewrite Hq; cbn [bind];
    eexists; (split; [reflexivity |]); cbn [ZerosAndPolesSISO.value];
    try rewrite Hnp; exact Hmul.
Qed.

Lemma exact_abs_zero (d : complex R) : real d = 0 -> imag d = 0 -> c_abs d = 0.
Proof.
  intros Hre Him. unfold c_abs. cbn [fhypot Exact]. rewrite Hre, Him.
  replace (0 * 0 + 0 * 0) with 0 by ring. apply sqrt_0.
Qed.

Lemma exact_nonzero_dec (d : complex R) :
  (real d <> 0 \/ imag d <> 0) \/ (real d = 0 /\ imag d = 0).
Proof.
  destruct (Req_dec (real d) 0); destruct (Req_dec (imag d) 0); auto.
Qed.
End ExactQuotient.

(** X12.  In exact arithmetic the response is linear in the gain
    wherever the divisor is not zero: after [set_k(k1*k2)] the value of
    an array evaluation at such a point is [k1] times the value after
    [set_k(k2)].  With a positive [den_min] the divisor is nowhere
    zero. *)
Theorem exact_gain_linearity :
  forall (self : ZerosAndPolesSISO.t (F:=R)) (k1 k2 : R)
         (ss : list (complex R)) (den_min : R),
  exists ys ys',
    ZerosAndPolesSISO.evaluate_at_s (ZerosAndPolesSISO.set_k self k2)
      (ZerosAndPolesSISO.ArrayLike ss) den_min
    = Ok (ZerosAndPolesSISO.ArrayValue ys) /\
    ZerosAndPolesSISO.evaluate_at_s (ZerosAndPolesSISO.set_k self (k1 * k2)%R)
      (ZerosAndPolesSISO.ArrayLike ss) den_min
    = Ok (ZerosAndPolesSISO.ArrayValue ys') /\
    (forall i s y y',
        nth_error ss i = Some s ->
        nth_error ys i = Some y ->
        nth_error ys' i = Some y' ->
        let divisor :=
          ZerosAndPolesSISO.select_den den_min
            (point_product s (ZerosAndPolesSISO.d1 self)
               (ZerosAndPolesSISO.d2 self) (Complex fone fzero)) in
        (real divisor <> 0 \/ imag divisor <> 0)%R ->
        y' = c_prod (of_real k1) y) /\
    ((0 < den_min)%R -> ys' = map (c_prod (of_real k1)) ys).
Proof.
  intros self k1 k2 ss den_min.
  rewrite !evaluate_at_s_array. do 2 eexists.
  split; [reflexivity |]. split; [reflexivity |].
  cbn [ZerosAndPolesSISO.set_k ZerosAndPolesSISO.k ZerosAndPolesSISO.n1
       ZerosAndPolesSISO.n2 ZerosAndPolesSISO.d1 ZerosAndPolesSISO.d2].
  assert (Hpoint : forall s,
             let divisor :=
               ZerosAndPolesSISO.select_den den_min
                 (point_product s (ZerosAndPolesSISO.d1 self)
                    (ZerosAndPolesSISO.d2 self) (Complex fone fzero)) in
             (real divisor <> 0 \/ imag divisor <> 0)%R ->
             npy_divide
               (point_product s (ZerosAndPolesSISO.n1 self) (ZerosAndPolesSISO.n2 self)
                  (c_prod (of_real (k1 * k2)%R) (Complex fone fzero)))
               divisor
             = c_prod (of_real k1)
                 (npy_divide
                    (point_product s (ZerosAndPolesSISO.n1 self)
                       (ZerosAndPolesSISO.n2 self)
                       (c_prod (of_real k2) (Complex fone fzero)))
                    divisor)).
  { intros s divisor Hd.
    apply (@exact_c_prod_cancel _ _ divisor Hd).
    rewrite exact_c_prod_assoc, !exact_npy_divide_mul by exact Hd.
    rewrite <- point_product_scale. f_equal. apply complex_eq; cbn; ring. }
  split.
  - intros i s y y' Hs Hy Hy'. cbv zeta. intros Hd.
    rewrite nth_error_map, Hs in Hy, Hy'. cbn [option_map] in Hy, Hy'.
    injection Hy as <-. injection Hy' as <-. now apply Hpoint.
  - intros Hpos. rewrite map_map. apply map_ext. intros s.
    apply Hpoint. now apply exact_select_den.
Qed.

Lemma exact_gain_linearity_witness :
  let self := {| ZerosAndPolesSISO.k := 1%R;
                 ZerosAndPolesSISO.n1 := [];
                 ZerosAndPolesSISO.n2 := [];
                 ZerosAndPolesSISO.d1 := [0%R];
                 ZerosAndPolesSISO.d2 := [];
                 ZerosAndPolesSISO.z := [];
                 ZerosAndPolesSISO.p := [Complex 0%R 0%R] |} in
  (0 < 1)%R /\
  exists ys,
    ZerosAndPolesSISO.evaluate_at_s (ZerosAndPolesSISO.set_k self 3%R)
      (ZerosAndPolesSISO.ArrayLike [Complex 0%R 0%R; Complex 0%R 2%R]) 1%R
    = Ok (ZerosAndPolesSISO.ArrayValue ys) /\
    ZerosAndPolesSISO.evaluate_at_s (ZerosAndPolesSISO.set_k self (5 * 3)%R)
      (ZerosAndPolesSISO.ArrayLike [Complex 0%R 0%R; Complex 0%R 2%R]) 1%R
    = Ok (ZerosAndPolesSISO.ArrayValue (map (c_prod (of_real 5%R)) ys)).
Proof.
  intros self.
  assert (Hpos : (0 < 1)%R) by lra.
  split; [exact Hpos |].
  destruct (@exact_gain_linearity self 5%R 3%R
              [Complex 0%R 0%R; Complex 0%R 2%R] 1%R)
    as (ys & ys' & Hys & Hys' & _ & Hall).
  exists ys. split; [exact Hys |]. rewrite <- (Hall Hpos). exact Hys'.
Defined.

Section ExactFloor.
Local Open Scope R_scope.

(** Without rounding: the scalar call divides by the denominator when
    it is at least [den_min] in magnitude and not zero, by [den_min]
    when it is smaller. *)
Lemma exact_scalar_quotient (self : ZerosAndPolesSISO.t (F:=R))
      (s : complex R) (den_min : R) :
  let N := factored_value (ZerosAndPolesSISO.k self) (ZerosAndPolesSISO.n1 self)
             (ZerosAndPolesSISO.n2 self) s in
  let D := factored_value 1 (ZerosAndPolesSISO.d1 self)
             (ZerosAndPolesSISO.d2 self) s in
  (den_min <= c_abs D -> real D <> 0 \/ imag D <> 0 ->
   exists y,
     ZerosAndPolesSISO.evaluate_at_s self (ZerosAndPolesSISO.Scalar s) den_min
     = Ok (ZerosAndPolesSISO.ScalarValue y) /\
     c_prod (ZerosAndPolesSISO.value y) D = N) /\
  (c_abs D < den_min ->
   exists y,
     ZerosAndPolesSISO.evaluate_at_s self (ZerosAndPolesSISO.Scalar s) den_min
     = Ok (ZerosAndPolesSISO.ScalarValue y) /\
     c_prod (ZerosAndPolesSISO.value y) (of_real den_min) = N).
Proof.
  intros N D.
  assert (HN : ZerosAndPolesSISO.value (ZerosAndPolesSISO.scalar_num self s) = N).
  { unfold ZerosAndPolesSISO.scalar_num. rewrite value_scalar_product.
    apply exact_factored_value. }
  assert (HD : ZerosAndPolesSISO.value (ZerosAndPolesSISO.scalar_den self s) = D).
  { unfold ZerosAndPolesSISO.scalar_den. rewrite value_scalar_product.
    apply (exact_factored_value 1). }
  unfold ZerosAndPolesSISO.evaluate_at_s. rewrite HD. split.
  - intros Hge Hnz. rewrite (proj2 (exact_fge (c_abs D) den_min) Hge).
    destruct (@exact_truediv_mul (ZerosAndPolesSISO.scalar_num self s)
                (ZerosAndPolesSISO.ByScalar (ZerosAndPolesSISO.scalar_den self s))
                D (eq_sym HD) Hnz) as (y & -> & Hy).
    exists y. split; [reflexivity |]. now rewrite Hy.
  - intros Hlt.
    destruct (fge (c_abs D) den_min) eqn:Hge;
      [apply exact_fge in Hge; lra |].
    assert (Hpos : 0 < den_min).
    { pose proof (sqrt_pos (real D * real D + imag D * imag D)) as H0.
      unfold c_abs in Hlt. cbn [fhypot Exact] in Hlt. lra. }
    destruct (@exact_truediv_mul (ZerosAndPolesSISO.scalar_num self s)
                (ZerosAndPolesSISO.ByFloat den_min) (of_real den_min) eq_refl)
      as (y & -> & Hy).
    { left. cbn. lra. }
    exists y. split; [reflexivity |]. now rewrite Hy.
Qed.

(** Without rounding: one entry of the array call. *)
Lemma exact_array_quotient (self : ZerosAndPolesSISO.t (F:=R))
      (s : complex R) (den_min : R) (ss : list (complex R)) (i : nat) :
  let N := factored_value (ZerosAndPolesSISO.k self) (ZerosAndPolesSISO.n1 self)
             (ZerosAndPolesSISO.n2 self) s in
  let D := factored_value 1 (ZerosAndPolesSISO.d1 self)
             (ZerosAndPolesSISO.d2 self) s in
  nth_error ss i = Some s ->
  exists ys y,
    ZerosAndPolesSISO.evaluate_at_s self (ZerosAndPolesSISO.ArrayLike ss) den_min
    = Ok (ZerosAndPolesSISO.ArrayValue ys) /\
    nth_error ys i = Some y /\
    (den_min <= c_abs D -> real D <> 0 \/ imag D <> 0 -> c_prod y D = N) /\
    (c_abs D < den_min -> c_prod y (of_real den_min) = N).
Proof.
  intros N D Hs. rewrite evaluate_at_s_array. do 2 eexists.
  split; [reflexivity |].
  rewrite nth_error_map, Hs. cbn [option_map]. split; [reflexivity |].
  rewrite exact_gain_start, exact_factored_value.
  change (Complex fone fzero) with (of_real (F:=R) 1).
  rewrite exact_factored_value. fold N D.
  unfold ZerosAndPolesSISO.select_den.
  replace (fmul den_min fone) with den_min by (cbn; ring).
  split.
  - intros Hge Hnz. rewrite (proj2 (exact_fge (c_abs D) den_min) Hge).
    now apply exact_npy_divide_mul.
  - intros Hlt.
    destruct (fge (c_abs D) den_min) eqn:Hge;
      [apply exact_fge in Hge; lra |].
    apply exact_npy_divide_mul. left.
    pose proof (sqrt_pos (real D * real D + imag D * imag D)) as H0.
    unfold c_abs in Hlt. cbn [fhypot Exact] in Hlt. cbn. lra.
Qed.
End ExactFloor.

Section Binary64Floor.

(** In binary64 a positive [den_min] keeps the scalar call from
    raising. *)
Lemma positive_floor_returns (self : ZerosAndPolesSISO.t (F:=float))
      (s : complex float) (den_min : float) :
  flt fzero den_min = true ->
  is_ok (ZerosAndPolesSISO.evaluate_at_s self (ZerosAndPolesSISO.Scalar s) den_min)
  = true.
Proof.
  intros Hpos.
  unfold ZerosAndPolesSISO.evaluate_at_s.
  set (num := ZerosAndPolesSISO.scalar_num self s).
  set (den := ZerosAndPolesSISO.scalar_den self s).
  assert (Hdiv : forall a b : complex float,
             is_zero b = false -> is_ok (c_quot a b) = true).
  { intros a b Hb. destruct (is_ok (c_quot a b)) eqn:E; [reflexivity |].
    apply c_quot_raises in E. congruence. }
  destruct (fge (c_abs (ZerosAndPolesSISO.value den)) den_min) eqn:Hge.
  - pose proof (@at_least_positive_not_zero den_min _ Hpos Hge) as Hnz.
    destruct num as [a | a], den as [b | b];
      cbn [ZerosAndPolesSISO.truediv ZerosAndPolesSISO.value] in *;
      try reflexivity.
    pose proof (Hdiv a b Hnz) as Hok.
    destruct (c_quot a b); [reflexivity | discriminate].
  - pose proof (@positive_not_zero den_min Hpos) as Hnz.
    destruct num as [a | a]; cbn [ZerosAndPolesSISO.truediv]; try reflexivity.
    pose proof (Hdiv a (of_real den_min) Hnz) as Hok.
    destruct (c_quot a (of_real den_min)); [reflexivity | discriminate].
Qed.

(** In binary64, where the denominator is zero and counts as at least
    [den_min], the quotient of two Python complex numbers raises. *)
Lemma zero_denominator_raises (self : ZerosAndPolesSISO.t (F:=float))
      (s : complex float) (den_min : float) :
  ZerosAndPolesSISO.n2 self = [] ->
  ZerosAndPolesSISO.d2 self = [] ->
  is_zero (ZerosAndPolesSISO.value (ZerosAndPolesSISO.scalar_den self s)) = true ->
  fge (c_abs (ZerosAndPolesSISO.value (ZerosAndPolesSISO.scalar_den self s)))
      den_min = true ->
  ZerosAndPolesSISO.evaluate_at_s self (ZerosAndPolesSISO.Scalar s) den_min
  = Raise (ZeroDivisionError "complex division by zero").
Proof.
  intros Hn2 Hd2 Hz Hge.
  unfold ZerosAndPolesSISO.evaluate_at_s. rewrite Hge.
  unfold ZerosAndPolesSISO.scalar_num, ZerosAndPolesSISO.scalar_den in *.
  rewrite Hn2, Hd2 in *. rewrite !scalar_product_python in *.
  cbn [ZerosAndPolesSISO.value ZerosAndPolesSISO.truediv] in *.
  now rewrite (c_quot_zero _ _ Hz).
Qed.
End Binary64Floor.

(** C7, as the code has it.  [evaluate_at_s] on a complex point [s]
    divides [numerator(s)] by [denominator(s)] when
    [|denominator(s)| >= den_min] and by the float [den_min] itself when
    [|denominator(s)| < den_min], [numerator(s)] and [denominator(s)]
    being the products of the stored factors at [s]; on an array every
    point is treated so.  Without rounding the value returned is the
    quotient: its product with the divisor is
    [k * product(s + n1[i]) * product(s**2 + n2[i,1]*s + n2[i,0])], the
    divisor being [denominator(s)] where that is not zero and at least
    [den_min] in magnitude, [den_min] where it is smaller.  In binary64 a
    positive [den_min] makes the call return for every entity and point,
    and where the denominator is zero and [den_min = 1e-10] the quotient
    by [1e-10] is returned; the system with a zero at 1 and a pole at 0,
    evaluated at 0 with [den_min = 1e-10], yields the finite value
    [num(0)/1e-10].  The call does not return for every [den_min >= 0]:
    where the denominator is zero and [|denominator(s)| >= den_min]
    holds, as it does for [den_min = 0], the quotient of two Python
    complex numbers raises [ZeroDivisionError]. *)
Theorem evaluate_at_s_floor :
  (forall (F : Type) (arith : PyFloat F) (self : ZerosAndPolesSISO.t)
          (s : complex F) (den_min : F),
      let numerator := ZerosAndPolesSISO.scalar_num self s in
      let denominator := ZerosAndPolesSISO.scalar_den self s in
      ZerosAndPolesSISO.value numerator
      = point_product s (ZerosAndPolesSISO.n1 self) (ZerosAndPolesSISO.n2 self)
          (of_real (ZerosAndPolesSISO.k self)) /\
      ZerosAndPolesSISO.value denominator
      = point_product s (ZerosAndPolesSISO.d1 self) (ZerosAndPolesSISO.d2 self)
          (Complex fone fzero) /\
      (fge (c_abs (ZerosAndPolesSISO.value denominator)) den_min = true ->
       ZerosAndPolesSISO.evaluate_at_s self (ZerosAndPolesSISO.Scalar s) den_min
       = bind (ZerosAndPolesSISO.truediv numerator
                 (ZerosAndPolesSISO.ByScalar denominator))
           (fun y => Ok (ZerosAndPolesSISO.ScalarValue y))) /\
      (flt (c_abs (ZerosAndPolesSISO.value denominator)) den_min = true ->
       ZerosAndPolesSISO.evaluate_at_s self (ZerosAndPolesSISO.Scalar s) den_min
       = bind (ZerosAndPolesSISO.truediv numerator
                 (ZerosAndPolesSISO.ByFloat den_min))
           (fun y => Ok (ZerosAndPolesSISO.ScalarValue y)))) /\
  (forall (F : Type) (arith : PyFloat F) (self : ZerosAndPolesSISO.t)
          (ss : list (complex F)) (den_min : F),
      exists ys,
        ZerosAndPolesSISO.evaluate_at_s self (ZerosAndPolesSISO.ArrayLike ss) den_min
        = Ok (ZerosAndPolesSISO.ArrayValue ys) /\
        length ys = length ss /\
        forall i s, nth_error ss i = Some s ->
          let numerator :=
            point_product s (ZerosAndPolesSISO.n1 self) (ZerosAndPolesSISO.n2 self)
              (c_prod (of_real (ZerosAndPolesSISO.k self)) (Complex fone fzero)) in
          let denominator :=
            point_product s (ZerosAndPolesSISO.d1 self) (ZerosAndPolesSISO.d2 self)
              (Complex fone fzero) in
          (fge (c_abs denominator) (fmul den_min fone) = true ->
           nth_error ys i = Some (npy_divide numerator denominator)) /\
          (flt (c_abs denominator) (fmul den_min fone) = true ->
           nth_error ys i = Some (npy_divide numerator (of_real den_min)))) /\
  (forall (self : ZerosAndPolesSISO.t (F:=R)) (s : complex R) (den_min : R),
      let N := factored_value (ZerosAndPolesSISO.k self) (ZerosAndPolesSISO.n1 self)
                 (ZerosAndPolesSISO.n2 self) s in
      let D := factored_value 1%R (ZerosAndPolesSISO.d1 self)
                 (ZerosAndPolesSISO.d2 self) s in
      ((den_min <= c_abs D)%R -> (real D <> 0 \/ imag D <> 0)%R ->
       exists y,
         ZerosAndPolesSISO.evaluate_at_s self (ZerosAndPolesSISO.Scalar s) den_min
         = Ok (ZerosAndPolesSISO.ScalarValue y) /\
         c_prod (ZerosAndPolesSISO.value y) D = N) /\
      ((c_abs D < den_min)%R ->
       exists y,
         ZerosAndPolesSISO.evaluate_at_s self (ZerosAndPolesSISO.Scalar s) den_min
         = Ok (ZerosAndPolesSISO.ScalarValue y) /\
         c_prod (ZerosAndPolesSISO.value y) (of_real den_min) = N) /\
      (forall ss i,
          nth_error ss i = Some s ->
          exists ys y,
            ZerosAndPolesSISO.evaluate_at_s self (ZerosAndPolesSISO.ArrayLike ss)
              den_min
            = Ok (ZerosAndPolesSISO.ArrayValue ys) /\
            nth_error ys i = Some y /\
            ((den_min <= c_abs D)%R -> (real D <> 0 \/ imag D <> 0)%R ->
             c_prod y D = N) /\
            ((c_abs D < den_min)%R -> c_prod y (of_real den_min) = N))) /\
  (forall (self : ZerosAndPolesSISO.t (F:=float)) (s : complex float)
          (den_min : float),
      flt fzero den_min = true ->
      is_ok (ZerosAndPolesSISO.evaluate_at_s self (ZerosAndPolesSISO.Scalar s)
               den_min) = true) /\
  (forall (self : ZerosAndPolesSISO.t) (s : complex float),
      is_zero (ZerosAndPolesSISO.value (ZerosAndPolesSISO.scalar_den self s)) = true ->
      ZerosAndPolesSISO.evaluate_at_s self (ZerosAndPolesSISO.Scalar s) f1em10
      = bind (ZerosAndPolesSISO.truediv (ZerosAndPolesSISO.scalar_num self s)
                (ZerosAndPolesSISO.ByFloat f1em10))
          (fun y => Ok (ZerosAndPolesSISO.ScalarValue y)) /\
      is_ok (ZerosAndPolesSISO.evaluate_at_s self (ZerosAndPolesSISO.Scalar s) f1em10)
      = true) /\
  (forall (self : ZerosAndPolesSISO.t (F:=float)) (s : complex float)
          (den_min : float),
      ZerosAndPolesSISO.n2 self = [] ->
      ZerosAndPolesSISO.d2 self = [] ->
      is_zero (ZerosAndPolesSISO.value (ZerosAndPolesSISO.scalar_den self s)) = true ->
      fge (c_abs (ZerosAndPolesSISO.value (ZerosAndPolesSISO.scalar_den self s)))
          den_min = true ->
      ZerosAndPolesSISO.evaluate_at_s self (ZerosAndPolesSISO.Scalar s) den_min
      = Raise (ZeroDivisionError "complex division by zero")) /\
  (ZerosAndPolesSISO.__init__
     (sample_gain, ZerosAndPolesSISO.Sequence [C64 1 0],
      ZerosAndPolesSISO.Sequence [C64 0 0]) = Ok pole_at_origin /\
   ZerosAndPolesSISO.value (ZerosAndPolesSISO.scalar_num pole_at_origin (C64 0 0))
   = C64 (- sample_gain) 0 /\
   ZerosAndPolesSISO.evaluate_at_s pole_at_origin
     (ZerosAndPolesSISO.Scalar (C64 0 0)) f1em10
   = Ok (ZerosAndPolesSISO.ScalarValue
           (ZerosAndPolesSISO.PyComplex
              (C64 (- sample_gain / f1em10) (0 / f1em10)))) /\
   c_isfinite (C64 (- sample_gain / f1em10) (0 / f1em10)) = true) /\
  (ZerosAndPolesSISO.__init__
     (4%float, ZerosAndPolesSISO.Sequence [],
      ZerosAndPolesSISO.Sequence [C64 0 1; C64 0 (-1)]) = Ok quadratic_pole /\
   ZerosAndPolesSISO.evaluate_at_s quadratic_pole
     (ZerosAndPolesSISO.ArrayLike [C64 1 0; C64 0 1]) 0.5%float
   = Ok (ZerosAndPolesSISO.ArrayValue [C64 2 0; C64 8 0]) /\
   ZerosAndPolesSISO.evaluate_at_s quadratic_pole
     (ZerosAndPolesSISO.Scalar (C64 1 0)) 0.5%float
   = Ok (ZerosAndPolesSISO.ScalarValue (ZerosAndPolesSISO.NpComplex128 (C64 2 0))) /\
   ZerosAndPolesSISO.evaluate_at_s quadratic_pole
     (ZerosAndPolesSISO.Scalar (C64 0 1)) 0.5%float
   = Ok (ZerosAndPolesSISO.ScalarValue (ZerosAndPolesSISO.PyComplex (C64 8 0)))).
Proof.
  split; [| split; [| split; [| split; [| split; [| split; [| split]]]]]].
  - intros F arith self s den_min numerator denominator.
    subst numerator denominator.
    split; [apply value_scalar_product |].
    split; [apply value_scalar_product |].
    split.
    + intros Hge. unfold ZerosAndPolesSISO.evaluate_at_s. now rewrite Hge.
    + intros Hlt. apply flt_not_fge in Hlt.
      unfold ZerosAndPolesSISO.evaluate_at_s. now rewrite Hlt.
  - intros F arith self ss den_min.
    rewrite evaluate_at_s_array. eexists. split; [reflexivity |].
    split; [apply length_map |].
    intros i s Hs numerator denominator.
    rewrite nth_error_map, Hs. simpl.
    fold numerator denominator. unfold ZerosAndPolesSISO.select_den.
    split.
    + intros Hge. now rewrite Hge.
    + intros Hlt. apply flt_not_fge in Hlt. now rewrite Hlt.
  - intros self s den_min N D.
    destruct (exact_scalar_quotient self s den_min) as [Hdiv Hfloor].
    split; [exact Hdiv |]. split; [exact Hfloor |].
    intros ss i Hs. exact (exact_array_quotient self den_min ss i Hs).
  - exact positive_floor_returns.
  - intros self s Hz.
    assert (E : ZerosAndPolesSISO.evaluate_at_s self (ZerosAndPolesSISO.Scalar s) f1em10
                = bind (ZerosAndPolesSISO.truediv (ZerosAndPolesSISO.scalar_num self s)
                          (ZerosAndPolesSISO.ByFloat f1em10))
                    (fun y => Ok (ZerosAndPolesSISO.ScalarValue y))).
    { unfold ZerosAndPolesSISO.evaluate_at_s.
      now rewrite (flt_not_fge _ _ (c_abs_below_floor _ Hz)). }
    split; [exact E |]. rewrite E.
    destruct (ZerosAndPolesSISO.scalar_num self s); reflexivity.
  - exact zero_denominator_raises.
  - repeat split; vm_compute; reflexivity.
  - repeat split; vm_compute; reflexivity.
Qed.

Lemma evaluate_at_s_floor_witness :
  let self := {| ZerosAndPolesSISO.k := 3%R;
                 ZerosAndPolesSISO.n1 := [(-1)%R];
                 ZerosAndPolesSISO.n2 := [];
                 ZerosAndPolesSISO.d1 := [];
                 ZerosAndPolesSISO.d2 := [(1%R, 0%R)];
                 ZerosAndPolesSISO.z := [Complex 1%R 0%R];
                 ZerosAndPolesSISO.p := [Complex 0%R 1%R; Complex 0%R (-1)%R] |} in
  let D := factored_value 1%R (ZerosAndPolesSISO.d1 self)
             (ZerosAndPolesSISO.d2 self) (Complex 0%R 1%R) in
  (c_abs D < / 2)%R /\
  exists y,
    ZerosAndPolesSISO.evaluate_at_s self
      (ZerosAndPolesSISO.Scalar (Complex 0%R 1%R)) (/ 2)%R
    = Ok (ZerosAndPolesSISO.ScalarValue y) /\
    c_prod (ZerosAndPolesSISO.value y) (of_real (/ 2)%R)
    = factored_value (ZerosAndPolesSISO.k self) (ZerosAndPolesSISO.n1 self)
        (ZerosAndPolesSISO.n2 self) (Complex 0%R 1%R).
Proof.
  intros self D.
  assert (Hlt : (c_abs D < / 2)%R).
  { unfold D, c_abs. cbn.
    replace ((1 * (0 * 0 - 1 * 1 + (0 * 0 - 0 * 1) + 1)
              - 0 * (0 * 1 + 1 * 0 + (0 * 1 + 0 * 0) + 0))
             * (1 * (0 * 0 - 1 * 1 + (0 * 0 - 0 * 1) + 1)
                - 0 * (0 * 1 + 1 * 0 + (0 * 1 + 0 * 0) + 0))
             + (1 * (0 * 1 + 1 * 0 + (0 * 1 + 0 * 0) + 0)
                + 0 * (0 * 0 - 1 * 1 + (0 * 0 - 0 * 1) + 1))
               * (1 * (0 * 1 + 1 * 0 + (0 * 1 + 0 * 0) + 0)
                  + 0 * (0 * 0 - 1 * 1 + (0 * 0 - 0 * 1) + 1)))%R
      with 0%R by ring.
    rewrite sqrt_0. lra. }
  split; [exact Hlt |].
  exact (proj1 (proj2 (proj1 (proj2 (proj2 evaluate_at_s_floor))
                         self (Complex 0%R 1%R) (/ 2)%R)) Hlt).
Defined.

(** The claim fails at [den_min = 0]: at the pole of the system with a
    zero at 1 and a pole at 0, [den_min >= 0] and
    [|denominator(s)| >= den_min] hold and the call raises
    [ZeroDivisionError]; it returns no quotient. *)
Lemma evaluate_at_s_floor_counterexample :
  fge (F:=float) 0%float fzero = true /\
  fge (c_abs (ZerosAndPolesSISO.value
                (ZerosAndPolesSISO.scalar_den pole_at_origin (C64 0 0))))
      0%float = true /\
  ZerosAndPolesSISO.evaluate_at_s pole_at_origin
    (ZerosAndPolesSISO.Scalar (C64 0 0)) 0%float
  = Raise (ZeroDivisionError "complex division by zero").
Proof.
  split; [reflexivity |]. split; vm_compute; reflexivity.
Qed.
